(** * imagenet_candidate_training: the preprocessing script and the training driver

    A shallow embedding of the two scripts of the repository,

    - [code_for_clustering_npz_files.py]: the loop that resolves every
      sampled global index to a source archive and a local offset, collects
      images and labels and writes them out in batches ([Module Clustering]);
    - [train.py]: [main_worker], [train], [validate], [accuracy] and the
      command-line entry point ([Module Train]).

    Python integers are [Z], Python floats are exact rationals [Q], strings
    are [string], dictionaries are [gmap]s.  An exception is a value of
    [exn]; a statement that can raise returns [result]. *)

From Stdlib Require Import ZArith List String Ascii QArith Lia Bool.
From stdpp Require Import base option list gmap strings pretty.

Local Open Scope string_scope.
Local Open Scope list_scope.
Local Open Scope Z_scope.

(** ** Python values shared by both scripts *)

Module Py.

(** The exceptions the two scripts can raise in the modelled code. *)
Inductive exn : Type :=
| IndexError
| KeyError (key : string)
| NameError (name : string)
| UnboundLocalError (name : string)
| ValueError (msg : string)
| TypeError (msg : string)
| AssertionError (msg : string)
| ZeroDivisionError
| FileNotFoundError (path : string)
| UnpicklingError
| SystemExit (code : Z)
| SyntaxError (line : nat).

Definition result (A : Type) : Type := exn + A.

Definition ret {A} (a : A) : result A := inr a.
Definition raise {A} (e : exn) : result A := inl e.
Definition bind {A B} (m : result A) (k : A -> result B) : result B :=
  match m with
  | inl e => inl e
  | inr a => k a
  end.

(** [o] when it holds a value, the exception [e] otherwise. *)
Definition or_raise {A} (o : option A) (e : exn) : result A :=
  match o with
  | Some a => inr a
  | None => inl e
  end.

(** [sum(l)]: the left-to-right sum from [0]. *)
Definition py_sum (l : list Z) : Z := fold_left Z.add l 0.

(** [l[i]]: a negative index counts from the end; out of range is
    [None] (Python raises IndexError). *)
Definition py_index {A} (l : list A) (i : Z) : option A :=
  let n := Z.of_nat (length l) in
  if (0 <=? i) && (i <? n) then l !! Z.to_nat i
  else if (- n <=? i) && (i <? 0) then l !! Z.to_nat (n + i)
  else None.

(** [l[:k]]: a negative bound counts from the end and is clamped at the
    start of the list. *)
Definition py_slice_to {A} (l : list A) (k : Z) : list A :=
  if k <? 0 then firstn (Z.to_nat (Z.of_nat (length l) + k)) l
  else firstn (Z.to_nat k) l.

(** [l[a:b]]: a negative bound counts from the end, and both bounds are
    clamped to the list. *)
Definition py_slice {A} (l : list A) (a b : Z) : list A :=
  let n := Z.of_nat (length l) in
  let clamp := fun x => if x <? 0 then Z.max (x + n) 0 else Z.min x n in
  if clamp a <? clamp b
  then firstn (Z.to_nat (clamp b - clamp a)) (skipn (Z.to_nat (clamp a)) l)
  else [].

(** [bool(l)] for a list: true when it holds an element. *)
Definition truthy {A} (l : list A) : bool :=
  match l with
  | [] => false
  | _ :: _ => true
  end.

(** [range(a, b)] *)
Definition py_range (a b : Z) : list Z :=
  map (fun i => a + Z.of_nat i) (seq 0 (Z.to_nat (b - a))).

(** [s.startswith(p)] *)
Fixpoint starts_with (p s : string) : bool :=
  match p, s with
  | EmptyString, _ => true
  | String a p', String b s' => if Ascii.eqb a b then starts_with p' s' else false
  | String _ _, EmptyString => false
  end.

(** The scan of [s.split(sep)] for a non-empty [sep]: [skip] counts the
    characters of a separator found at an earlier position that are still
    to be passed over, [cur] is the piece read so far. *)
Fixpoint split_scan (sep : string) (skip : nat) (cur : string) (s : string)
  : list string :=
  match s with
  | EmptyString => [cur]
  | String c s' =>
      match skip with
      | S k => split_scan sep k cur s'
      | O =>
          if starts_with sep s
          then cur :: split_scan sep (Nat.pred (String.length sep)) EmptyString s'
          else split_scan sep O (cur ++ String c EmptyString)%string s'
      end
  end.

(** [s.split(sep)], [sep] not empty. *)
Definition py_split (sep s : string) : list string :=
  split_scan sep O EmptyString s.

(** [sep in s], for a non-empty [sep] *)
Fixpoint occurs (sep s : string) : bool :=
  match s with
  | EmptyString => false
  | String _ s' => starts_with sep s || occurs sep s'
  end.

(** Whether a computation returned, and what it returned. *)
Definition returned {A} (r : result A) : bool :=
  match r with
  | inr _ => true
  | inl _ => false
  end.

Definition value_or {A} (d : A) (r : result A) : A :=
  match r with
  | inr x => x
  | inl _ => d
  end.

End Py.

Import Py.

Notation "'let*' x := m 'in' k" := (bind m (fun x => k))
  (at level 10, x name, m at level 100, k at level 200).

(** ** code_for_clustering_npz_files.py *)

Module Clustering.

(** [save_lim = 2000] *)
Definition save_lim : Z := 2000.

(** The pair of variables [cur_npz_file], [cur_npz_idx]: both are assigned
    together, so they are bound or unbound together. *)
Record Cursor : Type := mkCursor {
  cur_npz_file : string;
  cur_npz_idx : Z;
}.

(** What one [np.savez(out_npz_file, X_train=..., y_train=...)] writes. *)
Record Npz (Image Label : Type) : Type := mkNpz {
  out_npz_file : string;
  X_train : list Image;
  y_train : list Label;
}.
Arguments mkNpz {Image Label}.
Arguments out_npz_file {Image Label}.
Arguments X_train {Image Label}.
Arguments y_train {Image Label}.

(** The variables of the loop, and the archives written so far, oldest
    first. *)
Record State (Image Label : Type) : Type := mkState {
  im_arr : list Image;
  lbl_arr : list Label;
  save_idx : Z;
  cursor : option Cursor;
  written : list (Npz Image Label);
}.
Arguments mkState {Image Label}.
Arguments im_arr {Image Label}.
Arguments lbl_arr {Image Label}.
Arguments save_idx {Image Label}.
Arguments cursor {Image Label}.
Arguments written {Image Label}.

(** ['candidate_batch_' + str(save_idx) + '.npz'], below [out_npz]. *)
Definition batch_name (k : Z) : string :=
  ("candidate_batch_" ++ pretty k ++ ".npz")%string.

(** [str(cur_npz_file).split('downloads/')[-1].split('/')[0]] *)
Definition class_key (file : string) : option string :=
  match py_index (py_split "downloads/" file) (-1) with
  | Some tail => py_index (py_split "/" tail) 0
  | None => None
  end.

Section Script.

(** The names the script reads and the part of the file under [src/] does
    not bind: the source archives, their sizes, the label dictionary, and
    what is on disk ([np.load(file)['X_train']]). *)
Context {Image Label : Type}.
Variable npz_list : list string.
Variable npz_size_list : list Z.
Variable chosen_dict : gmap string Label.
Variable disk : gmap string (list Image).

(** The [for i in range(1, len(npz_size_list))] loop of the [else] branch,
    over the values of [i] still to come.  When no [i] matches, the two
    variables keep what they held before. *)
Fixpoint scan_archives (todo : list nat) (cur_idx : Z) (prev : option Cursor)
  : result (option Cursor) :=
  match todo with
  | [] => ret prev
  | i :: rest =>
      let size_1 := py_sum (py_slice_to npz_size_list (Z.of_nat i - 1)) - 1 in
      let* s := or_raise (py_index npz_size_list (Z.of_nat i)) IndexError in
      let size_2 := size_1 + s in
      if (size_1 <? cur_idx) && (cur_idx <? size_2) then
        let* f := or_raise (py_index npz_list (Z.of_nat i)) IndexError in
        ret (Some (mkCursor f (cur_idx - (size_1 + 1))))
      else scan_archives rest cur_idx prev
  end.

(** The [if]/[elif]/[else] that sets [cur_npz_file] and [cur_npz_idx] for
    one [cur_idx]. *)
Definition resolve (prev : option Cursor) (cur_idx : Z) : result (option Cursor) :=
  let* s0 := or_raise (py_index npz_size_list 0) IndexError in
  if cur_idx <? s0 - 1 then
    let* f := or_raise (py_index npz_list 0) IndexError in
    ret (Some (mkCursor f cur_idx))
  else if py_sum (py_slice_to npz_size_list (-1)) - 1 <? cur_idx then
    let* f := or_raise (py_index npz_list (-1)) IndexError in
    ret (Some (mkCursor f (cur_idx - py_sum (py_slice_to npz_size_list (-1)))))
  else
    scan_archives (seq 1 (Nat.pred (length npz_size_list))) cur_idx prev.

(** [np.load(cur_npz_file)['X_train'][cur_npz_idx]] *)
Definition load_image (c : Cursor) : result Image :=
  let* arr := or_raise (disk !! cur_npz_file c) (FileNotFoundError (cur_npz_file c)) in
  or_raise (py_index arr (cur_npz_idx c)) IndexError.

(** [chosen_dict[str(cur_npz_file).split('downloads/')[-1].split('/')[0]]] *)
Definition load_label (c : Cursor) : result Label :=
  let* key := or_raise (class_key (cur_npz_file c)) IndexError in
  or_raise (chosen_dict !! key) (KeyError key).

(** The [if len(im_arr) >= save_lim:] block. *)
Definition flush (st : State Image Label) : State Image Label :=
  if save_lim <=? Z.of_nat (length (im_arr st)) then
    {| im_arr := [];
       lbl_arr := [];
       save_idx := save_idx st + 1;
       cursor := cursor st;
       written := written st ++
                  [mkNpz (batch_name (save_idx st)) (im_arr st) (lbl_arr st)] |}
  else st.

(** One iteration of [for cur_idx in tqdm(rand_idx)]: the state it leaves,
    and the exception that ended the script, if one did. *)
Definition step (st : State Image Label) (cur_idx : Z)
  : State Image Label * option exn :=
  match resolve (cursor st) cur_idx with
  | inl e => (st, Some e)
  | inr None => (st, Some (NameError "cur_npz_file"))
  | inr (Some c) =>
      let st1 := {| im_arr := im_arr st; lbl_arr := lbl_arr st;
                    save_idx := save_idx st; cursor := Some c;
                    written := written st |} in
      match load_image c with
      | inl e => (st1, Some e)
      | inr img =>
          let st2 := {| im_arr := im_arr st ++ [img]; lbl_arr := lbl_arr st;
                        save_idx := save_idx st; cursor := Some c;
                        written := written st |} in
          match load_label c with
          | inl e => (st2, Some e)
          | inr lbl =>
              (flush {| im_arr := im_arr st ++ [img];
                        lbl_arr := lbl_arr st ++ [lbl];
                        save_idx := save_idx st; cursor := Some c;
                        written := written st |}, None)
          end
      end
  end.

(** The whole loop over [rand_idx]. *)
Fixpoint run (rand_idx : list Z) (st : State Image Label)
  : State Image Label * option exn :=
  match rand_idx with
  | [] => (st, None)
  | cur_idx :: rest =>
      match step st cur_idx with
      | (st', None) => run rest st'
      | (st', Some e) => (st', Some e)
      end
  end.

(** [im_arr = []], [lbl_arr = []], [save_idx = 1]; nothing resolved or
    written yet. *)
Definition init : State Image Label :=
  {| im_arr := []; lbl_arr := []; save_idx := 1; cursor := None; written := [] |}.

(** The script: the state when it stops and the exception that stopped it. *)
Definition script (rand_idx : list Z) : State Image Label * option exn :=
  run rand_idx init.

End Script.

(** *** The resolution the specification describes

    The archive that owns the global index [g] is the [j] with
    [sum(npz_size_list[:j]) <= g < sum(npz_size_list[:j+1])]; the local
    offset is [g - sum(npz_size_list[:j])]. *)

Definition owns (sizes : list Z) (g : Z) (j : nat) : Prop :=
  py_sum (firstn j sizes) <= g < py_sum (firstn (S j) sizes).

Definition resolved_as_specified (files : list string) (sizes : list Z)
    (g : Z) (c : Cursor) : Prop :=
  exists j : nat,
    owns sizes g j /\
    files !! j = Some (cur_npz_file c) /\
    cur_npz_idx c = g - py_sum (firstn j sizes).

(** The owner and the offset, computed by walking the sizes. *)
Fixpoint locate (sizes : list Z) (g : Z) : option (nat * Z) :=
  match sizes with
  | [] => None
  | s :: rest =>
      if g <? s then Some (O, g)
      else match locate rest (g - s) with
           | Some (j, off) => Some (S j, off)
           | None => None
           end
  end.

(** *** What the written archives look like *)

Definition full_batch {Image Label} (a : Npz Image Label) : Prop :=
  Z.of_nat (length (X_train a)) = save_lim /\
  Z.of_nat (length (y_train a)) = save_lim.

Definition numbered_from_1 {Image Label} (l : list (Npz Image Label)) : Prop :=
  map out_npz_file l = map (fun k => batch_name (Z.of_nat k)) (seq 1 (length l)).

(** The archives on disk are full, numbered from 1, and [save_idx] is the
    number of the next one. *)
Record disk_ok {Image Label} (st : State Image Label) : Prop := mk_disk_ok {
  disk_idx : save_idx st = 1 + Z.of_nat (length (written st));
  disk_full : Forall full_batch (written st);
  disk_names : numbered_from_1 (written st);
}.

(** Between two iterations the buffers are equally long and not full. *)
Record buf_ok {Image Label} (st : State Image Label) : Prop := mk_buf_ok {
  buf_lt : Z.of_nat (length (im_arr st)) < save_lim;
  buf_lbl : length (lbl_arr st) = length (im_arr st);
}.

(** The number of indices a state accounts for. *)
Definition handled {Image Label} (st : State Image Label) : Z :=
  save_lim * Z.of_nat (length (written st)) + Z.of_nat (length (im_arr st)).

(** The images and the labels collected so far, in the order they were
    collected: those of the archives written, then those of the buffers. *)
Definition stream_images {Image Label} (st : State Image Label) : list Image :=
  concat (map X_train (written st)) ++ im_arr st.

Definition stream_labels {Image Label} (st : State Image Label) : list Label :=
  concat (map y_train (written st)) ++ lbl_arr st.

End Clustering.

(** ** Concrete inputs of the clustering script *)

Module ClusteringRuns.

Import Clustering.

(** The archives of the failing input: three classes of 3, 5 and 4 images. *)
Definition three_files : list string :=
  ["downloads/cat/cat.npz"; "downloads/dog/dog.npz"; "downloads/owl/owl.npz"].
Definition three_sizes : list Z := [3; 5; 4].

(** A run that fills one archive: a single source archive of 5000 images
    (image [i] is the number [i]), class [cat] with label 7, and the
    indices 0, 1, ..., 2000 in this order. *)
Definition one_file : list string := ["downloads/cat/cat.npz"].
Definition one_size : list Z := [5000].
Definition one_dict : gmap string nat := {[ "cat" := 7%nat ]}.
Definition one_disk : gmap string (list nat) :=
  {[ "downloads/cat/cat.npz" := seq 0 5000 ]}.
Definition one_rand_idx : list Z := py_range 0 2001.

(** The three archives on disk (image [10 * k + i] is image [i] of archive
    [k + 1]), their labels, and the state after the index 0 is handled. *)
Definition three_disk : gmap string (list nat) :=
  {[ "downloads/cat/cat.npz" := [10; 11; 12]%nat;
     "downloads/dog/dog.npz" := [20; 21; 22; 23; 24]%nat;
     "downloads/owl/owl.npz" := [30; 31; 32; 33]%nat ]}.
Definition three_dict : gmap string nat :=
  {[ "cat" := 0%nat; "dog" := 1%nat; "owl" := 2%nat ]}.
Definition after_index_0 : State nat nat :=
  {| im_arr := [10%nat]; lbl_arr := [0%nat]; save_idx := 1;
     cursor := Some (mkCursor "downloads/cat/cat.npz" 0); written := [] |}.

(** A single archive of four images. *)
Definition four_disk : gmap string (list nat) :=
  {[ "downloads/cat/cat.npz" := [10; 11; 12; 13]%nat ]}.

End ClusteringRuns.

(** ** train.py *)

Module Train.

(** *** Values *)

(** [nn.CrossEntropyLoss()] or [nn.MSELoss()] *)
Inductive Criterion : Type := CrossEntropyLoss | MSELoss.

(** [torch.optim.SGD], [torch.optim.Adam], [torch.optim.LBFGS] *)
Inductive OptKind : Type := SGD | Adam | LBFGS.

(** What an optimizer is built over: [model.parameters()], or the
    [param_setup] list of the [args.initial_lr] branch. *)
Inductive Params : Type := ModelParameters | ParamSetup.

(** The second argument of [criterion]: the class indices [target], or the
    one-hot matrix [targetl2] built from them. *)
Inductive LossTarget : Type :=
| ClassTarget (target : list Z)
| OneHotTarget (target : list Z) (num_classes : Z).

(** [model.train()] and [model.eval()] *)
Inductive Mode : Type := TrainMode | EvalMode.

(** The three loaders of [main_worker]. *)
Inductive LoaderName : Type := TrainLoader | ValLoader | ValLoader2.

(** One value of a log entry: [{'acc1': ..., 'acc5': ...}]. *)
Record Acc : Type := mkAcc { acc1 : Q; acc5 : Q }.

(** [epoch_log]: the key ['epoch'] and the optional keys ['train'],
    ['test'] and ['subset'].  (The keys of the Jacobian and weight-tracking
    blocks are never reached: see [epoch_body].) *)
Record EpochLog : Type := mkEpochLog {
  log_epoch : Z;
  log_train : option Acc;
  log_test : option Acc;
  log_subset : option Acc;
}.

(** The attributes of [args] that the modelled code reads.  An attribute
    used only for its truth value is a [bool]; [args.gpu] only moves
    tensors between devices, which changes no value, and is left out.
    [args.initial_lr] and [args.initial_lr_decay], which no option of the
    parser sets, are what lines 395 and 398 index: a list with one
    dictionary of numbers for every parameter group, the empty list when
    they are not given. *)
Record Args : Type := mkArgs {
  arch : string;
  loss_func : string;
  opt : string;
  lr : Q;
  momentum : Q;
  weight_decay : Q;
  initial_lr : list (gmap string Q);
  initial_lr_decay : list (gmap string Q);
  schedule_lr : bool;
  resume : string;
  start_epoch : Z;
  epochs : Z;
  max_lr_adjusting_epoch : Z;
  sub_file : string;
  mix_cifar : bool;
  mix_rate : bool;
  traindir2 : bool;
  testdir2 : bool;
  inject_noise : bool;
  evaluate : bool;
  compute_jacobian : bool;
  track_weights : bool;
  scale_weights : bool;
  track_correct : bool;
  use_inverse_sqrt_lr : bool;
  use_LBFGS : bool;
  batch_size : Z;
  print_freq : Z;
  num_classes : Z;
  outpath : string;
}.

(** *** The framework

    What [torch] provides and the modelled code calls.  The calls are taken
    to return normally; what they compute is left open. *)
Class Framework : Type := {
  Model : Type;
  Optimizer : Type;
  Scheduler : Type;
  Input : Type;
  Output : Type;
  ModelDict : Type;
  OptimizerDict : Type;
  (** [model(input)] *)
  forward : Model -> Input -> Output;
  (** [input.size(0)] *)
  input_size : Input -> Z;
  (** [output.topk(maxk, 1, True, True)[1].t()]: [maxk] rows, one column
      for each sample of the batch *)
  topk_t : Output -> Z -> list (list Z);
  (** [criterion(output, target).item()] *)
  loss_item : Criterion -> Output -> LossTarget -> Q;
  (** [model.train()], [model.eval()] *)
  set_mode : Mode -> Model -> Model;
  (** [torch.optim.SGD(params, lr, momentum=..., weight_decay=...)] and its
      two siblings, with their keyword arguments *)
  new_optimizer : OptKind -> Params -> Model -> Q -> list (string * Q) -> Optimizer;
  (** [torch.optim.lr_scheduler.CyclicLR(optimizer, base_lr, max_lr)]: it
      also sets the rates of the optimizer it is given *)
  new_scheduler : Optimizer -> Q -> Q -> Scheduler * Optimizer;
  (** [scheduler.step()]: it also sets the rates of the optimizer it holds *)
  scheduler_step : Scheduler -> Optimizer -> Scheduler * Optimizer;
  (** [optimizer.zero_grad(); loss.backward(); optimizer.step()] *)
  optimizer_step :
    Criterion -> LossTarget -> Input -> Model -> Optimizer -> Model * Optimizer;
  (** [optimizer.step(closure)] *)
  closure_step :
    Criterion -> LossTarget -> Input -> Model -> Optimizer -> Model * Optimizer;
  (** [len(optimizer.param_groups)] *)
  param_groups : Optimizer -> nat;
  (** [optimizer.param_groups[cur_p]['lr'] = lr] *)
  set_group_lr : Optimizer -> nat -> Q -> Optimizer;
  (** [base_lr / np.sqrt(1 + k/d_rate)] for a [d_rate] that is not zero: a
      float of NumPy *)
  inverse_sqrt : Q -> Z -> Q -> Q;
  (** [adjust_learning_rate(optimizer, epoch, args)] of [train_utils] *)
  adjust_learning_rate : Optimizer -> Z -> Args -> Optimizer;
  state_dict : Model -> ModelDict;
  load_state_dict : Model -> ModelDict -> Model;
  optimizer_state_dict : Optimizer -> OptimizerDict;
  optimizer_load_state_dict : Optimizer -> OptimizerDict -> Optimizer;
  (** loading a state makes it the state of the object *)
  state_dict_loaded : forall m d, state_dict (load_state_dict m d) = d;
  optimizer_state_dict_loaded :
    forall o d, optimizer_state_dict (optimizer_load_state_dict o d) = d;
}.

(** The interface of [AverageMeter] that [train] and [validate] use:
    [AverageMeter()], [meter.update(val, n)] and [meter.avg]. *)
Class Meter (M : Type) : Type := {
  meter_new : M;
  meter_update : M -> Q -> Z -> M;
  meter_avg : M -> Q;
}.

(** Modelled from the spec: [AverageMeter] of [train_utils], which is not
    under [src/].  "Meter: a running-average accumulator for a scalar metric
    (loss, top-k accuracy) over a training/evaluation pass": the meter keeps
    the last value, the weighted sum of the values and the sum of the
    weights, and [avg] is their quotient. *)
Record AverageMeter : Type := mkAverageMeter {
  meter_val : Q;
  meter_sum : Q;
  meter_count : Z;
  avg : Q;
}.

Definition AverageMeter_reset : AverageMeter :=
  {| meter_val := 0; meter_sum := 0; meter_count := 0; avg := 0 |}.

Definition AverageMeter_update (m : AverageMeter) (v : Q) (n : Z) : AverageMeter :=
  let sum' := (meter_sum m + v * inject_Z n)%Q in
  let count' := meter_count m + n in
  {| meter_val := v; meter_sum := sum'; meter_count := count';
     avg := (sum' / inject_Z count')%Q |}.

#[export] Instance AverageMeter_Meter : Meter AverageMeter :=
  {| meter_new := AverageMeter_reset;
     meter_update := AverageMeter_update;
     meter_avg := avg |}.

(** A meter after the updates [(v_1, n_1), ..., (v_m, n_m)]. *)
Definition AverageMeter_updates (l : list (Q * Z)) (m : AverageMeter) : AverageMeter :=
  fold_left (fun m vn => AverageMeter_update m (fst vn) (snd vn)) l m.

(** [sum(v_i * n_i)] and [sum(n_i)] *)
Definition weighted_sum (l : list (Q * Z)) : Q :=
  fold_right (fun vn acc => (fst vn * inject_Z (snd vn) + acc)%Q) 0%Q l.

Definition total_weight (l : list (Q * Z)) : Z :=
  fold_right (fun vn acc => snd vn + acc) 0 l.

(** *** The state of a run *)

Section Driver.

Context {F : Framework} {MeterT : Type} {meterT : Meter MeterT}.

(** [(input, target)] *)
Definition Batch : Type := Input * list Z.

(** A [DataLoader]: the batches of each pass over it (a loader that
    shuffles yields other batches on every pass). *)
Definition Loader : Type := nat -> list Batch.

(** The dictionary handed to [save_checkpoint]. *)
Record Checkpoint : Type := mkCheckpoint {
  ck_epoch : Z;
  ck_arch : string;
  ck_state_dict : ModelDict;
  ck_best_acc1 : Q;
  ck_optimizer : OptimizerDict;
}.

(** What the modelled code reads from and writes to files. *)
Inductive File : Type :=
| CheckpointFile (c : Checkpoint)
| LogFile (entries : list EpochLog)
| CorrectFile (correct : list Z)
| OtherFile.

(** The calls that leave [main_worker], in the order they are made. *)
Inductive Event : Type :=
| EvOptimizer (kind : OptKind) (params : Params) (rate : Q)
| EvScheduler (base_lr max_lr : Q)
| EvLoadCheckpoint (path : string)
| EvSaveConfig
| EvAdjustLearningRate (epoch : Z)
| EvTrain (epoch : Z)
| EvSchedulerStep
| EvValidate (loader : LoaderName)
| EvDumpLog (entries : nat)
| EvSaveCheckpoint (epoch : Z).

(** The local variables of [main_worker] (a variable not yet assigned is
    [None]), the two attributes of [args] it assigns, the global
    [best_acc1], the files, the number of loader passes made so far and the
    calls made so far. *)
Record St : Type := mkSt {
  model : Model;
  criterion : option Criterion;
  optimizer : option Optimizer;
  scheduler : option Scheduler;
  val_loader2 : option Loader;
  train_log : list EpochLog;
  args_loss_func : string;
  args_start_epoch : Z;
  best_acc1 : Q;
  fs : gmap string File;
  passes : nat;
  trace : list Event;
}.

Definition set_model (x : Model) (st : St) : St :=
  mkSt x (criterion st) (optimizer st) (scheduler st) (val_loader2 st)
       (train_log st) (args_loss_func st) (args_start_epoch st) (best_acc1 st)
       (fs st) (passes st) (trace st).
Definition set_criterion (x : option Criterion) (st : St) : St :=
  mkSt (model st) x (optimizer st) (scheduler st) (val_loader2 st)
       (train_log st) (args_loss_func st) (args_start_epoch st) (best_acc1 st)
       (fs st) (passes st) (trace st).
Definition set_optimizer (x : option Optimizer) (st : St) : St :=
  mkSt (model st) (criterion st) x (scheduler st) (val_loader2 st)
       (train_log st) (args_loss_func st) (args_start_epoch st) (best_acc1 st)
       (fs st) (passes st) (trace st).
Definition set_scheduler (x : option Scheduler) (st : St) : St :=
  mkSt (model st) (criterion st) (optimizer st) x (val_loader2 st)
       (train_log st) (args_loss_func st) (args_start_epoch st) (best_acc1 st)
       (fs st) (passes st) (trace st).
Definition set_val_loader2 (x : option Loader) (st : St) : St :=
  mkSt (model st) (criterion st) (optimizer st) (scheduler st) x
       (train_log st) (args_loss_func st) (args_start_epoch st) (best_acc1 st)
       (fs st) (passes st) (trace st).
Definition set_train_log (x : list EpochLog) (st : St) : St :=
  mkSt (model st) (criterion st) (optimizer st) (scheduler st) (val_loader2 st)
       x (args_loss_func st) (args_start_epoch st) (best_acc1 st)
       (fs st) (passes st) (trace st).
Definition set_args_loss_func (x : string) (st : St) : St :=
  mkSt (model st) (criterion st) (optimizer st) (scheduler st) (val_loader2 st)
       (train_log st) x (args_start_epoch st) (best_acc1 st)
       (fs st) (passes st) (trace st).
Definition set_args_start_epoch (x : Z) (st : St) : St :=
  mkSt (model st) (criterion st) (optimizer st) (scheduler st) (val_loader2 st)
       (train_log st) (args_loss_func st) x (best_acc1 st)
       (fs st) (passes st) (trace st).
Definition set_best_acc1 (x : Q) (st : St) : St :=
  mkSt (model st) (criterion st) (optimizer st) (scheduler st) (val_loader2 st)
       (train_log st) (args_loss_func st) (args_start_epoch st) x
       (fs st) (passes st) (trace st).
Definition set_fs (x : gmap string File) (st : St) : St :=
  mkSt (model st) (criterion st) (optimizer st) (scheduler st) (val_loader2 st)
       (train_log st) (args_loss_func st) (args_start_epoch st) (best_acc1 st)
       x (passes st) (trace st).
Definition set_passes (x : nat) (st : St) : St :=
  mkSt (model st) (criterion st) (optimizer st) (scheduler st) (val_loader2 st)
       (train_log st) (args_loss_func st) (args_start_epoch st) (best_acc1 st)
       (fs st) x (trace st).
Definition set_trace (x : list Event) (st : St) : St :=
  mkSt (model st) (criterion st) (optimizer st) (scheduler st) (val_loader2 st)
       (train_log st) (args_loss_func st) (args_start_epoch st) (best_acc1 st)
       (fs st) (passes st) x.

(** A statement of [main_worker]: it changes the state and returns a value
    or raises; the state it leaves is kept in both cases. *)
Definition M (A : Type) : Type := St -> St * result A.

Definition mreturn {A} (a : A) : M A := fun st => (st, inr a).
Definition mthrow {A} (e : exn) : M A := fun st => (st, inl e).
Definition mthen {A B} (m : M A) (k : A -> M B) : M B :=
  fun st =>
    match m st with
    | (st', inr a) => k a st'
    | (st', inl e) => (st', inl e)
    end.
Definition get {A} (f : St -> A) : M A := fun st => (st, inr (f st)).
Definition modify (f : St -> St) : M unit := fun st => (f st, inr tt).
Definition lift {A} (r : result A) : M A := fun st => (st, r).

(** Record a call. *)
Definition emit (e : Event) : M unit :=
  modify (fun st => set_trace (trace st ++ [e]) st).

(** Read a local variable: [UnboundLocalError] when it is not assigned. *)
Definition local {A} (f : St -> option A) (name : string) : M A :=
  fun st => (st, or_raise (f st) (UnboundLocalError name)).

(** [assert cond, msg] *)
Definition assert (cond : bool) (msg : string) : M unit :=
  if cond then mreturn tt else mthrow (AssertionError msg).

(** One pass over a loader: [for i, (input, target) in enumerate(loader)]
    draws the batches of the next pass. *)
Definition iterate (loader : Loader) : M (list Batch) :=
  fun st => (set_passes (S (passes st)) st, inr (loader (passes st))).

Notation "'let!' x := m 'in' k" := (mthen m (fun x => k))
  (at level 10, x name, m at level 100, k at level 200).

(** *** [accuracy] *)

(** [max(topk)] *)
Definition py_max (l : list Z) : result Z :=
  match l with
  | [] => raise (ValueError "max() arg is an empty sequence")
  | x :: rest => ret (fold_left (fun m y => if m <? y then y else m) rest x)
  end.

(** [pred.eq(target.view(1, -1).expand_as(pred))]: every row of [pred]
    compared with [target], column by column. *)
Definition eq_target (pred : list (list Z)) (target : list Z) : list (list bool) :=
  map (fun row => zip_with Z.eqb row target) pred.

(** [rows.view(-1).float().sum(0, keepdim=True)]: the number of [True]s. *)
Definition count_true (rows : list (list bool)) : Z :=
  Z.of_nat (length (filter (fun b => b = true) (concat rows))).

(** What [accuracy] returns: the percentages, or with [track=True] the
    first row of [correct]. *)
Inductive AccuracyResult : Type :=
| Percentages (res : list Q)
| Correct (first_row : list bool).

(** The loop [for k in topk] of [accuracy].  The floats of the tensors are
    exact rationals here: what the code rounds is not modelled. *)
Fixpoint accuracy_res (correct : list (list bool)) (batch_size : Z) (topk : list Z)
  : result (list Q) :=
  match topk with
  | [] => ret []
  | k :: rest =>
      let correct_k := count_true (py_slice_to correct k) in
      if batch_size =? 0 then raise ZeroDivisionError
      else
        let r := (inject_Z correct_k * (100 / inject_Z batch_size))%Q in
        let* rs := accuracy_res correct batch_size rest in
        ret (r :: rs)
  end.

Definition accuracy (output : Output) (target : list Z) (topk : list Z)
    (track : bool) : result AccuracyResult :=
  let* maxk := py_max topk in
  let batch_size := Z.of_nat (length target) in
  let pred := topk_t output maxk in
  let correct := eq_target pred target in
  if track then ret (Correct (concat (py_slice_to correct 1)))
  else
    let* res := accuracy_res correct batch_size topk in
    ret (Percentages res).

(** [acc1, acc5 = accuracy(...)] followed by [acc1[0]], [acc5[0]]. *)
Definition unpack2 (r : AccuracyResult) : result (Q * Q) :=
  match r with
  | Percentages [a1; a5] => ret (a1, a5)
  | Percentages _ => raise (ValueError "unpack")
  | Correct _ => raise (ValueError "unpack")
  end.

(** *** [validate] *)

(** [criterion(output, target)] or [criterion(output, targetl2)], by
    [args.loss_func == 'l2']. *)
Definition loss_target (args : Args) (loss_func : string) (target : list Z)
  : LossTarget :=
  if String.eqb loss_func "l2" then OneHotTarget target (num_classes args)
  else ClassTarget target.

(** [[(i*args.batch_size) + idx for idx, is_corr in enumerate(correct) if is_corr]] *)
Definition correct_indices (args : Args) (i : Z) (correct : list bool) : list Z :=
  map (fun p => i * batch_size args + Z.of_nat (fst p))
      (filter (fun p => snd p = true) (imap (fun idx is_corr => (idx, is_corr)) correct)).

(** The meters [losses], [top1], [top5] of a pass, and [corr_dict['correct']]. *)
Record Pass : Type := mkPass {
  losses : MeterT;
  top1 : MeterT;
  top5 : MeterT;
  corr : list Z;
}.

Definition new_pass : Pass :=
  {| losses := meter_new; top1 := meter_new; top5 := meter_new; corr := [] |}.

(** Lines 407-409 and 478-480: the one-hot matrix [zero_mat], built when
    [args.loss_func] is ['l2'].  [np.zeros] refuses a negative number of
    columns, and the assignment a target that indexes no column (a
    negative target counts from the last column). *)
Definition one_hot (args : Args) (loss_func : string) (target : list Z)
  : result unit :=
  if String.eqb loss_func "l2" then
    if num_classes args <? 0 then
      raise (ValueError "negative dimensions are not allowed")
    else if forallb (fun t => (- num_classes args <=? t) && (t <? num_classes args))
                    target
    then ret tt
    else raise IndexError
  else ret tt.

(** The body of the loop of [validate] for batch number [i]; the last
    statement is the test [i % args.print_freq == 0] of line 508. *)
Definition validate_batch (args : Args) (loss_func : string) (m : Model)
    (c : Criterion) (p : Pass) (i : Z) (b : Batch) : result Pass :=
  let '(input, target) := b in
  let* _ := one_hot args loss_func target in
  let output := forward m input in
  let loss := loss_item c output (loss_target args loss_func target) in
  let* corr' :=
    (if track_correct args then
       let* r := accuracy output target [1; 1] true in
       match r with
       | Correct correct => ret (corr p ++ correct_indices args i correct)%list
       | Percentages _ => raise (TypeError "enumerate")
       end
     else ret (corr p)) in
  let* r := accuracy output target [1; 1] false in
  let* accs := unpack2 r in
  let p' := {| losses := meter_update (losses p) loss (input_size input);
               top1 := meter_update (top1 p) (fst accs) (input_size input);
               top5 := meter_update (top5 p) (snd accs) (input_size input);
               corr := corr' |} in
  if print_freq args =? 0 then raise ZeroDivisionError else ret p'.

(** [for i, (input, target) in enumerate(val_loader)], from batch number [i]. *)
Fixpoint validate_batches (args : Args) (loss_func : string) (m : Model)
    (c : Criterion) (p : Pass) (i : Z) (batches : list Batch) : result Pass :=
  match batches with
  | [] => ret p
  | b :: rest =>
      let* p' := validate_batch args loss_func m c p i b in
      validate_batches args loss_func m c p' (i + 1) rest
  end.

(** [fname, ext = str(args.outpath).split('.')] *)
Definition split_outpath (args : Args) : result (string * string) :=
  match py_split "." (outpath args) with
  | [fname; ext] => ret (fname, ext)
  | _ => raise (ValueError "unpack")
  end.

(** [validate(val_loader, model, criterion, args)], [model] being the
    object [main_worker] holds: the pair [(top1.avg, top5.avg)], or [None]
    after the file of correctly classified indices is written when
    [args.track_correct] is set. *)
Definition validate (args : Args) (val_loader : Loader) (c : Criterion)
  : M (option (Q * Q)) :=
  let! _ := modify (fun st => set_model (set_mode EvalMode (model st)) st) in
  let! m := get model in
  let! batches := iterate val_loader in
  let! loss_func := get args_loss_func in
  let! p := lift (validate_batches args loss_func m c new_pass 0 batches) in
  if track_correct args then
    let! fe := lift (split_outpath args) in
    let corrfile := (fst fe ++ "_corr.json")%string in
    let! _ := modify (fun st => set_fs (<[corrfile := CorrectFile (corr p)]> (fs st)) st) in
    mreturn None
  else mreturn (Some (meter_avg (top1 p), meter_avg (top5 p))).

(** *** [train] *)

(** The model, the optimizer and the meters while [train] runs. *)
Record Training : Type := mkTraining {
  tr_model : Model;
  tr_optimizer : Optimizer;
  tr_pass : Pass;
}.

(** Lines 395-401 for the parameter group [cur_p] at the step
    [k = epoch*len(train_loader) + i]: the rate the group is given.  The
    lists are indexed by the number of the group and the dictionaries by
    ['decay'] and ['lr']; the division by [d_rate] is the one of line
    401. *)
Definition group_lr (args : Args) (k : Z) (cur_p : nat) : result Q :=
  let* d_rate :=
    (if truthy (initial_lr_decay args) then
       let* group := or_raise (initial_lr_decay args !! cur_p) IndexError in
       or_raise (group !! "decay") (KeyError "decay")
     else ret 512%Q) in
  let* base_lr :=
    (if truthy (initial_lr args) then
       let* group := or_raise (initial_lr args !! cur_p) IndexError in
       or_raise (group !! "lr") (KeyError "lr")
     else ret (lr args)) in
  if Qeq_bool d_rate 0 then raise ZeroDivisionError
  else ret (inverse_sqrt base_lr k d_rate).

(** The loop of lines 394-402 over the parameter groups [groups]: the
    groups before one that raises keep their new rate. *)
Fixpoint set_group_lrs (args : Args) (k : Z) (o : Optimizer) (groups : list nat)
  : Optimizer * option exn :=
  match groups with
  | [] => (o, None)
  | cur_p :: rest =>
      match group_lr args k cur_p with
      | inl e => (o, Some e)
      | inr rate => set_group_lrs args k (set_group_lr o cur_p rate) rest
      end
  end.

(** Lines 415-442 for one batch: the closure step, or the plain step with
    its accuracies and meters. *)
Definition train_step (args : Args) (loss_func : string) (c : Criterion)
    (t : Training) (b : Batch) : Training * option exn :=
  let '(input, target) := b in
  if use_LBFGS args then
    let mo := closure_step c (ClassTarget target) input (tr_model t) (tr_optimizer t) in
    (mkTraining (fst mo) (snd mo) (tr_pass t), None)
  else
    let output := forward (tr_model t) input in
    let loss := loss_item c output (loss_target args loss_func target) in
    match (let* r := accuracy output target [1; 5] false in unpack2 r) with
    | inl e => (t, Some e)
    | inr accs =>
        let p := tr_pass t in
        let p' := {| losses := meter_update (losses p) loss (input_size input);
                     top1 := meter_update (top1 p) (fst accs) (input_size input);
                     top5 := meter_update (top5 p) (snd accs) (input_size input);
                     corr := corr p |} in
        let mo := optimizer_step c (loss_target args loss_func target) input
                                 (tr_model t) (tr_optimizer t) in
        (mkTraining (fst mo) (snd mo) p', None)
    end.

(** The body of the loop of [train] for batch number [i] of [n]: the
    assertion of line 392 and the rates of lines 394-402, the one-hot
    matrix, the step, and the test [i % args.print_freq == 0] of line
    449. *)
Definition train_batch (args : Args) (loss_func : string) (c : Criterion)
    (epoch n : Z) (t : Training) (i : Z) (b : Batch) : Training * option exn :=
  if use_inverse_sqrt_lr args && (0 <? max_lr_adjusting_epoch args) then
    (t, Some (AssertionError
      "lr scheduler crash, step and inverse sqrt lr can't be mutually set"))
  else
    let oe := if use_inverse_sqrt_lr args
              then set_group_lrs args (epoch * n + i) (tr_optimizer t)
                                 (seq 0 (param_groups (tr_optimizer t)))
              else (tr_optimizer t, None) in
    let t1 := mkTraining (tr_model t) (fst oe) (tr_pass t) in
    match snd oe with
    | Some e => (t1, Some e)
    | None =>
        match one_hot args loss_func (snd b) with
        | inl e => (t1, Some e)
        | inr _ =>
            match train_step args loss_func c t1 b with
            | (t2, Some e) => (t2, Some e)
            | (t2, None) =>
                if print_freq args =? 0 then (t2, Some ZeroDivisionError)
                else (t2, None)
            end
        end
    end.

(** [for i, (input, target) in enumerate(train_loader)], from batch [i]. *)
Fixpoint train_batches (args : Args) (loss_func : string) (c : Criterion)
    (epoch n : Z) (t : Training) (i : Z) (batches : list Batch)
  : Training * option exn :=
  match batches with
  | [] => (t, None)
  | b :: rest =>
      match train_batch args loss_func c epoch n t i b with
      | (t', None) => train_batches args loss_func c epoch n t' (i + 1) rest
      | (t', Some e) => (t', Some e)
      end
  end.

(** [train(train_loader, model, criterion, optimizer, epoch, args)]: [model]
    is the object [main_worker] holds, and [o] the optimizer the caller
    read from its variable [optimizer]; the steps change that object, so
    that the variable holds the optimizer [train] leaves. *)
Definition train (args : Args) (train_loader : Loader) (c : Criterion)
    (o : Optimizer) (epoch : Z) : M unit :=
  let! _ := modify (fun st => set_model (set_mode TrainMode (model st)) st) in
  let! m := get model in
  let! batches := iterate train_loader in
  let! loss_func := get args_loss_func in
  let r := train_batches args loss_func c epoch (Z.of_nat (length batches))
                         (mkTraining m o new_pass) 0 batches in
  let! _ := modify (fun st => set_optimizer (Some (tr_optimizer (fst r)))
                                (set_model (tr_model (fst r)) st)) in
  match snd r with
  | Some e => mthrow e
  | None => mreturn tt
  end.

(** *** [main_worker] *)

(** [c.lower()] for one character of the ASCII range. *)
Definition lower_ascii (c : ascii) : ascii :=
  let n := nat_of_ascii c in
  if (65 <=? n)%nat && (n <=? 90)%nat then ascii_of_nat (n + 32) else c.

(** [s.lower()].  A string is its UTF-8 bytes; bytes outside the ASCII
    range are left as they are (no character outside ASCII lowers to one of
    the letters of ['sgd'], ['adam'] or ['lbfgs']). *)
Fixpoint lower (s : string) : string :=
  match s with
  | EmptyString => EmptyString
  | String c s' => String (lower_ascii c) (lower s')
  end.

(** [x in [a, b, ...]] for strings *)
Definition in_list (x : string) (l : list string) : bool :=
  existsb (String.eqb x) l.

(** [a > b] on floats *)
Definition Qgtb (a b : Q) : bool := negb (Qle_bool a b).

(** [max(a, b)]: [b] when it is greater, else [a]. *)
Definition py_max2 (a b : Q) : Q := if Qgtb b a then b else a.

(** Modelled from the spec: [save_checkpoint] of [train_utils], which is not
    under [src/].  "Checkpoint: a serialized snapshot of model and optimizer
    state plus epoch metadata, used for resuming training": the dictionary
    is written to the checkpoint file, the one [--resume] names by default. *)
Definition checkpoint_file : string := "checkpoint.pth.tar".

Definition save_checkpoint (state : Checkpoint) (is_best : bool) : M unit :=
  let! _ := emit (EvSaveCheckpoint (ck_epoch state)) in
  modify (fun st => set_fs (<[checkpoint_file := CheckpointFile state]> (fs st)) st).

(** What the framework has built when the modelled statements run: the
    model of lines 56-73 and the three [DataLoader]s of lines 133-259. *)
Variable built_model : Model.
Variable train_loader : Loader.
Variable val_loader : Loader.
Variable sub_loader : Loader.

(** Lines 76-82: the loss function. *)
Definition define_criterion : M unit :=
  let! loss_func := get args_loss_func in
  if in_list loss_func ["cross"; "cross_entropy"; "entropy"] then
    modify (set_criterion (Some CrossEntropyLoss))
  else if in_list loss_func ["l2"; "l2_squared"; "squared"; "MSE"] then
    let! _ := modify (set_args_loss_func "l2") in
    modify (set_criterion (Some MSELoss))
  else mreturn tt.

(** [optimizer = torch.optim.X(params, args.lr, ...)] *)
Definition make_optimizer (args : Args) (kind : OptKind) (params : Params)
    (kwargs : list (string * Q)) : M unit :=
  let! m := get model in
  let! _ := emit (EvOptimizer kind params (lr args)) in
  modify (set_optimizer (Some (new_optimizer kind params m (lr args) kwargs))).

(** Lines 84-98: the optimizer. *)
Definition define_optimizer (args : Args) : M unit :=
  if String.eqb (lower (opt args)) "sgd" then
    make_optimizer args SGD ModelParameters
      [("momentum", momentum args); ("weight_decay", weight_decay args)]
  else if String.eqb (lower (opt args)) "adam" then
    make_optimizer args Adam ModelParameters [("weight_decay", weight_decay args)]
  else if String.eqb (lower (opt args)) "lbfgs" then
    make_optimizer args LBFGS ModelParameters [("history_size", 20%Q)]
  else
    mthrow (ValueError ("Incorrect optimizer selection " ++ opt args)%string).

(** Lines 101-107: per-layer parameter groups. *)
Definition define_initial_lr (args : Args) : M unit :=
  if truthy (initial_lr args) then
    make_optimizer args SGD ParamSetup
      [("momentum", momentum args); ("weight_decay", weight_decay args)]
  else mreturn tt.

(** Lines 110-112: the scheduler. *)
Definition define_scheduler (args : Args) : M unit :=
  if schedule_lr args then
    let! o := local optimizer "optimizer" in
    let! _ := emit (EvScheduler (lr args / 100)%Q (lr args)) in
    let so := new_scheduler o (lr args / 100)%Q (lr args) in
    modify (fun st => set_optimizer (Some (snd so)) (set_scheduler (Some (fst so)) st))
  else mreturn tt.

(** Lines 115-129: resuming from a checkpoint. *)
Definition resume_checkpoint (args : Args) : M unit :=
  if String.eqb (resume args) "" then mreturn tt
  else
    let! files := get fs in
    match files !! resume args with
    | None => mreturn tt
    | Some (CheckpointFile checkpoint) =>
        let! _ := emit (EvLoadCheckpoint (resume args)) in
        let! _ := modify (set_args_start_epoch (ck_epoch checkpoint)) in
        let! _ := modify (set_best_acc1 (ck_best_acc1 checkpoint)) in
        let! _ := modify (fun st =>
                    set_model (load_state_dict (model st) (ck_state_dict checkpoint)) st) in
        let! o := local optimizer "optimizer" in
        modify (set_optimizer
                  (Some (optimizer_load_state_dict o (ck_optimizer checkpoint))))
    | Some _ =>
        let! _ := emit (EvLoadCheckpoint (resume args)) in
        mthrow UnpicklingError
    end.

(** Lines 133-259, for what they do besides building the datasets and the
    loaders: the assertions of the [args.mix_cifar] block, which then reads
    [train_sampler] before line 244 assigns it, and the binding of
    [val_loader2]. *)
Definition load_data (args : Args) : M unit :=
  let! _ :=
    (if mix_cifar args then
       let! _ := assert (mix_rate args) "mix_rate should be given when mix_cifar is set" in
       let! _ := assert (traindir2 args) "traindir2 must be given when mix_cifar is set" in
       let! _ := assert (negb (inject_noise args))
                   "inject_noise should not be given when mix_cifar is set" in
       let! _ := assert (negb (testdir2 args))
                   "only one testdir can be set when mix_cifar is set" in
       mthrow (UnboundLocalError "train_sampler")
     else mreturn tt) in
  if String.eqb (sub_file args) "" then mreturn tt
  else modify (set_val_loader2 (Some sub_loader)).

(** Lines 265-287: [get_weights] and [rescale_weights] are bound nowhere in
    the file, and [cur_weights] is assigned only after [get_weights]. *)
Definition prepare_tracking (args : Args) : M unit :=
  let! _ :=
    (if track_weights args then mthrow (NameError "get_weights") else mreturn tt) in
  if scale_weights args then mthrow (UnboundLocalError "cur_weights")
  else mreturn tt.

(** [{'acc1': a.cpu().numpy().item(), 'acc5': b.cpu().numpy().item()}] from
    what [validate] returned: [None] cannot be unpacked. *)
Definition unpack_validate (r : option (Q * Q)) : M Acc :=
  match r with
  | Some (a, b) => mreturn (mkAcc a b)
  | None => mthrow (TypeError "cannot unpack non-iterable NoneType object")
  end.

(** [log_file = args.outpath / 'log.json'] *)
Definition log_file (args : Args) : string := (outpath args ++ "/log.json")%string.

(** The body of [for epoch in range(args.start_epoch, args.epochs)]. *)
Definition epoch_body (args : Args) (epoch : Z) : M unit :=
  let! _ :=
    (if (epoch <? max_lr_adjusting_epoch args) && negb (schedule_lr args) then
       let! o := local optimizer "optimizer" in
       let! _ := emit (EvAdjustLearningRate epoch) in
       modify (set_optimizer (Some (adjust_learning_rate o epoch args)))
     else mreturn tt) in
  let! c := local criterion "criterion" in
  let! o := local optimizer "optimizer" in
  let! _ := emit (EvTrain epoch) in
  let! _ := train args train_loader c o epoch in
  let! _ :=
    (if schedule_lr args then
       let! s := local scheduler "scheduler" in
       let! o := local optimizer "optimizer" in
       let! _ := emit EvSchedulerStep in
       let so := scheduler_step s o in
       modify (fun st => set_optimizer (Some (snd so)) (set_scheduler (Some (fst so)) st))
     else mreturn tt) in
  let! _ := emit (EvValidate TrainLoader) in
  let! r := validate args train_loader c in
  let! train_acc := unpack_validate r in
  let! _ := emit (EvValidate ValLoader) in
  let! r := validate args val_loader c in
  let! test_acc := unpack_validate r in
  let! subset_acc :=
    (if negb (String.eqb (sub_file args) "") || mix_cifar args then
       let! l := local val_loader2 "val_loader2" in
       let! _ := emit (EvValidate ValLoader2) in
       let! r := validate args l c in
       let! a := unpack_validate r in
       mreturn (Some a)
     else mreturn None) in
  let! _ :=
    (if compute_jacobian args then mthrow (NameError "get_jacobian_prod")
     else mreturn tt) in
  let! _ :=
    (if track_weights args then mthrow (NameError "get_weights") else mreturn tt) in
  let epoch_log := mkEpochLog epoch (Some train_acc) (Some test_acc) subset_acc in
  let! _ := modify (fun st => set_train_log (train_log st ++ [epoch_log]) st) in
  let! log := get train_log in
  let! _ := emit (EvDumpLog (length log)) in
  let! _ := modify (fun st =>
              set_fs (<[log_file args := LogFile log]> (fs st)) st) in
  let! best := get best_acc1 in
  let is_best := Qgtb (acc1 test_acc) best in
  let! _ := modify (set_best_acc1 (py_max2 (acc1 test_acc) best)) in
  let! m := get model in
  let! o := local optimizer "optimizer" in
  let! best' := get best_acc1 in
  save_checkpoint
    {| ck_epoch := epoch + 1;
       ck_arch := arch args;
       ck_state_dict := state_dict m;
       ck_best_acc1 := best';
       ck_optimizer := optimizer_state_dict o |}
    is_best.

(** The [for] loop, over the epochs still to run. *)
Fixpoint epoch_loop (args : Args) (todo : list Z) : M unit :=
  match todo with
  | [] => mreturn tt
  | epoch :: rest =>
      let! _ := epoch_body args epoch in
      epoch_loop args rest
  end.

(** [main_worker(gpu, ngpus_per_node, args)] from line 76 on. *)
Definition main_worker (args : Args) : M unit :=
  let! _ := define_criterion in
  let! _ := define_optimizer args in
  let! _ := define_initial_lr args in
  let! _ := define_scheduler args in
  let! _ := resume_checkpoint args in
  let! _ := load_data args in
  if evaluate args then
    let! c := local criterion "criterion" in
    let! _ := emit (EvValidate ValLoader) in
    let! _ := validate args val_loader c in
    mreturn tt
  else
    let! _ := prepare_tracking args in
    let! _ := emit EvSaveConfig in
    let! _ := modify (set_train_log []) in
    let! start := get args_start_epoch in
    epoch_loop args (py_range start (epochs args)).

(** The state [main_worker] starts in: [best_acc1 = 0], no local assigned
    besides [model], nothing called. *)
Definition initial (args : Args) (files : gmap string File) : St :=
  {| model := built_model;
     criterion := None;
     optimizer := None;
     scheduler := None;
     val_loader2 := None;
     train_log := [];
     args_loss_func := loss_func args;
     args_start_epoch := start_epoch args;
     best_acc1 := 0;
     fs := files;
     passes := O;
     trace := [] |}.

(** *** Quantities the statements below are about *)

(** The percentage of samples of a batch whose first prediction is the
    target: top-1 accuracy. *)
Definition top1_percent (output : Output) (target : list Z) : Q :=
  (inject_Z (count_true (py_slice_to (eq_target (topk_t output 1) target) 1))
   * (100 / inject_Z (Z.of_nat (length target))))%Q.

(** An accuracy meter after the batches of an evaluation pass: every batch
    updates it with its top-1 accuracy, weighted by its size. *)
Definition accuracy_meter (m : Model) (batches : list Batch) (meter : MeterT)
  : MeterT :=
  fold_left (fun mt (b : Batch) =>
               meter_update mt (top1_percent (forward m (fst b)) (snd b))
                            (input_size (fst b)))
            batches meter.

(** The updates an evaluation pass makes to each of its accuracy meters:
    the top-1 accuracy of every batch, weighted by the size of the batch. *)
Definition pass_updates (m : Model) (batches : list Batch) : list (Q * Z) :=
  map (fun b : Batch => (top1_percent (forward m (fst b)) (snd b), input_size (fst b)))
      batches.

(** The state of a run after the first statement of [validate]. *)
Definition eval_model (st : St) : Model := set_mode EvalMode (model st).

(** What an evaluation pass over [batches] measures with the model [m]: the
    average of a meter of top-1 accuracies, under both keys. *)
Definition measured (m : Model) (batches : list Batch) : Acc :=
  let a := meter_avg (accuracy_meter m batches meter_new) in
  mkAcc a a.

(** The state in which [train] starts its loop. *)
Definition train_start (st : St) (o : Optimizer) : Training :=
  mkTraining (set_mode TrainMode (model st)) o new_pass.

(** The model, the optimizer and the meters [train] leaves when it is
    called in [st] with the optimizer [o]. *)
Definition trained (args : Args) (l : Loader) (c : Criterion) (o : Optimizer)
    (epoch : Z) (st : St) : Training :=
  fst (train_batches args (args_loss_func st) c epoch
         (Z.of_nat (length (l (passes st)))) (train_start st o) 0 (l (passes st))).

(** The one-hot matrices of lines 408-409 and 479-480 can be built: they
    are built when [args.loss_func] is ['l2'], with one row for every
    sample and [args.num_classes] columns, and a target indexes a column. *)
Definition one_hot_buildable (args : Args) (loss_func : string)
    (batches : list Batch) : Prop :=
  loss_func = "l2" ->
  0 <= num_classes args /\
  Forall (fun b : Batch =>
            Forall (fun t => - num_classes args <= t < num_classes args) (snd b))
         batches.


(** [wp m Q E st]: run from [st], the statement [m] either returns a value
    and a state that satisfy [Q] or raises an exception that, with the
    state it leaves, satisfies [E]. *)
Definition wp {A} (m : M A) (Q : A -> St -> Prop) (E : exn -> St -> Prop)
    (st : St) : Prop :=
  match m st with
  | (st', inr a) => Q a st'
  | (st', inl e) => E e st'
  end.

(** The locals a pass over a loader leaves alone, the global [best_acc1],
    the attributes of [args] and the calls made. *)
Record same_locals (st st' : St) : Prop := mk_same_locals {
  same_criterion : criterion st' = criterion st;
  same_scheduler : scheduler st' = scheduler st;
  same_val_loader2 : val_loader2 st' = val_loader2 st;
  same_train_log : train_log st' = train_log st;
  same_loss_func : args_loss_func st' = args_loss_func st;
  same_start_epoch : args_start_epoch st' = args_start_epoch st;
  same_best_acc1 : best_acc1 st' = best_acc1 st;
  same_trace : trace st' = trace st;
}.

(** The optimizer an accepted name selects. *)
Definition optimizer_named (name : string) : option OptKind :=
  if String.eqb name "sgd" then Some SGD
  else if String.eqb name "adam" then Some Adam
  else if String.eqb name "lbfgs" then Some LBFGS
  else None.

(** The exception of line 98. *)
Definition selection_error (args : Args) : exn :=
  ValueError ("Incorrect optimizer selection " ++ opt args)%string.

(** What the configuration allows a call to be: the rate of an optimizer
    is [args.lr] and its kind is the one named; the scheduler and its steps
    need [args.schedule_lr]; [adjust_learning_rate] needs it unset and an
    epoch below [args.max_lr_adjusting_epoch]. *)
Definition event_ok (args : Args) (ev : Event) : Prop :=
  match ev with
  | EvOptimizer kind params rate =>
      rate = lr args /\
      match params with
      | ModelParameters => optimizer_named (lower (opt args)) = Some kind
      | ParamSetup => truthy (initial_lr args) = true /\ kind = SGD
      end
  | EvScheduler base_lr max_lr =>
      schedule_lr args = true /\ base_lr = (lr args / 100)%Q /\ max_lr = lr args
  | EvSchedulerStep => schedule_lr args = true
  | EvAdjustLearningRate epoch =>
      schedule_lr args = false /\ epoch < max_lr_adjusting_epoch args
  | _ => True
  end.

(** Under every key of a log entry the two metrics are the same number,
    the top-1 accuracy an evaluation pass measured. *)
Definition acc_ok (a : option Acc) : Prop :=
  match a with
  | Some x => acc5 x = acc1 x /\ exists m batches, x = measured m batches
  | None => True
  end.

Definition entry_ok (entry : EpochLog) : Prop :=
  acc_ok (log_train entry) /\ acc_ok (log_test entry) /\ acc_ok (log_subset entry).

(** What holds of a run at every point after the calls [t0]: the calls made
    since are allowed by the configuration, and the log entries are well
    formed. *)
Definition invariant (args : Args) (t0 : list Event) (st : St) : Prop :=
  (exists evs, trace st = t0 ++ evs /\ Forall (event_ok args) evs) /\
  Forall entry_ok (train_log st).

(** A statement that keeps the invariant, returns values in [R] and does
    not raise the exception of line 98. *)
Definition keeps (args : Args) (t0 : list Event) {A} (m : M A) (R : A -> Prop)
  : Prop :=
  forall st, invariant args t0 st ->
    wp m (fun a st' => invariant args t0 st' /\ R a)
         (fun e st' => invariant args t0 st' /\ e <> selection_error args) st.

(** [adjust_learning_rate] is called in this epoch. *)
Definition adjusts (args : Args) (epoch : Z) : bool :=
  (epoch <? max_lr_adjusting_epoch args) && negb (schedule_lr args).

(** The third evaluation, on [val_loader2], is made. *)
Definition uses_subset (args : Args) : bool :=
  negb (String.eqb (sub_file args) "") || mix_cifar args.

(** The calls of one iteration of the epoch loop that runs to its end, the
    log holding [logged] entries when it is written. *)
Definition epoch_calls (args : Args) (epoch : Z) (logged : nat) : list Event :=
  (if adjusts args epoch then [EvAdjustLearningRate epoch] else []) ++
  [EvTrain epoch] ++
  (if schedule_lr args then [EvSchedulerStep] else []) ++
  [EvValidate TrainLoader; EvValidate ValLoader] ++
  (if uses_subset args then [EvValidate ValLoader2] else []) ++
  [EvDumpLog logged; EvSaveCheckpoint (epoch + 1)].

(** The calls of the loop over the epochs [todo], [logged] entries being in
    the log when it starts. *)
Fixpoint loop_calls (args : Args) (todo : list Z) (logged : nat) : list Event :=
  match todo with
  | [] => []
  | epoch :: rest =>
      epoch_calls args epoch (S logged) ++ loop_calls args rest (S logged)
  end.

(** Every batch of every pass over the loader has at least one sample. *)
Definition nonempty_batches (l : Loader) : Prop :=
  forall n, Forall (fun b : Batch => snd b <> []) (l n).

(** The rates of lines 394-402 can be set, whatever the optimizer:
    lines 395-401 raise for none of its parameter groups. *)
Definition groups_ok (args : Args) : Prop :=
  use_inverse_sqrt_lr args = true ->
  forall (o : Optimizer) (k : Z) (cur_p : nat),
    (cur_p < param_groups o)%nat -> exists rate, group_lr args k cur_p = inr rate.

(** A configuration and loaders with which an iteration of the epoch loop
    raises nothing: [validate] returns its pair, the assertion of [train]
    holds and lines 395-401 raise for no parameter group,
    [args.print_freq] is not zero, the Jacobian and weight-tracking blocks
    are off, and no batch is empty. *)
Record normal_run (args : Args) : Prop := mk_normal_run {
  normal_track_correct : track_correct args = false;
  normal_compute_jacobian : compute_jacobian args = false;
  normal_track_weights : track_weights args = false;
  normal_assertion :
    use_inverse_sqrt_lr args && (0 <? max_lr_adjusting_epoch args) = false;
  normal_groups : groups_ok args;
  normal_print_freq : print_freq args <> 0;
  normal_train_loader : nonempty_batches train_loader;
  normal_val_loader : nonempty_batches val_loader;
}.

(** The one-hot matrices of every pass over a loader can be built. *)
Definition one_hot_loader (args : Args) (loss_func : string) (l : Loader) : Prop :=
  forall n, one_hot_buildable args loss_func (l n).

(** The locals the epoch loop reads are bound, and with the loss function
    [args.loss_func] has become the one-hot matrices can be built. *)
Record ready (args : Args) (st : St) : Prop := mk_ready {
  ready_criterion : is_Some (criterion st);
  ready_optimizer : is_Some (optimizer st);
  ready_scheduler : schedule_lr args = true -> is_Some (scheduler st);
  ready_one_hot :
    one_hot_loader args (args_loss_func st) train_loader /\
    one_hot_loader args (args_loss_func st) val_loader;
  ready_val_loader2 :
    uses_subset args = true ->
    exists l, val_loader2 st = Some l /\ nonempty_batches l /\
              one_hot_loader args (args_loss_func st) l;
}.

(** The entry one iteration of the epoch loop appends when it is entered
    in [st] with [criterion] and [optimizer] bound to [c] and [o]: the
    epoch, and what the evaluation passes measure, one after the other,
    with the model [train] left. *)
Definition epoch_entry (args : Args) (epoch : Z) (st : St) (c : Criterion)
    (o : Optimizer) : EpochLog :=
  let o1 := if adjusts args epoch then adjust_learning_rate o epoch args else o in
  let m1 := set_mode EvalMode (tr_model (trained args train_loader c o1 epoch st)) in
  let m2 := set_mode EvalMode m1 in
  let m3 := set_mode EvalMode m2 in
  let k := S (passes st) in
  mkEpochLog epoch
    (Some (measured m1 (train_loader k)))
    (Some (measured m2 (val_loader (S k))))
    (if uses_subset args then
       match val_loader2 st with
       | Some l => Some (measured m3 (l (S (S k))))
       | None => None
       end
     else None).


(** What one iteration of the epoch loop that runs to its end has done. *)
Record epoch_done (args : Args) (epoch : Z) (st st' : St) : Prop := mk_epoch_done {
  post_trace :
    trace st' = trace st ++ epoch_calls args epoch (S (length (train_log st)));
  post_log :
    exists entry,
      train_log st' = train_log st ++ [entry] /\
      log_epoch entry = epoch /\
      is_Some (log_train entry) /\
      exists a, log_test entry = Some a /\
                best_acc1 st' = py_max2 (acc1 a) (best_acc1 st);
  post_entry :
    exists c o,
      criterion st = Some c /\ optimizer st = Some o /\
      train_log st' = train_log st ++ [epoch_entry args epoch st c o];
  post_fs :
    exists o',
      optimizer st' = Some o' /\
      fs st' =
        <[checkpoint_file :=
            CheckpointFile
              {| ck_epoch := epoch + 1;
                 ck_arch := arch args;
                 ck_state_dict := state_dict (model st');
                 ck_best_acc1 := best_acc1 st';
                 ck_optimizer := optimizer_state_dict o' |}]>
          (<[log_file args := LogFile (train_log st')]> (fs st));
  post_start_epoch : args_start_epoch st' = args_start_epoch st;
}.

(** [best_acc1] after the test accuracies of the entries are taken into
    the maximum one after the other. *)
Definition running_best (entries : list EpochLog) (best : Q) : Q :=
  fold_left (fun b entry =>
               match log_test entry with
               | Some a => py_max2 (acc1 a) b
               | None => b
               end) entries best.

(** The checkpoint [main_worker] saves at the end of [epoch] in the state
    [st] with the optimizer [o]. *)
Definition checkpoint_of (args : Args) (epoch : Z) (st : St) (o : Optimizer)
  : Checkpoint :=
  {| ck_epoch := epoch + 1;
     ck_arch := arch args;
     ck_state_dict := state_dict (model st);
     ck_best_acc1 := best_acc1 st;
     ck_optimizer := optimizer_state_dict o |}.

(** The iterations of the loop over [todo] from [st] to [st']: each starts
    in the state the one before left, and has done what [epoch_done]
    says. *)
Fixpoint loop_iterations (args : Args) (todo : list Z) (st st' : St) : Prop :=
  match todo with
  | [] => st' = st
  | epoch :: rest =>
      exists st1, epoch_done args epoch st st1 /\ loop_iterations args rest st1 st'
  end.

(** What the epoch loop over [todo] has done when it runs to its end. *)
Record loop_done (args : Args) (todo : list Z) (st st' : St) : Prop := mk_loop_done {
  loop_trace :
    trace st' = trace st ++ loop_calls args todo (length (train_log st));
  loop_log :
    exists entries,
      train_log st' = train_log st ++ entries /\
      map log_epoch entries = todo /\
      Forall (fun entry => is_Some (log_train entry) /\ is_Some (log_test entry))
             entries /\
      best_acc1 st' = running_best entries (best_acc1 st);
  loop_files :
    forall epoch, last todo = Some epoch ->
      fs st' !! log_file args = Some (LogFile (train_log st')) /\
      exists o', optimizer st' = Some o' /\
        fs st' !! checkpoint_file = Some (CheckpointFile (checkpoint_of args epoch st' o'));
  loop_start_epoch : args_start_epoch st' = args_start_epoch st;
  loop_nil : todo = [] -> st' = st;
  loop_each : loop_iterations args todo st st';
}.

(** The checkpoint [main_worker] resumes from, if there is one. *)
Definition resumed (args : Args) (files : gmap string File) : option Checkpoint :=
  if String.eqb (resume args) "" then None
  else match files !! resume args with
       | Some (CheckpointFile checkpoint) => Some checkpoint
       | _ => None
       end.

(** The first epoch of the loop and [best_acc1] when it starts. *)
Definition first_epoch (args : Args) (files : gmap string File) : Z :=
  match resumed args files with
  | Some checkpoint => ck_epoch checkpoint
  | None => start_epoch args
  end.

Definition first_best (args : Args) (files : gmap string File) : Q :=
  match resumed args files with
  | Some checkpoint => ck_best_acc1 checkpoint
  | None => 0
  end.

(** The calls of [main_worker] before the epoch loop. *)
Definition setup_calls (args : Args) (files : gmap string File) (kind : OptKind)
  : list Event :=
  [EvOptimizer kind ModelParameters (lr args)] ++
  (if truthy (initial_lr args) then [EvOptimizer SGD ParamSetup (lr args)] else []) ++
  (if schedule_lr args then [EvScheduler (lr args / 100)%Q (lr args)] else []) ++
  (match resumed args files with
   | Some _ => [EvLoadCheckpoint (resume args)]
   | None => []
   end) ++
  [EvSaveConfig].

(** What a training run of [main_worker] has done when it returns. *)
Record run_done (args : Args) (files : gmap string File) (kind : OptKind)
    (st' : St) : Prop := mk_run_done {
  run_trace :
    trace st' =
      setup_calls args files kind ++
      loop_calls args (py_range (first_epoch args files) (epochs args)) 0;
  run_log :
    map log_epoch (train_log st') = py_range (first_epoch args files) (epochs args) /\
    Forall (fun entry => is_Some (log_train entry) /\ is_Some (log_test entry))
           (train_log st') /\
    best_acc1 st' = running_best (train_log st') (first_best args files);
  run_files :
    forall epoch, last (py_range (first_epoch args files) (epochs args)) = Some epoch ->
      fs st' !! log_file args = Some (LogFile (train_log st')) /\
      exists o', optimizer st' = Some o' /\
        fs st' !! checkpoint_file = Some (CheckpointFile (checkpoint_of args epoch st' o'));
}.

(** The calls that set learning rates, with the training calls between
    which they are made. *)
Definition is_lr_call (ev : Event) : bool :=
  match ev with
  | EvScheduler _ _ | EvSchedulerStep | EvAdjustLearningRate _ | EvTrain _ => true
  | _ => false
  end.

Definition lr_calls (tr : list Event) : list Event := List.filter is_lr_call tr.

(** The learning-rate calls of one epoch: the step decay at its start when
    no scheduler is used and the epoch is below
    [args.max_lr_adjusting_epoch], the training pass, then one step of the
    scheduler when one is used. *)
Definition epoch_lr_calls (args : Args) (epoch : Z) : list Event :=
  (if adjusts args epoch then [EvAdjustLearningRate epoch] else []) ++
  [EvTrain epoch] ++
  (if schedule_lr args then [EvSchedulerStep] else []).

Definition is_train (ev : Event) : bool :=
  match ev with EvTrain _ => true | _ => false end.
Definition is_validate (ev : Event) : bool :=
  match ev with EvValidate _ => true | _ => false end.
Definition is_dump_log (ev : Event) : bool :=
  match ev with EvDumpLog _ => true | _ => false end.
Definition is_save_checkpoint (ev : Event) : bool :=
  match ev with EvSaveCheckpoint _ => true | _ => false end.

(** The evaluations of one epoch. *)
Definition epoch_validations (args : Args) : list Event :=
  [EvValidate TrainLoader; EvValidate ValLoader] ++
  (if uses_subset args then [EvValidate ValLoader2] else []).

(** The indices [validate] records with [args.track_correct]: for batch
    number [i], [i * args.batch_size + idx] for every sample [idx] of the
    batch whose first prediction is its target. *)
Fixpoint correct_of_batches (args : Args) (m : Model) (i : Z) (batches : list Batch)
  : list Z :=
  match batches with
  | [] => []
  | b :: rest =>
      correct_indices args i
        (concat (py_slice_to (eq_target (topk_t (forward m (fst b)) 1) (snd b)) 1))
      ++ correct_of_batches args m (i + 1) rest
  end.

(** The model and the optimizer after the steps [train] takes with
    [args.use_LBFGS]: one [optimizer.step(closure)] for every batch, the
    closure computing the loss on the class indices. *)
Definition closure_steps (c : Criterion) (m : Model) (o : Optimizer)
    (batches : list Batch) : Model * Optimizer :=
  fold_left (fun mo (b : Batch) =>
               closure_step c (ClassTarget (snd b)) (fst b) (fst mo) (snd mo))
            batches (m, o).

(** *** What a run never does *)

(** The calls made so far all satisfy [P], and the locals satisfy [C]. *)
Definition quiet (P : Event -> bool) (C : St -> Prop) (st : St) : Prop :=
  forallb P (trace st) = true /\ C st.

(** A statement that keeps [quiet P C], returns values in [R] and raises
    exceptions in [X] only. *)
Definition holds (P : Event -> bool) (C : St -> Prop) (X : exn -> Prop)
    {A} (m : M A) (R : A -> Prop) : Prop :=
  forall st, quiet P C st ->
    wp m (fun a st' => quiet P C st' /\ R a) (fun e st' => quiet P C st' /\ X e) st.

(** [C] reads only the locals [criterion], [train_log] and [args.loss_func]. *)
Definition reads_locals (C : St -> Prop) : Prop :=
  forall st st' : St,
    criterion st' = criterion st -> train_log st' = train_log st ->
    args_loss_func st' = args_loss_func st -> C st -> C st'.

(** The calls of [main_worker] before [save_config]. *)
Definition is_setup_call (ev : Event) : bool :=
  match ev with
  | EvOptimizer _ _ _ | EvScheduler _ _ | EvLoadCheckpoint _ => true
  | _ => false
  end.

(** The exceptions the statements before the epoch loop raise themselves. *)
Definition setup_error (e : exn) : Prop :=
  match e with
  | ValueError _ | UnboundLocalError _ | UnpicklingError | AssertionError _
  | NameError _ => True
  | _ => False
  end.

(** Neither the log is written nor a checkpoint saved. *)
Definition no_log_call (ev : Event) : bool :=
  negb (is_dump_log ev || is_save_checkpoint ev).

(** Neither training nor evaluation, and nothing written. *)
Definition idle_call (ev : Event) : bool :=
  negb (is_train ev || is_validate ev || is_dump_log ev || is_save_checkpoint ev).

(** Nothing is logged. *)
Definition log_empty (st : St) : Prop := train_log st = [].

(** No loss function is bound, and [args.loss_func] is as given. *)
Definition no_criterion (args : Args) (st : St) : Prop :=
  criterion st = None /\ args_loss_func st = loss_func args /\ train_log st = [].

End Driver.

Notation "'let!' x := m 'in' k" := (mthen m (fun x => k))
  (at level 10, x name, m at level 100, k at level 200).

(** The message of the assertion of line 392. *)
Definition lr_conflict : string :=
  "lr scheduler crash, step and inverse sqrt lr can't be mutually set".

(** What can end a pass over a loader early: a division by zero (by the
    size of an empty batch, by [args.print_freq], by a decay rate), an
    index or a key that is not there, the refusal of [np.zeros], or the
    assertion of [train]. *)
Definition pass_error (e : exn) : Prop :=
  match e with
  | ZeroDivisionError | IndexError | KeyError _ | AssertionError _ => True
  | ValueError msg => msg = "negative dimensions are not allowed"
  | _ => False
  end.

(** *** Label noise (lines 196-208)

    [train_dataset.targets] is the list of the labels of the samples, one
    for every sample, so that [len(train_dataset)] is its length. *)

(** [[idx for idx, label in enumerate(targets) if label == i]], the
    enumeration starting at [k]. *)
Fixpoint positions_from (k : nat) (i : Z) (targets : list Z) : list nat :=
  match targets with
  | [] => []
  | label :: rest =>
      if label =? i then k :: positions_from (S k) i rest
      else positions_from (S k) i rest
  end.

Definition positions_of (i : Z) (targets : list Z) : list nat :=
  positions_from O i targets.

(** The list [noisy_idx] built for class [i] from [shuffled_idx]: for every
    [r] in [range(num_classes)] the label [r] once for every index of a
    slice of [num_shuffle] places, then the label [i] for the indices
    before these slices. *)
Definition noisy_idx {A} (num_classes im_per_class num_shuffle i : Z)
    (shuffled_idx : list A) : list Z :=
  flat_map (fun r =>
              map (fun _ => r)
                  (py_slice shuffled_idx (im_per_class - (r + 1) * num_shuffle)
                                         (im_per_class - r * num_shuffle)))
           (py_range 0 num_classes)
  ++ map (fun _ => i) (py_slice_to shuffled_idx (im_per_class - num_classes * num_shuffle)).

(** [a[idx] = np.array(vals)] for a list [idx] of distinct indices of [a]:
    one value for every index, or a single value that is broadcast to all
    of them; for any other number of values NumPy raises a [ValueError]
    whose message starts with the words kept here. *)
Definition assign_at (a : list Z) (idx : list nat) (vals : list Z) : result (list Z) :=
  if (length vals =? length idx)%nat then
    ret (fold_left (fun acc p => <[fst p := snd p]> acc) (combine idx vals) a)
  else
    match vals with
    | [v] => ret (fold_left (fun acc k => <[k := v]> acc) idx a)
    | _ => raise (ValueError "shape mismatch")
    end.

(** The body of [for i in range(args.num_classes)]; [sample i cur_idx] is
    what [random.sample(cur_idx, len(cur_idx))] draws for class [i]. *)
Definition inject_class (num_classes im_per_class num_shuffle : Z) (targets : list Z)
    (sample : Z -> list nat -> list nat) (noisy_labels : list Z) (i : Z)
  : result (list Z) :=
  let cur_idx := positions_of i targets in
  let shuffled_idx := sample i cur_idx in
  assign_at noisy_labels cur_idx
            (noisy_idx num_classes im_per_class num_shuffle i shuffled_idx).

(** Lines 198 and 200-208: the new [train_dataset.targets], from
    [im_per_class] and [num_shuffle] as lines 197 and 199 computed them. *)
Definition inject_noise_labels (num_classes im_per_class num_shuffle : Z)
    (targets : list Z) (sample : Z -> list nat -> list nat) : result (list Z) :=
  fold_left (fun acc i =>
               let* noisy_labels := acc in
               inject_class num_classes im_per_class num_shuffle targets sample
                            noisy_labels i)
            (py_range 0 num_classes)
            (ret (repeat 0 (length targets))).

(** [random.sample(l, len(l))] gives as many elements as [l] has. *)
Definition full_sample (sample : Z -> list nat -> list nat) : Prop :=
  forall i l, length (sample i l) = length l.

(** The labels line 207 assigns to a class of [im_per_class] samples, in
    the order of the dataset: [num_shuffle] times every label from 0 on,
    then the label of the class. *)
Definition noise_pattern (num_classes im_per_class num_shuffle i : Z) : list Z :=
  flat_map (fun r => repeat r (Z.to_nat num_shuffle)) (py_range 0 num_classes)
  ++ repeat i (Z.to_nat (im_per_class - num_classes * num_shuffle)).

(** *** The command-line entry point

    The calls [parser.add_argument(...)] of lines 557-630 are kept as they
    are written, argument by argument, so that the module can be checked
    the way Python checks it before running it. *)

(** An argument expression: a literal or a name ([int], [str], [float]).
    The text of a [help] string plays no role and is left out. *)
Inductive Expr : Type :=
| EStr (s : string)
| EInt (z : Z)
| EFloat (q : Q)
| EBool (b : bool)
| ENone
| EEmptyList
| EName (name : string)
| EText.

(** What stands between the parentheses of a call. *)
Inductive Token : Type :=
| Positional (e : Expr)
| Keyword (name : string) (e : Expr)
| Comma.

Record Call : Type := mkCall {
  call_line : nat;
  call_tokens : list Token;
}.

(** The arguments of a call are separated by commas; a comma may follow the
    last one. *)
Fixpoint separated (expect_argument : bool) (tokens : list Token) : bool :=
  match tokens with
  | [] => true
  | Comma :: rest => if expect_argument then false else separated true rest
  | _ :: rest => if expect_argument then separated false rest else false
  end.

(** Python compiles the module before it runs it: the first call that is
    not well formed is a [SyntaxError]. *)
Definition compile (calls : list Call) : result unit :=
  match List.find (fun c => negb (separated true (call_tokens c))) calls with
  | Some c => raise (SyntaxError (call_line c))
  | None => ret tt
  end.

(** The values of a namespace.  [VConv ty raw] is [ty(raw)], the type
    function of an argument applied to a string of the command line or of
    the configuration, left as it is. *)
Inductive Ty : Type := TyStr | TyInt | TyFloat.

Inductive Value : Type :=
| VStr (s : string)
| VInt (z : Z)
| VFloat (q : Q)
| VBool (b : bool)
| VNone
| VEmptyList
| VConv (ty : Ty) (raw : string).

Inductive ActionKind : Type := Store (ty : Ty) | StoreTrue.

(** An action of an [ArgumentParser]. *)
Record Action : Type := mkAction {
  act_flags : list string;
  act_dest : string;
  act_kind : ActionKind;
  act_default : Value;
}.

(** [keyword=...] of a call, if it is given. *)
Fixpoint keyword (name : string) (tokens : list Token) : option Expr :=
  match tokens with
  | [] => None
  | Keyword n e :: rest => if String.eqb n name then Some e else keyword name rest
  | _ :: rest => keyword name rest
  end.

(** The option strings of a call: its positional arguments. *)
Fixpoint option_strings (tokens : list Token) : list string :=
  match tokens with
  | [] => []
  | Positional (EStr s) :: rest => s :: option_strings rest
  | _ :: rest => option_strings rest
  end.

(** [s.replace('-', '_')] *)
Fixpoint underscores (s : string) : string :=
  match s with
  | EmptyString => EmptyString
  | String c s' =>
      String (if Ascii.eqb c "-"%char then "_"%char else c) (underscores s')
  end.

(** The destination of an optional argument: its first long option string
    without the dashes, or else its first option string. *)
Definition dest_of (flags : list string) : string :=
  match List.find (starts_with "--") flags with
  | Some (String _ (String _ name)) => underscores name
  | _ =>
      match flags with
      | String _ name :: _ => underscores name
      | _ => EmptyString
      end
  end.

Definition value_of (e : Expr) : Value :=
  match e with
  | EStr s => VStr s
  | EInt z => VInt z
  | EFloat q => VFloat q
  | EBool b => VBool b
  | EEmptyList => VEmptyList
  | _ => VNone
  end.

Definition type_of (e : option Expr) : Ty :=
  match e with
  | Some (EName "int") => TyInt
  | Some (EName "float") => TyFloat
  | _ => TyStr
  end.

(** [parser.add_argument(...)]: the action a call adds. *)
Definition add_argument (c : Call) : Action :=
  let tokens := call_tokens c in
  let kind :=
    match keyword "action" tokens with
    | Some (EStr "store_true") => StoreTrue
    | _ => Store (type_of (keyword "type" tokens))
    end in
  {| act_flags := option_strings tokens;
     act_dest := dest_of (option_strings tokens);
     act_kind := kind;
     act_default :=
       match keyword "default" tokens with
       | Some e => value_of e
       | None => match kind with StoreTrue => VBool false | Store _ => VNone end
       end |}.

(** An [ArgumentParser]: its actions and the defaults set for names that
    are the destination of no action. *)
Record Parser : Type := mkParser {
  actions : list Action;
  parser_defaults : gmap string Value;
}.

(** [parser.set_defaults] called with the entries of [cfg] as keywords *)
Definition override (cfg : gmap string Value) (a : Action) : Action :=
  match cfg !! act_dest a with
  | Some v => mkAction (act_flags a) (act_dest a) (act_kind a) v
  | None => a
  end.

Definition set_defaults (cfg : gmap string Value) (p : Parser) : Parser :=
  {| actions := map (override cfg) (actions p);
     parser_defaults := cfg ∪ parser_defaults p |}.

(** The namespace before the command line is read: the default of every
    action, then the defaults of the parser for the names still missing. *)
Definition initial_namespace (p : Parser) : gmap string Value :=
  list_to_map (map (fun a => (act_dest a, act_default a)) (actions p))
  ∪ parser_defaults p.

(** The action of an option string. *)
Definition find_action (p : Parser) (flag : string) : option Action :=
  List.find (fun a => existsb (String.eqb flag) (act_flags a)) (actions p).

(** The value stored for a string of the command line. *)
Definition convert (ty : Ty) (raw : string) : Value :=
  match ty with
  | TyStr => VStr raw
  | _ => VConv ty raw
  end.

(** The loop of [parse_args] over the strings of the command line: an
    option string is matched exactly (abbreviations and [--name=value] are
    left out), an argument that stores takes the next string as its value;
    anything else ends the program with status 2. *)
Fixpoint consume (p : Parser) (argv : list string) (ns : gmap string Value)
  : result (gmap string Value) :=
  match argv with
  | [] => ret ns
  | flag :: rest =>
      match find_action p flag with
      | None => raise (SystemExit 2)
      | Some a =>
          match act_kind a with
          | StoreTrue => consume p rest (<[act_dest a := VBool true]> ns)
          | Store ty =>
              match rest with
              | [] => raise (SystemExit 2)
              | raw :: rest' =>
                  consume p rest' (<[act_dest a := convert ty raw]> ns)
              end
          end
      end
  end.

(** A default that is a string is passed through the type function of its
    action when the command line did not replace it. *)
Definition convert_default (a : Action) (ns : gmap string Value)
  : gmap string Value :=
  match act_kind a, ns !! act_dest a with
  | Store TyInt, Some (VStr s) => <[act_dest a := VConv TyInt s]> ns
  | Store TyFloat, Some (VStr s) => <[act_dest a := VConv TyFloat s]> ns
  | _, _ => ns
  end.

Definition convert_defaults (p : Parser) (ns : gmap string Value)
  : gmap string Value :=
  fold_right convert_default ns (actions p).

(** [parser.parse_args(argv)] *)
Definition parse_args (p : Parser) (argv : list string)
  : result (gmap string Value) :=
  let* ns := consume p argv (initial_namespace p) in
  ret (convert_defaults p ns).

(** [config_parser.parse_known_args()]: the value of [-c]/[--config] and
    the strings left for the main parser. *)
Fixpoint parse_known_args (config : Action) (argv : list string) (value : string)
  : result (string * list string) :=
  match argv with
  | [] => ret (value, [])
  | tok :: rest =>
      if existsb (String.eqb tok) (act_flags config) then
        match rest with
        | [] => raise (SystemExit 2)
        | path :: rest' => parse_known_args config rest' path
        end
      else
        let* r := parse_known_args config rest value in
        ret (fst r, tok :: snd r)
  end.

(** The default of an argument when it is a string. *)
Definition str_default (a : Action) : string :=
  match act_default a with
  | VStr s => s
  | _ => EmptyString
  end.

(** [_parse_args()]: [configs] are the JSON files that can be opened. *)
Definition _parse_args (config : Action) (parser : Parser) (argv : list string)
    (configs : gmap string (gmap string Value)) : result (gmap string Value) :=
  let* r := parse_known_args config argv (str_default config) in
  let* parser' :=
    (if String.eqb (fst r) "" then ret parser
     else
       let* cfg := or_raise (configs !! fst r) (FileNotFoundError (fst r)) in
       ret (set_defaults cfg parser)) in
  parse_args parser' (snd r).

(** Running the module as a script, up to [args = _parse_args()]: it is
    compiled, [argparse] is looked up, the parsers are built from the
    calls (the first is the one of [config_parser]) and the command line
    is parsed. *)
Definition run_module (calls : list Call) (names : list string)
    (argv : list string) (configs : gmap string (gmap string Value))
  : result (gmap string Value) :=
  let* _ := compile calls in
  let* _ := (if existsb (String.eqb "argparse") names then ret tt
             else raise (NameError "argparse")) in
  match calls with
  | [] => raise (NameError "parser")
  | config_call :: main_calls =>
      _parse_args (add_argument config_call)
                  (mkParser (map add_argument main_calls) ∅) argv configs
  end.

(** *** The script as it is written

    Shorthands for the arguments of the calls. *)
Definition flag (s : string) : Token := Positional (EStr s).
Definition type_ (name : string) : Token := Keyword "type" (EName name).
Definition default_ (e : Expr) : Token := Keyword "default" e.
Definition metavar (s : string) : Token := Keyword "metavar" (EStr s).
Definition action_ (s : string) : Token := Keyword "action" (EStr s).
Definition help_ : Token := Keyword "help" EText.

(** The calls of lines 557-630, each with the line it starts on.  The first
    is made on [config_parser], the others on [parser]. *)
Definition train_calls : list Call :=
  [ mkCall 557 [flag "-c"; Comma; flag "--config"; Comma; type_ "str"; Comma;
                default_ (EStr ""); Comma; metavar "FILE"; Comma; help_];
    mkCall 561 [flag "--root"; Comma; type_ "str"; Comma; default_ (EStr "");
                Comma; metavar "DIR"; Comma; help_];
    mkCall 563 [flag "--main"; Comma; type_ "str"; Comma;
                default_ (EStr "cifar"); Comma; metavar "FILE"; Comma; help_];
    mkCall 565 [flag "--test"; Comma; type_ "str"; Comma;
                default_ (EStr "cifar.npz"); Comma; metavar "FILE"; Comma; help_];
    mkCall 567 [flag "--sub"; Comma; type_ "str"; Comma; default_ (EStr "");
                Comma; help_];
    mkCall 569 [flag "--epochs"; Comma; type_ "int"; Comma; default_ (EInt 90);
                Comma; metavar "EPOCH"; help_];
    mkCall 571 [flag "--batch-size"; Comma; type_ "int"; Comma;
                default_ (EInt 128); Comma; metavar "BATCH"; help_];
    mkCall 573 [flag "--print-freq"; Comma; type_ "int"; Comma;
                default_ (EInt 1000); Comma; help_];
    mkCall 575 [flag "--gpu"; Comma; type_ "int"; Comma; default_ ENone; Comma;
                help_];
    mkCall 577 [flag "--seed"; Comma; type_ "int"; Comma; default_ ENone; Comma;
                help_];
    mkCall 579 [flag "--model"; Comma; type_ "str"; Comma;
                default_ (EStr "resnet"); Comma; help_];
    mkCall 581 [flag "--model-config"];
    mkCall 582 [flag "--num-planes"; Comma; type_ "int"; Comma;
                default_ (EInt 64); Comma; metavar "WIDTH"; help_];
    mkCall 584 [flag "--opt"; Comma; default_ (EStr "sgd"); Comma; type_ "str";
                Comma; metavar "OPTIMIZER"; Comma; help_];
    mkCall 586 [flag "--loss"; Comma; type_ "str"; Comma;
                default_ (EStr "cross_entropy"); Comma; metavar "LOSS"; Comma;
                help_];
    mkCall 588 [flag "--momentum"; Comma; type_ "float"; Comma;
                default_ (EFloat (9 # 10)); Comma; metavar "M"; Comma; help_];
    mkCall 590 [flag "--weight-decay"; Comma; type_ "float"; Comma;
                default_ (EFloat (1 # 10000)); Comma; help_];
    mkCall 592 [flag "--lr"; Comma; type_ "float"; Comma;
                default_ (EFloat (1 # 10)); Comma; metavar "LR"; Comma; help_];
    mkCall 594 [flag "--decay-rate"; Comma; flag "--dr"; Comma; type_ "float";
                Comma; default_ (EFloat (1 # 10)); Comma; metavar "RATE"; Comma;
                help_];
    mkCall 596 [flag "--decay-epochs"; Comma; type_ "int"; Comma;
                default_ (EInt 30); Comma; metavar "N"; Comma; help_];
    mkCall 598 [flag "--decay-max-epochs"; Comma; type_ "int"; Comma;
                default_ (EInt 70); Comma; metavar "N"; Comma; help_];
    mkCall 600 [flag "--use-inverse-sqrt-lr"; Comma; action_ "store_true"; Comma;
                default_ (EBool false); Comma; help_];
    mkCall 602 [flag "--schedule-lr"; Comma; action_ "store_true"; Comma;
                default_ (EBool false); Comma; help_];
    mkCall 604 [flag "--norandomcrop"; Comma; action_ "store_true"; Comma;
                default_ (EBool false); Comma; help_];
    mkCall 606 [flag "--norandomflip"; Comma; action_ "store_true"; Comma;
                default_ (EBool false); Comma; help_];
    mkCall 608 [flag "--train-size"; Comma; type_ "int"; Comma;
                default_ (EInt 0); Comma; help_];
    mkCall 610 [flag "--select-classes"; Comma; default_ EEmptyList; Comma;
                type_ "int"; Comma; help_];
    mkCall 612 [flag "--num-classes"; Comma; type_ "int"; Comma;
                default_ (EInt 10); Comma; metavar "N"; Comma; help_];
    mkCall 614 [flag "--inject-noise"; Comma; type_ "float"; Comma;
                default_ (EFloat 0); Comma; metavar "NOISE"; Comma; help_];
    mkCall 616 [flag "--evaluate"; Comma; action_ "store_true"; Comma;
                default_ (EBool false); Comma; help_];
    mkCall 618 [flag "--resume"; Comma; default_ (EStr "checkpoint.pth.tar");
                Comma; type_ "str"; Comma; metavar "RESUME"; Comma; help_];
    mkCall 620 [flag "--track-correct"; Comma; action_ "store_true"; Comma;
                default_ (EBool false); Comma; help_];
    mkCall 622 [flag "--scale-lr"; Comma; type_ "float"; Comma; default_ ENone;
                Comma; metavar "SCALE"; Comma; help_];
    mkCall 624 [flag "--compute-jacobian"; Comma; action_ "store_true"; Comma;
                default_ (EBool false); Comma; help_];
    mkCall 626 [flag "--track-weights"; Comma; action_ "store_true"; Comma;
                default_ (EBool false); Comma; help_];
    mkCall 628 [flag "--details"; Comma; type_ "str"; Comma; metavar "N"; Comma;
                default_ (EStr "no_detail_given"); Comma; help_] ].

(** The names bound by the [import] statements of lines 5-31 and by the
    assignments of lines 35-38. *)
Definition train_names : list string :=
  [ "os"; "random"; "shutil"; "pathlib"; "json"; "time"; "datetime";
    "warnings"; "np"; "Image"; "pickle"; "AverageMeter"; "save_checkpoint";
    "save_config"; "adjust_learning_rate"; "torch"; "nn"; "cudnn"; "mp";
    "Dataset"; "transforms"; "datasets"; "models"; "model_names"; "best_acc1" ].

(** The script with a comma put between any two arguments that follow each
    other without one: what lines 569, 571 and 582 were meant to be. *)
Fixpoint restore_commas (tokens : list Token) : list Token :=
  match tokens with
  | [] => []
  | Comma :: rest => Comma :: restore_commas rest
  | a :: rest =>
      match rest with
      | [] => [a]
      | Comma :: _ => a :: restore_commas rest
      | _ :: _ => a :: Comma :: restore_commas rest
      end
  end.

Definition repaired (c : Call) : Call :=
  mkCall (call_line c) (restore_commas (call_tokens c)).

(** The value that takes effect for a destination, as the precedence of the
    three sources has it: the command line, then the configuration file,
    then the default of the call. *)
Definition effective (cli cfg : option Value) (built_in : Value) : Value :=
  match cli, cfg with
  | Some v, _ => v
  | None, Some v => v
  | None, None => built_in
  end.

(** The last value the command line gives for a destination, [acc] when it
    gives none. *)
Fixpoint cli_value (p : Parser) (argv : list string) (d : string)
    (acc : option Value) : option Value :=
  match argv with
  | [] => acc
  | flag :: rest =>
      match find_action p flag with
      | None => acc
      | Some a =>
          match act_kind a with
          | StoreTrue =>
              cli_value p rest d
                (if String.eqb (act_dest a) d then Some (VBool true) else acc)
          | Store ty =>
              match rest with
              | [] => acc
              | raw :: rest' =>
                  cli_value p rest' d
                    (if String.eqb (act_dest a) d then Some (convert ty raw)
                     else acc)
              end
          end
      end
  end.

(** A string that reaches the end of [parse_args] under an argument with a
    numeric type function is passed through it. *)
Definition typed (k : ActionKind) (v : Value) : Value :=
  match k, v with
  | Store TyInt, VStr s => VConv TyInt s
  | Store TyFloat, VStr s => VConv TyFloat s
  | _, _ => v
  end.

(** The configuration dictionary in force for the path [--config] gives:
    none is read for the empty path. *)
Definition loaded (configs : gmap string (gmap string Value)) (path : string)
  : option (gmap string Value) :=
  if String.eqb path "" then Some ∅ else configs !! path.

(** The parser of the script once the commas are restored. *)
Definition repaired_parser : Parser :=
  mkParser (map add_argument (map repaired (tl train_calls))) ∅.

End Train.

(** ** Concrete inputs of the training driver *)

Module TrainRuns.

Import Train.

(** A stand-in for the framework: the model and the optimizer count the
    steps taken, the input of a batch is the list of the classes the model
    predicts first, and the prediction of rank [j] is [j] classes further. *)
#[export] Instance counting_framework : Framework := {|
  Model := Z;
  Optimizer := Z;
  Scheduler := Z;
  Input := list Z;
  Output := list Z;
  ModelDict := Z;
  OptimizerDict := Z;
  forward := fun _ input => input;
  input_size := fun input => Z.of_nat (length input);
  topk_t := fun output k =>
    map (fun j => map (fun x => x + Z.of_nat j) output) (seq 0 (Z.to_nat k));
  loss_item := fun _ _ _ => (1 # 2)%Q;
  set_mode := fun _ m => m;
  new_optimizer := fun _ _ _ _ _ => 0;
  new_scheduler := fun o _ _ => (0, o);
  scheduler_step := fun s o => (s + 1, o);
  optimizer_step := fun _ _ _ m o => (m + 1, o + 1);
  closure_step := fun _ _ _ m o => (m + 1, o + 1);
  param_groups := fun _ => 1%nat;
  set_group_lr := fun o _ _ => o;
  inverse_sqrt := fun base_lr _ _ => base_lr;
  adjust_learning_rate := fun o _ _ => o;
  state_dict := fun m => m;
  load_state_dict := fun _ d => d;
  optimizer_state_dict := fun o => o;
  optimizer_load_state_dict := fun _ d => d;
  state_dict_loaded := fun _ _ => eq_refl;
  optimizer_state_dict_loaded := fun _ _ => eq_refl;
|}.

(** Two training batches (4 samples, 2 of them right; 2 samples, both
    right) and one validation batch (3 samples, 1 right). *)
Definition two_batches : Loader :=
  fun _ => [([1; 2; 3; 4], [1; 2; 0; 0]); ([5; 6], [5; 6])].
Definition one_batch : Loader := fun _ => [([1; 2; 3], [1; 0; 0])].

(** Two epochs of SGD with the step decay in the first epoch. *)
Definition two_epochs : Args :=
  {| arch := "resnet18"; loss_func := "cross_entropy"; opt := "SGD"; lr := (1 # 10)%Q;
     momentum := (9 # 10)%Q; weight_decay := (1 # 10000)%Q; initial_lr := [];
     initial_lr_decay := [];
     schedule_lr := false; resume := "checkpoint.pth.tar"; start_epoch := 0;
     epochs := 2; max_lr_adjusting_epoch := 1; sub_file := ""; mix_cifar := false;
     mix_rate := false; traindir2 := false; testdir2 := false; inject_noise := false;
     evaluate := false; compute_jacobian := false; track_weights := false;
     scale_weights := false; track_correct := false; use_inverse_sqrt_lr := false;
     use_LBFGS := false; batch_size := 4; print_freq := 10; num_classes := 10;
     outpath := "results/resnet/cifar/run" |}.

(** The same run with [--track-correct]. *)
Definition two_epochs_tracking : Args :=
  {| arch := "resnet18"; loss_func := "cross_entropy"; opt := "SGD"; lr := (1 # 10)%Q;
     momentum := (9 # 10)%Q; weight_decay := (1 # 10000)%Q; initial_lr := [];
     initial_lr_decay := [];
     schedule_lr := false; resume := "checkpoint.pth.tar"; start_epoch := 0;
     epochs := 2; max_lr_adjusting_epoch := 1; sub_file := ""; mix_cifar := false;
     mix_rate := false; traindir2 := false; testdir2 := false; inject_noise := false;
     evaluate := false; compute_jacobian := false; track_weights := false;
     scale_weights := false; track_correct := true; use_inverse_sqrt_lr := false;
     use_LBFGS := false; batch_size := 4; print_freq := 10; num_classes := 10;
     outpath := "results/resnet/cifar.run" |}.


Definition never_printing : Args :=
  {| arch := "resnet18"; loss_func := "cross_entropy"; opt := "SGD"; lr := (1 # 10)%Q;
     momentum := (9 # 10)%Q; weight_decay := (1 # 10000)%Q; initial_lr := [];
     initial_lr_decay := [];
     schedule_lr := false; resume := "checkpoint.pth.tar"; start_epoch := 0;
     epochs := 2; max_lr_adjusting_epoch := 1; sub_file := ""; mix_cifar := false;
     mix_rate := false; traindir2 := false; testdir2 := false; inject_noise := false;
     evaluate := false; compute_jacobian := false; track_weights := false;
     scale_weights := false; track_correct := false; use_inverse_sqrt_lr := false;
     use_LBFGS := false; batch_size := 4; print_freq := 0; num_classes := 10;
     outpath := "results/resnet/cifar/run" |}.

(** The state at the entry of the epoch loop of the first run. *)
Definition loop_entry : St (F := counting_framework) :=
  {| model := 0; criterion := Some CrossEntropyLoss; optimizer := Some 0;
     scheduler := None; val_loader2 := None; train_log := [];
     args_loss_func := "cross_entropy"; args_start_epoch := 0; best_acc1 := 0;
     fs := ∅; passes := O; trace := [EvOptimizer SGD ModelParameters (1 # 10)%Q; EvSaveConfig] |}.

(** The state after the first iteration of the first run, and the state of
    a run that resumes with the files it left. *)
Definition after_first_epoch : St (F := counting_framework) :=
  Eval vm_compute in
    fst (epoch_body (MeterT := AverageMeter) two_batches one_batch two_epochs 0 loop_entry).

Definition resuming : St (F := counting_framework) :=
  set_fs (fs after_first_epoch) loop_entry.

(** Two updates of a meter, and an evaluation pass over the two training
    batches. *)
Definition two_updates : list (Q * Z) := [(50%Q, 4); (100%Q, 2)].

(** A configuration file that sets the number of epochs and, as a string,
    the learning rate; the actions of [--config] and of [--lr]; and the
    namespace for the command line [--lr 0.2 -c a.json]. *)
Definition a_json : gmap string Value :=
  {[ "epochs" := VInt 7; "lr" := VStr "0.5" ]}.

Definition config_action : Action := add_argument (hd (mkCall 0 []) train_calls).

Definition lr_action : Action :=
  add_argument (mkCall 592 [flag "--lr"; Comma; type_ "float"; Comma;
                            default_ (EFloat (1 # 10)); Comma; metavar "LR";
                            Comma; help_]).

Definition a_json_namespace : gmap string Value :=
  value_or ∅ (_parse_args config_action repaired_parser
                ["--lr"; "0.2"; "-c"; "a.json"] {[ "a.json" := a_json ]}).

(** The first run with other options: the name of the loss function, and
    the flags [--evaluate], [--mix-cifar] (with a rate and a second
    directory), [use_inverse_sqrt_lr] and [use_LBFGS]. *)
Definition two_epochs_with (loss : string)
    (evaluating mixing inverse_sqrt lbfgs : bool) : Args :=
  {| arch := "resnet18"; loss_func := loss; opt := "SGD"; lr := (1 # 10)%Q;
     momentum := (9 # 10)%Q; weight_decay := (1 # 10000)%Q; initial_lr := [];
     initial_lr_decay := [];
     schedule_lr := false; resume := "checkpoint.pth.tar"; start_epoch := 0;
     epochs := 2; max_lr_adjusting_epoch := 1; sub_file := ""; mix_cifar := mixing;
     mix_rate := mixing; traindir2 := mixing; testdir2 := false; inject_noise := false;
     evaluate := evaluating; compute_jacobian := false; track_weights := false;
     scale_weights := false; track_correct := false;
     use_inverse_sqrt_lr := inverse_sqrt; use_LBFGS := lbfgs; batch_size := 4;
     print_freq := 10; num_classes := 10; outpath := "results/resnet/cifar/run" |}.

Definition evaluating : Args := two_epochs_with "cross_entropy" true false false false.
Definition mixing : Args := two_epochs_with "cross_entropy" false true false false.
Definition hinge_loss : Args := two_epochs_with "hinge" false false false false.
Definition conflicting : Args := two_epochs_with "cross_entropy" false false true false.
Definition with_lbfgs : Args := two_epochs_with "l2" false false false true.

(** A loader whose only batch has no sample. *)
Definition empty_batch : Loader (F := counting_framework) := fun _ => [([], [])].

(** The checkpoint of the first epoch of an earlier run. *)
Definition checkpoint_1 : Checkpoint (F := counting_framework) :=
  {| ck_epoch := 1; ck_arch := "resnet18"; ck_state_dict := 2;
     ck_best_acc1 := (50 # 1)%Q; ck_optimizer := 2 |}.
Definition files_1 : gmap string (File (F := counting_framework)) :=
  {[ "checkpoint.pth.tar" := CheckpointFile checkpoint_1 ]}.

(** Six samples of two classes, three of each, and four samples of which
    three are of the first class. *)
Definition balanced_targets : list Z := [0; 1; 0; 1; 1; 0].
Definition unbalanced_targets : list Z := [0; 0; 0; 1].

(** Two draws of [random.sample]: the list as it is, and reversed. *)
Definition in_order (i : Z) (l : list nat) : list nat := l.
Definition reversed (i : Z) (l : list nat) : list nat := rev l.

End TrainRuns.

(** ** Facts about the Python values *)

Module PyFacts.

Lemma py_index_nat {A} (l : list A) (i : nat) :
  py_index l (Z.of_nat i) = l !! i.
Proof.
  unfold py_index.
  destruct (Z.leb_spec 0 (Z.of_nat i)); [|lia].
  destruct (Z.ltb_spec (Z.of_nat i) (Z.of_nat (length l))); cbn [andb].
  - now rewrite Nat2Z.id.
  - destruct (Z.leb_spec (- Z.of_nat (length l)) (Z.of_nat i));
      destruct (Z.ltb_spec (Z.of_nat i) 0); cbn [andb]; try lia.
    all: symmetry; apply lookup_ge_None; lia.
Qed.

Lemma py_index_last {A} (l : list A) :
  py_index l (-1) = l !! Nat.pred (length l).
Proof.
  unfold py_index. change (0 <=? -1) with false. cbn [andb].
  change (-1 <? 0) with true. rewrite andb_true_r.
  destruct (Z.leb_spec (- Z.of_nat (length l)) (-1)).
  - f_equal. lia.
  - destruct l; [reflexivity|simpl in *; lia].
Qed.

Lemma py_slice_to_nat {A} (l : list A) (k : Z) :
  0 <= k -> py_slice_to l k = firstn (Z.to_nat k) l.
Proof. intros Hk. unfold py_slice_to. destruct (Z.ltb_spec k 0); [lia|reflexivity]. Qed.

Lemma py_slice_to_last {A} (l : list A) :
  py_slice_to l (-1) = firstn (Nat.pred (length l)) l.
Proof. unfold py_slice_to. change (-1 <? 0) with true. f_equal. lia. Qed.

Lemma py_slice_length {A B} (l : list A) (l' : list B) (a b : Z) :
  length l = length l' -> length (py_slice l a b) = length (py_slice l' a b).
Proof.
  intros Hlen. unfold py_slice. rewrite Hlen. cbv zeta.
  destruct (_ <? _); [|reflexivity].
  rewrite !length_firstn, !length_skipn, Hlen. reflexivity.
Qed.

Lemma py_slice_to_length {A B} (l : list A) (l' : list B) (k : Z) :
  length l = length l' -> length (py_slice_to l k) = length (py_slice_to l' k).
Proof.
  intros Hlen. unfold py_slice_to. rewrite Hlen.
  destruct (k <? 0); rewrite !length_firstn, Hlen; reflexivity.
Qed.

Lemma py_slice_inside {A} (l : list A) (a b : Z) :
  0 <= a <= b -> b <= Z.of_nat (length l) ->
  length (py_slice l a b) = Z.to_nat (b - a).
Proof.
  intros Hab Hb. unfold py_slice. cbv zeta.
  destruct (Z.ltb_spec a 0); [lia|]. destruct (Z.ltb_spec b 0); [lia|].
  rewrite !Z.min_l by lia.
  destruct (Z.ltb_spec a b).
  - rewrite length_firstn, length_skipn. lia.
  - cbn. lia.
Qed.

Lemma in_py_range (x a b : Z) : In x (py_range a b) <-> a <= x < b.
Proof.
  unfold py_range. rewrite in_map_iff. split.
  - intros (k & <- & Hk). apply in_seq in Hk. lia.
  - intros Hx. exists (Z.to_nat (x - a)). split; [lia|]. apply in_seq. lia.
Qed.

Lemma py_range_length (a b : Z) : length (py_range a b) = Z.to_nat (b - a).
Proof. unfold py_range. now rewrite length_map, length_seq. Qed.

Lemma py_range_NoDup (a b : Z) : List.NoDup (py_range a b).
Proof.
  unfold py_range. apply Finite.Injective_map_NoDup; [|apply seq_NoDup].
  intros x y H. lia.
Qed.

End PyFacts.

(** ** Facts about code_for_clustering_npz_files.py *)

Module ClusteringFacts.

Import Clustering ClusteringRuns PyFacts.

Section Loop.

Context {Image Label : Type}.
Variable npz_list : list string.
Variable npz_size_list : list Z.
Variable chosen_dict : gmap string Label.
Variable disk : gmap string (list Image).

Local Abbreviation step := (step npz_list npz_size_list chosen_dict disk).
Local Abbreviation run := (run npz_list npz_size_list chosen_dict disk).
Local Abbreviation script := (script npz_list npz_size_list chosen_dict disk).

Lemma save_lim_pos : 0 < save_lim.
Proof. reflexivity. Qed.

Lemma numbered_snoc (l : list (Npz Image Label)) (xs : list Image) (ys : list Label) :
  numbered_from_1 l ->
  numbered_from_1 (l ++ [mkNpz (batch_name (1 + Z.of_nat (length l))) xs ys]).
Proof.
  unfold numbered_from_1. intros Hl.
  rewrite map_app, Hl, length_app. simpl length.
  replace (length l + 1)%nat with (S (length l)) by lia.
  rewrite seq_S, map_app. simpl. repeat f_equal. lia.
Qed.

(** Flushing a buffer of exactly [save_lim] pairs writes one full archive
    and empties the buffers. *)
Lemma flush_full (st : State Image Label) :
  disk_ok st ->
  Z.of_nat (length (im_arr st)) = save_lim ->
  length (lbl_arr st) = length (im_arr st) ->
  disk_ok (flush st) /\ buf_ok (flush st) /\
  handled (flush st) = handled st.
Proof.
  intros [Hidx Hfull Hnames] Hlen Hlbl. unfold flush.
  rewrite Hlen, Z.leb_refl. split; [|split].
  - constructor; simpl.
    + rewrite length_app. simpl. lia.
    + apply Forall_app. split; [assumption|].
      constructor; [|constructor]. split; simpl; [assumption|]. now rewrite Hlbl.
    + rewrite Hidx. now apply numbered_snoc.
  - constructor; simpl; [reflexivity|reflexivity].
  - unfold handled. simpl. rewrite length_app. simpl. lia.
Qed.

(** A buffer still short of [save_lim] is left alone. *)
Lemma flush_short (st : State Image Label) :
  Z.of_nat (length (im_arr st)) < save_lim -> flush st = st.
Proof.
  intros H. unfold flush.
  destruct (Z.leb_spec save_lim (Z.of_nat (length (im_arr st)))); [lia|reflexivity].
Qed.

(** One iteration: the archives on disk stay well formed whatever happens;
    when no exception is raised the buffers are again short and equally
    long, and one more index is accounted for. *)
Lemma step_inv (st st' : State Image Label) (g : Z) (r : option exn) :
  disk_ok st -> buf_ok st -> step st g = (st', r) ->
  disk_ok st' /\
  (r = None -> buf_ok st' /\ handled st' = handled st + 1).
Proof.
  intros Hd [Hlt Hlbl] Hstep. unfold Clustering.step in Hstep.
  destruct (resolve npz_list npz_size_list (cursor st) g) as [e|[c|]].
  - inversion Hstep; subst. split; [assumption|discriminate].
  - destruct (load_image disk c) as [e|img].
    { inversion Hstep; subst. split; [destruct Hd; now constructor|discriminate]. }
    destruct (load_label chosen_dict c) as [e|lbl].
    { inversion Hstep; subst. split; [destruct Hd; now constructor|discriminate]. }
    inversion Hstep; subst; clear Hstep.
    set (st2 := {| im_arr := im_arr st ++ [img]; lbl_arr := lbl_arr st ++ [lbl];
                   save_idx := save_idx st; cursor := Some c;
                   written := written st |}).
    assert (Hd2 : disk_ok st2) by (destruct Hd; now constructor).
    assert (Hl2 : length (lbl_arr st2) = length (im_arr st2))
      by (simpl; rewrite !length_app; simpl; lia).
    assert (Hh2 : handled st2 = handled st + 1)
      by (unfold handled; simpl; rewrite length_app; simpl; lia).
    assert (Hn2 : Z.of_nat (length (im_arr st2)) = Z.of_nat (length (im_arr st)) + 1)
      by (simpl; rewrite length_app; simpl; lia).
    destruct (Z.eq_dec (Z.of_nat (length (im_arr st2))) save_lim) as [Heq|Hne].
    + destruct (flush_full st2 Hd2 Heq Hl2) as (? & ? & Hh). split; [assumption|].
      intros _. split; [assumption|]. now rewrite Hh.
    + rewrite flush_short by lia. split; [assumption|].
      intros _. split; [|assumption]. constructor; [lia|assumption].
  - inversion Hstep; subst. split; [assumption|discriminate].
Qed.

Lemma run_inv (rand_idx : list Z) : forall (st st' : State Image Label) (r : option exn),
  disk_ok st -> buf_ok st -> run rand_idx st = (st', r) ->
  disk_ok st' /\
  (r = None ->
   buf_ok st' /\ handled st' = handled st + Z.of_nat (length rand_idx)).
Proof.
  induction rand_idx as [|g rest IH]; intros st st' r Hd Hb Hrun; simpl in Hrun.
  - inversion Hrun; subst. split; [assumption|]. intros _. split; [assumption|].
    simpl. lia.
  - destruct (step st g) as [st1 [e|]] eqn:Hstep.
    + inversion Hrun; subst.
      destruct (step_inv _ _ _ _ Hd Hb Hstep) as [Hd1 _]. split; [assumption|discriminate].
    + destruct (step_inv _ _ _ _ Hd Hb Hstep) as [Hd1 Hok].
      destruct (Hok eq_refl) as [Hb1 Hh1].
      destruct (IH _ _ _ Hd1 Hb1 Hrun) as [Hd' Hok']. split; [assumption|].
      intros Hr. destruct (Hok' Hr) as [Hb' Hh']. split; [assumption|].
      rewrite Hh', Hh1. simpl length. lia.
Qed.

Lemma init_ok : disk_ok (@init Image Label) /\ buf_ok (@init Image Label).
Proof.
  split; constructor; simpl; try reflexivity. constructor.
Qed.

Lemma full_batches_count (l : list (Npz Image Label)) :
  Forall full_batch l ->
  Z.of_nat (length (concat (map X_train l))) = save_lim * Z.of_nat (length l).
Proof.
  induction 1 as [|a l [Ha _] _ IH]; simpl.
  - lia.
  - rewrite length_app. lia.
Qed.

(** C2. Every archive the script writes holds exactly [save_lim] images in
    [X_train] and exactly [save_lim] labels in [y_train], and the archives
    are named [candidate_batch_1.npz], [candidate_batch_2.npz], ... in the
    order they are written.  This holds for the state the script stops in,
    whether the loop ran to its end or an exception ended it. *)
Theorem written_archives_full_and_numbered (rand_idx : list Z) :
  let st := fst (script rand_idx) in
  Forall (fun a => Z.of_nat (length (X_train a)) = save_lim /\
                   Z.of_nat (length (y_train a)) = save_lim) (written st) /\
  map out_npz_file (written st) =
    map (fun k => batch_name (Z.of_nat k)) (seq 1 (length (written st))).
Proof.
  simpl. unfold Clustering.script.
  destruct (run rand_idx init) as [st r] eqn:Hrun.
  destruct init_ok as [Hd Hb].
  destruct (run_inv _ _ _ _ Hd Hb Hrun) as [[_ Hfull Hnames] _].
  split; assumption.
Qed.

(** C3. When the loop has gone through all [N] sampled indices, exactly
    [N / save_lim] archives have been written, holding the first
    [save_lim * (N / save_lim)] collected images; the [N mod save_lim]
    images and labels collected after the last write are still in [im_arr]
    and [lbl_arr] when the script ends, and no archive holds them. *)
Theorem remainder_never_written (rand_idx : list Z) (st : State Image Label) :
  script rand_idx = (st, None) ->
  Z.of_nat (length (written st)) = Z.of_nat (length rand_idx) / save_lim /\
  Z.of_nat (length (im_arr st)) = Z.of_nat (length rand_idx) mod save_lim /\
  Z.of_nat (length (lbl_arr st)) = Z.of_nat (length rand_idx) mod save_lim /\
  Z.of_nat (length (concat (map X_train (written st)))) =
    Z.of_nat (length rand_idx) - Z.of_nat (length rand_idx) mod save_lim.
Proof.
  intros Hrun. unfold Clustering.script in Hrun.
  destruct init_ok as [Hd Hb].
  destruct (run_inv _ _ _ _ Hd Hb Hrun) as [[_ Hfull _] Hok].
  destruct (Hok eq_refl) as [[Hlt Hlbl] Hh].
  unfold handled in Hh. simpl in Hh.
  pose proof save_lim_pos as Hpos.
  assert (Hq : Z.of_nat (length (written st)) = Z.of_nat (length rand_idx) / save_lim).
  { apply Z.div_unique with (r := Z.of_nat (length (im_arr st))); lia. }
  assert (Hm : Z.of_nat (length (im_arr st)) = Z.of_nat (length rand_idx) mod save_lim).
  { apply Z.mod_unique with (q := Z.of_nat (length (written st))); lia. }
  repeat split.
  - exact Hq.
  - exact Hm.
  - rewrite Hlbl. exact Hm.
  - rewrite (full_batches_count _ Hfull). lia.
Qed.

End Loop.

(** *** The resolution step against the specification *)

Lemma py_sum_from (l : list Z) : forall a, fold_left Z.add l a = a + py_sum l.
Proof.
  unfold py_sum. induction l as [|x l IH]; intros a; simpl.
  - lia.
  - rewrite (IH (a + x)), (IH (0 + x)). lia.
Qed.

Lemma py_sum_cons (x : Z) (l : list Z) : py_sum (x :: l) = x + py_sum l.
Proof. unfold py_sum at 1. simpl. apply py_sum_from. Qed.

Lemma prefix_sums_monotone (sizes : list Z) :
  Forall (fun s => 0 <= s) sizes ->
  forall j k, (j <= k)%nat -> py_sum (firstn j sizes) <= py_sum (firstn k sizes).
Proof.
  induction 1 as [|s sizes Hs _ IH]; intros j k Hjk.
  - rewrite !firstn_nil. lia.
  - destruct j as [|j]; destruct k as [|k]; simpl firstn; try lia.
    + rewrite py_sum_cons. specialize (IH O k). simpl firstn in IH.
      unfold py_sum at 1. simpl. unfold py_sum at 1 in IH. simpl in IH. lia.
    + rewrite !py_sum_cons. specialize (IH j k). lia.
Qed.

(** With sizes that are not negative, at most one archive owns an index. *)
Lemma owner_unique (sizes : list Z) (g : Z) (j k : nat) :
  Forall (fun s => 0 <= s) sizes ->
  owns sizes g j -> owns sizes g k -> j = k.
Proof.
  intros Hs [Hj1 Hj2] [Hk1 Hk2].
  destruct (Nat.lt_trichotomy j k) as [Hlt|[Heq|Hgt]]; [|assumption|].
  - pose proof (prefix_sums_monotone sizes Hs (S j) k). lia.
  - pose proof (prefix_sums_monotone sizes Hs (S k) j). lia.
Qed.

(** Every index in range has an owner, and [locate] finds it together with
    an offset inside that archive. *)
Lemma locate_owner (sizes : list Z) : forall g,
  0 <= g < py_sum sizes ->
  exists j off s,
    locate sizes g = Some (j, off) /\
    owns sizes g j /\
    off = g - py_sum (firstn j sizes) /\
    sizes !! j = Some s /\ 0 <= off < s.
Proof.
  induction sizes as [|s sizes IH]; intros g Hg.
  - unfold py_sum in Hg. simpl in Hg. lia.
  - rewrite py_sum_cons in Hg. simpl locate.
    destruct (Z.ltb_spec g s) as [Hlt|Hge].
    + exists O, g, s. unfold owns. simpl firstn. rewrite py_sum_cons.
      unfold py_sum. simpl. repeat split; lia.
    + destruct (IH (g - s)) as (j & off & s' & Hloc & [Ho1 Ho2] & Hoff & Hs' & Hb); [lia|].
      rewrite Hloc. exists (S j), off, s'. unfold owns. simpl firstn.
      rewrite !py_sum_cons. simpl firstn in Ho2. repeat split; try lia; assumption.
Qed.

(** C1. The resolution step does not assign every in-range index to its
    owning archive: with archives of 3, 5 and 4 images the global index 2,
    the last image of the first archive, is owned by archive 0 but the
    script sets [cur_npz_file] to archive 1 (with offset 2). *)
Theorem resolve_misses_owner :
  0 <= 2 < py_sum three_sizes /\
  owns three_sizes 2 0 /\
  locate three_sizes 2 = Some (O, 2) /\
  resolve three_files three_sizes None 2
    = inr (Some (mkCursor "downloads/dog/dog.npz" 2)) /\
  ~ resolved_as_specified three_files three_sizes 2
      (mkCursor "downloads/dog/dog.npz" 2).
Proof.
  split; [vm_compute; split; [discriminate|reflexivity]|].
  split; [vm_compute; split; [discriminate|reflexivity]|].
  split; [reflexivity|]. split; [reflexivity|].
  intros (j & [Hlo _] & Hfile & _). simpl in Hfile.
  destruct j as [|[|[|j]]]; try discriminate Hfile.
  vm_compute in Hlo. apply Hlo. reflexivity.
Qed.

(** Indices 6 and 7 of the same input match no branch at all: the variables
    are left as they were, and on the first iteration they are unbound. *)
Example resolve_leaves_unassigned :
  resolve three_files three_sizes None 6 = inr None /\
  resolve three_files three_sizes None 7 = inr None.
Proof. split; reflexivity. Qed.

Example one_run_state :
  script one_file one_size one_dict one_disk one_rand_idx =
  ({| im_arr := [2000%nat];
      lbl_arr := [7%nat];
      save_idx := 2;
      cursor := Some (mkCursor "downloads/cat/cat.npz" 2000);
      written := [mkNpz "candidate_batch_1.npz" (seq 0 2000) (repeat 7%nat 2000)] |},
   None).
Proof. vm_compute. reflexivity. Qed.

Lemma remainder_never_written_witness :
  let st := fst (script one_file one_size one_dict one_disk one_rand_idx) in
  Z.of_nat (length (written st)) = 2001 / save_lim /\
  Z.of_nat (length (im_arr st)) = 2001 mod save_lim /\
  Z.of_nat (length (lbl_arr st)) = 2001 mod save_lim /\
  Z.of_nat (length (concat (map X_train (written st)))) = 2001 - 2001 mod save_lim.
Proof.
  apply (remainder_never_written one_file one_size one_dict one_disk one_rand_idx).
  vm_compute. reflexivity.
Defined.

(** *** The resolution of an index and the stream of collected pairs *)

Section Resolution.

Context {Image Label : Type}.
Variable npz_list : list string.
Variable npz_size_list : list Z.
Variable chosen_dict : gmap string Label.
Variable disk : gmap string (list Image).

Local Abbreviation scan_archives := (scan_archives npz_list npz_size_list).
Local Abbreviation resolve := (resolve npz_list npz_size_list).
Local Abbreviation step := (step npz_list npz_size_list chosen_dict disk).
Local Abbreviation run := (run npz_list npz_size_list chosen_dict disk).

Lemma py_sum_app (l1 l2 : list Z) : py_sum (l1 ++ l2) = py_sum l1 + py_sum l2.
Proof.
  unfold py_sum. rewrite fold_left_app, py_sum_from. unfold py_sum. lia.
Qed.

Lemma py_sum_snoc_lookup (l : list Z) (s : Z) :
  l !! Nat.pred (length l) = Some s ->
  py_sum l = py_sum (firstn (Nat.pred (length l)) l) + s.
Proof.
  intros Hs. rewrite <- (firstn_skipn (Nat.pred (length l)) l) at 1.
  rewrite py_sum_app. f_equal.
  destruct (skipn (Nat.pred (length l)) l) as [|x [|y rest]] eqn:Hskip.
  - apply (f_equal (@length Z)) in Hskip. rewrite length_skipn in Hskip. simpl in Hskip.
    apply lookup_lt_Some in Hs. lia.
  - pose proof (lookup_drop l (Nat.pred (length l)) 0) as Hd.
    rewrite Hskip, Nat.add_0_r, Hs in Hd. simpl in Hd.
    inversion Hd; subst. unfold py_sum. simpl. reflexivity.
  - apply (f_equal (@length Z)) in Hskip. rewrite length_skipn in Hskip. simpl in Hskip. lia.
Qed.

(** *** The scan of the [else] branch *)

(** The scan leaves the previous cursor alone when it finds no archive. *)
Lemma scan_archives_prev (todo : list nat) (g : Z) (prev : option Cursor) :
  scan_archives todo g prev
  = match scan_archives todo g None with
    | inr None => inr prev
    | r => r
    end.
Proof.
  induction todo as [|i rest IH]; simpl; [reflexivity|].
  unfold bind, or_raise.
  destruct (py_index npz_size_list (Z.of_nat i)) as [s|]; [|reflexivity].
  destruct (_ && _); [|exact IH].
  destruct (py_index npz_list (Z.of_nat i)); reflexivity.
Qed.

Lemma resolve_prev (prev : option Cursor) (g : Z) :
  resolve prev g
  = match resolve None g with
    | inr None => inr prev
    | r => r
    end.
Proof.
  unfold Clustering.resolve, bind, or_raise.
  destruct (py_index npz_size_list 0) as [s0|]; [|reflexivity].
  destruct (g <? s0 - 1).
  { destruct (py_index npz_list 0); reflexivity. }
  destruct (_ <? g).
  { destruct (py_index npz_list (-1)); reflexivity. }
  apply scan_archives_prev.
Qed.

(** An archive found by the scan holds the offset it is given. *)
Lemma scan_archives_in_bounds (todo : list nat) (g : Z) (c : Cursor) :
  Forall (fun i => (1 <= i)%nat) todo ->
  scan_archives todo g None = inr (Some c) ->
  exists i s,
    npz_list !! i = Some (cur_npz_file c) /\ npz_size_list !! i = Some s /\
    0 <= cur_npz_idx c < s - 1 /\
    cur_npz_idx c = g - py_sum (firstn (Nat.pred i) npz_size_list).
Proof.
  induction todo as [|i rest IH]; intros Hpos Hscan; simpl in Hscan; [discriminate|].
  inversion Hpos as [|? ? Hi Hrest]; subst.
  unfold bind, or_raise in Hscan. rewrite !py_index_nat in Hscan.
  destruct (npz_size_list !! i) as [s|] eqn:Hs; [|discriminate].
  rewrite py_slice_to_nat in Hscan by lia.
  replace (Z.to_nat (Z.of_nat i - 1)) with (Nat.pred i) in Hscan by lia.
  destruct (_ && _) eqn:Hcond; [|now apply IH].
  destruct (npz_list !! i) as [f|] eqn:Hf; [|discriminate].
  inversion Hscan; subst c; clear Hscan. cbn [cur_npz_file cur_npz_idx].
  apply andb_prop in Hcond. destruct Hcond as [H1 H2].
  apply Z.ltb_lt in H1, H2.
  exists i, s. repeat split; try assumption; lia.
Qed.

(** *** What [resolve] gives *)

Lemma resolve_fresh_in_bounds (g : Z) (c : Cursor) :
  length npz_list = length npz_size_list ->
  0 <= g < py_sum npz_size_list ->
  resolve None g = inr (Some c) ->
  exists i s,
    npz_list !! i = Some (cur_npz_file c) /\ npz_size_list !! i = Some s /\
    0 <= cur_npz_idx c < s.
Proof.
  intros Hlen Hg Hres. unfold Clustering.resolve, bind, or_raise in Hres.
  change 0 with (Z.of_nat 0) in Hres at 1. rewrite py_index_nat in Hres.
  destruct (npz_size_list !! 0%nat) as [s0|] eqn:Hs0; [|discriminate].
  destruct (Z.ltb_spec g (s0 - 1)).
  { change 0 with (Z.of_nat 0) in Hres. rewrite py_index_nat in Hres.
    destruct (npz_list !! 0%nat) as [f|] eqn:Hf; [|discriminate].
    inversion Hres; subst c. exists 0%nat, s0. cbn. repeat split; try assumption; lia. }
  rewrite py_slice_to_last in Hres.
  destruct (Z.ltb_spec (py_sum (firstn (Nat.pred (length npz_size_list)) npz_size_list) - 1) g).
  { rewrite py_index_last in Hres.
    destruct (npz_list !! Nat.pred (length npz_list)) as [f|] eqn:Hf; [|discriminate].
    inversion Hres; subst c. cbn.
    destruct (lookup_lt_is_Some_2 npz_size_list (Nat.pred (length npz_size_list)))
      as [s Hs].
    { apply lookup_lt_Some in Hs0. lia. }
    exists (Nat.pred (length npz_size_list)), s.
    rewrite <- Hlen at 1. repeat split; try assumption; try lia.
    rewrite (py_sum_snoc_lookup _ _ Hs) in Hg. lia. }
  destruct (scan_archives_in_bounds (seq 1 (Nat.pred (length npz_size_list))) g c)
    as (i & s & Hf & Hs & Hb & _).
  - apply List.Forall_forall. intros i Hi. apply in_seq in Hi. lia.
  - exact Hres.
  - exists i, s. repeat split; try assumption; lia.
Qed.

(** The two outer branches give the archive that owns the index. *)
Lemma resolve_outer (prev : option Cursor) (g : Z) :
  length npz_list = length npz_size_list ->
  Forall (fun s => 0 <= s) npz_size_list ->
  0 <= g < hd 0 npz_size_list - 1 \/
  py_sum (removelast npz_size_list) <= g < py_sum npz_size_list ->
  exists c, resolve prev g = inr (Some c) /\
            resolved_as_specified npz_list npz_size_list g c.
Proof.
  intros Hlen Hpos Hg. unfold Clustering.resolve, bind, or_raise.
  destruct npz_size_list as [|s0 rest] eqn:Hsizes.
  { exfalso. cbn in Hg. unfold py_sum in Hg. cbn in Hg. lia. }
  rewrite <- Hsizes in *. 
  destruct npz_list as [|f0 files] eqn:Hfiles.
  { rewrite Hsizes in Hlen. discriminate. }
  rewrite <- Hfiles in *.
  change 0 with (Z.of_nat 0) at 1. rewrite py_index_nat.
  replace (npz_size_list !! 0%nat) with (Some s0) by now rewrite Hsizes.
  assert (Hhd : hd 0 npz_size_list = s0) by now rewrite Hsizes.
  assert (Hfirst : py_sum (firstn 1 npz_size_list) = s0).
  { rewrite Hsizes. unfold py_sum. simpl. reflexivity. }
  assert (Hrl : removelast npz_size_list
                = firstn (Nat.pred (length npz_size_list)) npz_size_list).
  { rewrite removelast_firstn_len. reflexivity. }
  destruct (Z.ltb_spec g (s0 - 1)) as [Hlt|Hge].
  - (* first branch *)
    change 0 with (Z.of_nat 0). rewrite py_index_nat.
    replace (npz_list !! 0%nat) with (Some f0) by now rewrite Hfiles.
    eexists. split; [reflexivity|]. exists 0%nat. cbn [cur_npz_file cur_npz_idx].
    assert (H0 : 0 <= g).
    { destruct Hg as [?|Hg]; [lia|].
      pose proof (prefix_sums_monotone _ Hpos 0 (Nat.pred (length npz_size_list))
                    ltac:(lia)) as Hm.
      rewrite <- Hrl in Hm. change (py_sum (firstn 0 npz_size_list)) with 0 in Hm. lia. }
    unfold owns. rewrite Hfirst. change (py_sum (firstn 0 npz_size_list)) with 0.
    repeat split; try lia. now rewrite Hfiles.
  - (* second branch *)
    destruct Hg as [Hg|Hg]; [lia|].
    rewrite py_slice_to_last, <- Hrl.
    destruct (Z.ltb_spec (py_sum (removelast npz_size_list) - 1) g); [|lia].
    rewrite py_index_last.
    destruct (lookup_lt_is_Some_2 npz_list (Nat.pred (length npz_list))) as [f Hf].
    { rewrite Hfiles. simpl. lia. }
    rewrite Hf. eexists. split; [reflexivity|].
    exists (Nat.pred (length npz_size_list)). cbn [cur_npz_file cur_npz_idx].
    unfold owns. rewrite <- Hrl.
    replace (S (Nat.pred (length npz_size_list))) with (length npz_size_list)
      by (rewrite Hsizes; simpl; lia).
    rewrite firstn_all. rewrite <- Hlen. repeat split; try lia. exact Hf.
Qed.

(** *** The stream of collected pairs *)

Lemma stream_flush (st : State Image Label) :
  stream_images (flush st) = stream_images st /\
  stream_labels (flush st) = stream_labels st /\
  exists new, written (flush st) = written st ++ new.
Proof.
  unfold flush, stream_images, stream_labels.
  destruct (save_lim <=? _); cbn [written im_arr lbl_arr].
  - rewrite !map_app, !concat_app. cbn. rewrite !app_nil_r. eauto.
  - repeat split. exists []. now rewrite app_nil_r.
Qed.

(** One iteration adds at most one image and one label at the end of the
    stream, exactly one of each when it raises nothing. *)
Lemma step_stream (st : State Image Label) (g : Z) :
  let r := step st g in
  exists new imgs lbls,
    written (fst r) = written st ++ new /\
    stream_images (fst r) = stream_images st ++ imgs /\
    stream_labels (fst r) = stream_labels st ++ lbls /\
    (snd r = None -> length imgs = 1%nat /\ length lbls = 1%nat).
Proof.
  unfold Clustering.step.
  destruct (resolve (cursor st) g) as [e|[c|]]; cbn zeta.
  1,3: exists [], [], []; cbn; rewrite !app_nil_r; repeat split; discriminate.
  destruct (load_image disk c) as [e|img].
  { exists [], [], []. unfold stream_images, stream_labels. cbn.
    rewrite !app_nil_r. repeat split; discriminate. }
  destruct (load_label chosen_dict c) as [e|lbl].
  { exists [], [img], []. unfold stream_images, stream_labels. cbn.
    rewrite !app_nil_r, app_assoc. repeat split; discriminate. }
  cbn [fst snd].
  match goal with |- context [flush ?s] => destruct (stream_flush s) as (Hi & Hl & new & Hw) end.
  exists new, [img], [lbl]. rewrite Hi, Hl, Hw.
  unfold stream_images, stream_labels. cbn. rewrite !app_assoc. repeat split.
Qed.

(** The archives written are never rewritten, dropped or reordered: a run
    from any state, whether it ends normally or with an exception, only
    adds archives after those already written, and only adds images and
    labels at the end of what was collected; when it ends normally it has
    added one image and one label for every index. *)
Theorem archives_append_only (rand_idx : list Z) : forall st : State Image Label,
  let r := run rand_idx st in
  exists new imgs lbls,
    written (fst r) = written st ++ new /\
    stream_images (fst r) = stream_images st ++ imgs /\
    stream_labels (fst r) = stream_labels st ++ lbls /\
    (snd r = None -> length imgs = length rand_idx /\ length lbls = length rand_idx).
Proof.
  induction rand_idx as [|g rest IH]; intros st; cbn zeta; simpl.
  - exists [], [], []. rewrite !app_nil_r. repeat split.
  - destruct (step_stream st g) as (new1 & imgs1 & lbls1 & Hw1 & Hi1 & Hl1 & Hn1).
    destruct (step st g) as [st1 [e|]] eqn:Hstep; cbn [fst snd] in *.
    + exists new1, imgs1, lbls1. repeat split; try assumption; discriminate.
    + destruct (IH st1) as (new2 & imgs2 & lbls2 & Hw2 & Hi2 & Hl2 & Hn2).
      exists (new1 ++ new2), (imgs1 ++ imgs2), (lbls1 ++ lbls2).
      rewrite Hw2, Hi2, Hl2, Hw1, Hi1, Hl1, !app_assoc. repeat split.
      all: match goal with H : snd _ = None |- _ => destruct (Hn1 eq_refl), (Hn2 H) end.
      all: rewrite length_app; simpl; lia.
Qed.

(** The two outer branches of the resolution are right: an index of the
    first archive other than its last one, and any index of the last
    archive, is given the archive that owns it and its offset there. *)
Theorem resolve_outer_branches_right (prev : option Cursor) (g : Z) :
  length npz_list = length npz_size_list ->
  Forall (fun s => 0 <= s) npz_size_list ->
  0 <= g < hd 0 npz_size_list - 1 \/
  py_sum (removelast npz_size_list) <= g < py_sum npz_size_list ->
  exists c, resolve prev g = inr (Some c) /\
            resolved_as_specified npz_list npz_size_list g c.
Proof. apply resolve_outer. Qed.

(** An index in range that is resolved is given an offset inside the
    archive it is given, also when that archive is not the one that owns
    the index: when the archives on disk have the sizes listed, loading the
    image raises no [IndexError] and does not wrap around. *)
Theorem resolved_offset_in_bounds (g : Z) (c : Cursor) :
  length npz_list = length npz_size_list ->
  0 <= g < py_sum npz_size_list ->
  (forall i file s,
     npz_list !! i = Some file -> npz_size_list !! i = Some s ->
     exists arr, disk !! file = Some arr /\ Z.of_nat (length arr) = s) ->
  resolve None g = inr (Some c) ->
  exists i s img,
    npz_list !! i = Some (cur_npz_file c) /\ npz_size_list !! i = Some s /\
    0 <= cur_npz_idx c < s /\
    load_image disk c = inr img.
Proof.
  intros Hlen Hg Hdisk Hres.
  destruct (resolve_fresh_in_bounds g c Hlen Hg Hres) as (i & s & Hf & Hs & Hb).
  destruct (Hdisk i _ s Hf Hs) as (arr & Harr & Hsize).
  destruct (lookup_lt_is_Some_2 arr (Z.to_nat (cur_npz_idx c))) as [img Himg]; [lia|].
  exists i, s, img. repeat split; try assumption; try lia.
  unfold load_image, bind, or_raise. rewrite Harr.
  rewrite <- (Z2Nat.id (cur_npz_idx c)) by lia. now rewrite py_index_nat, Himg.
Qed.

(** An index that no branch resolves leaves [cur_npz_file] and
    [cur_npz_idx] as the previous iteration set them, so the image and the
    label of the previous index are collected a second time; nothing is
    raised. *)
Theorem unresolved_index_repeats_previous_image (st : State Image Label) (g : Z)
    (c : Cursor) (img : Image) (lbl : Label) :
  resolve None g = inr None ->
  cursor st = Some c ->
  load_image disk c = inr img ->
  load_label chosen_dict c = inr lbl ->
  resolve (cursor st) g = inr (Some c) /\
  step st g
  = (flush {| im_arr := im_arr st ++ [img]; lbl_arr := lbl_arr st ++ [lbl];
              save_idx := save_idx st; cursor := Some c;
              written := written st |}, None).
Proof.
  intros Hnone Hc Himg Hlbl.
  assert (Hres : resolve (cursor st) g = inr (Some c)).
  { rewrite resolve_prev, Hnone, Hc. reflexivity. }
  split; [exact Hres|].
  unfold Clustering.step. rewrite Hres, Himg, Hlbl. reflexivity.
Qed.

End Resolution.


Section SingleArchive.

Context {Image Label : Type}.
Variable chosen_dict : gmap string Label.
Variable disk : gmap string (list Image).
Variables (f : string) (n : Z) (arr : list Image) (key : string) (lbl : Label).

Hypothesis on_disk : disk !! f = Some arr.
Hypothesis size_listed : Z.of_nat (length arr) = n.
Hypothesis class_of_path : class_key f = Some key.
Hypothesis class_chosen : chosen_dict !! key = Some lbl.

Lemma resolve_single (prev : option Cursor) (g : Z) :
  0 <= g < n -> resolve [f] [n] prev g = inr (Some (mkCursor f g)).
Proof.
  intros Hg. unfold resolve, bind, or_raise.
  change (py_index [n] 0) with (Some n). cbn iota.
  destruct (Z.ltb_spec g (n - 1)); [reflexivity|].
  change (py_sum (py_slice_to [n] (-1))) with 0.
  destruct (Z.ltb_spec (0 - 1) g); [|lia].
  change (py_index [f] (-1)) with (Some f). cbn iota.
  now rewrite Z.sub_0_r.
Qed.

Lemma step_single (st : State Image Label) (g : Z) :
  0 <= g < n ->
  exists img,
    arr !! Z.to_nat g = Some img /\
    step [f] [n] chosen_dict disk st g
    = (flush {| im_arr := im_arr st ++ [img]; lbl_arr := lbl_arr st ++ [lbl];
                save_idx := save_idx st; cursor := Some (mkCursor f g);
                written := written st |}, None).
Proof.
  intros Hg. destruct (lookup_lt_is_Some_2 arr (Z.to_nat g)) as [img Himg]; [lia|].
  exists img. split; [exact Himg|].
  unfold step. rewrite (resolve_single _ _ Hg).
  unfold load_image, load_label, bind, or_raise. cbn [cur_npz_file cur_npz_idx].
  rewrite on_disk, class_of_path, class_chosen.
  unfold py_index.
  destruct (Z.leb_spec 0 g); [|lia].
  destruct (Z.ltb_spec g (Z.of_nat (length arr))); [|lia].
  cbn [andb]. now rewrite Himg.
Qed.

Lemma run_single (rand_idx : list Z) : forall st : State Image Label,
  Forall (fun g => 0 <= g < n) rand_idx ->
  exists st',
    run [f] [n] chosen_dict disk rand_idx st = (st', None) /\
    map Some (stream_images st')
    = map Some (stream_images st) ++ map (fun g => arr !! Z.to_nat g) rand_idx /\
    stream_labels st' = stream_labels st ++ repeat lbl (length rand_idx).
Proof.
  induction rand_idx as [|g rest IH]; intros st Hall; simpl.
  - exists st. rewrite !app_nil_r. repeat split.
  - pose proof (List.Forall_inv Hall) as Hg. pose proof (List.Forall_inv_tail Hall) as Hrest.
    destruct (step_single st g Hg) as (img & Himg & Hstep). rewrite Hstep.
    destruct (IH (flush {| im_arr := im_arr st ++ [img]; lbl_arr := lbl_arr st ++ [lbl];
                           save_idx := save_idx st; cursor := Some (mkCursor f g);
                           written := written st |}) Hrest)
      as (st' & Hrun & Hi & Hl).
    exists st'. split; [exact Hrun|].
    destruct (stream_flush {| im_arr := im_arr st ++ [img]; lbl_arr := lbl_arr st ++ [lbl];
                              save_idx := save_idx st; cursor := Some (mkCursor f g);
                              written := written st |}) as (Hfi & Hfl & _).
    rewrite Hi, Hl, Hfi, Hfl. unfold stream_images, stream_labels.
    cbn [written im_arr lbl_arr]. rewrite Himg.
    rewrite !app_assoc, !map_app. cbn [map]. rewrite <- !app_assoc. split; reflexivity.
Qed.

(** With a single source archive the script is right: run on indices of
    the archive it raises nothing, and the images collected (those of the
    archives written, then those of the buffer) are the images at the
    sampled indices, in the order sampled, each with the label of the
    class of the archive. *)
Theorem single_archive_sampled_in_order (rand_idx : list Z) :
  Forall (fun g => 0 <= g < n) rand_idx ->
  exists st,
    script [f] [n] chosen_dict disk rand_idx = (st, None) /\
    map Some (stream_images st) = map (fun g => arr !! Z.to_nat g) rand_idx /\
    stream_labels st = repeat lbl (length rand_idx).
Proof.
  intros Hall. destruct (run_single rand_idx init Hall) as (st & Hrun & Hi & Hl).
  exists st. split; [exact Hrun|]. split; [exact Hi|exact Hl].
Qed.

End SingleArchive.

(** *** The label key of an archive *)

Lemma string_app_cons (c : ascii) (s t : string) :
  (String c s ++ t)%string = String c (s ++ t)%string.
Proof. reflexivity. Qed.

Lemma string_app_nil_r (s : string) : (s ++ "")%string = s.
Proof.
  induction s as [|c s IH]; [reflexivity|]. now rewrite string_app_cons, IH.
Qed.

Lemma string_app_assoc (a b c : string) :
  ((a ++ b) ++ c)%string = (a ++ (b ++ c))%string.
Proof.
  induction a as [|x a IH]; [reflexivity|]. now rewrite !string_app_cons, IH.
Qed.

Lemma starts_with_app (p t : string) : starts_with p (p ++ t) = true.
Proof.
  induction p as [|c p IH]; [reflexivity|].
  rewrite string_app_cons. cbn [starts_with]. now rewrite Ascii.eqb_refl.
Qed.

(** A string without the separator is one piece. *)
Lemma split_scan_none (sep : string) (t : string) : forall cur,
  occurs sep t = false -> split_scan sep O cur t = [(cur ++ t)%string].
Proof.
  induction t as [|c t IH]; intros cur Hocc.
  - cbn [split_scan]. now rewrite string_app_nil_r.
  - cbn [occurs] in Hocc. apply orb_false_elim in Hocc. destruct Hocc as [Hs Ht].
    cbn [split_scan]. rewrite Hs, (IH _ Ht), string_app_assoc. reflexivity.
Qed.

(** The characters of a separator already found are passed over. *)
Lemma split_scan_skip (sep : string) (u t : string) : forall cur,
  split_scan sep (String.length u) cur (u ++ t) = split_scan sep O cur t.
Proof.
  induction u as [|c u IH]; intros cur; [reflexivity|].
  rewrite string_app_cons. cbn [String.length split_scan]. apply IH.
Qed.

Lemma string_app_nil_l (t : string) : ("" ++ t)%string = t.
Proof. reflexivity. Qed.

(** Decide the comparisons of a [starts_with] whose pattern is known. *)
Ltac starts_with_cases :=
  rewrite ?string_app_cons, ?string_app_nil_l; cbn [starts_with];
  repeat match goal with
         | |- context [Ascii.eqb ?a ?b] =>
             first [ is_var b; destruct (Ascii.eqb a b)
                   | let v := eval vm_compute in (Ascii.eqb a b) in
                     change (Ascii.eqb a b) with v ];
             cbn iota
         end.

(** [s.split('/')[0]]: the first piece ends at the first slash. *)
Lemma split_slash_first (cls name : string) : forall cur,
  occurs "/" cls = false ->
  exists rest,
    split_scan "/" O cur (cls ++ "/" ++ name) = (cur ++ cls)%string :: rest.
Proof.
  induction cls as [|c cls IH]; intros cur Hocc.
  - rewrite string_app_nil_l, string_app_cons, string_app_nil_l, string_app_nil_r.
    cbn [split_scan starts_with]. rewrite Ascii.eqb_refl. eauto.
  - cbn [occurs starts_with] in Hocc. apply orb_false_elim in Hocc.
    destruct Hocc as [Hc Hcls].
    rewrite string_app_cons. cbn [split_scan starts_with].
    destruct (Ascii.eqb "/" c); [discriminate|].
    destruct (IH (cur ++ String c "")%string Hcls) as [rest Hrest].
    rewrite Hrest, string_app_assoc. eauto.
Qed.

(** No occurrence of ['downloads/'] overlaps the next one. *)
Lemma downloads_no_overlap (c : ascii) (u t : string) :
  starts_with "downloads/" (String c u ++ "downloads/" ++ t) = true ->
  (9 <= String.length u)%nat.
Proof.
  destruct u as [|c1 [|c2 [|c3 [|c4 [|c5 [|c6 [|c7 [|c8 [|c9 u]]]]]]]]];
    try (cbn [String.length]; lia).
  all: starts_with_cases; discriminate.
Qed.

(** [s.split('downloads/')[-1]]: the last piece starts after the last
    occurrence. *)
Lemma split_downloads_last (t : string) :
  occurs "downloads/" t = false ->
  forall pre skip cur,
    (skip <= String.length pre)%nat ->
    exists l, split_scan "downloads/" skip cur (pre ++ "downloads/" ++ t) = l ++ [t].
Proof.
  intros Hocc. induction pre as [|c pre IH]; intros skip cur Hskip.
  - cbn [String.length] in Hskip. replace skip with O by lia.
    rewrite string_app_nil_l.
    pose proof (starts_with_app "downloads/" t) as Hs.
    rewrite string_app_cons in *. cbn [split_scan]. rewrite Hs.
    cbn [String.length Nat.pred].
    rewrite (split_scan_skip "downloads/" "ownloads/" t).
    rewrite (split_scan_none _ _ _ Hocc). exists [cur]. reflexivity.
  - rewrite string_app_cons. destruct skip as [|k]; cbn [split_scan].
    + rewrite <- string_app_cons.
      destruct (starts_with _ _) eqn:Hs.
      * apply downloads_no_overlap in Hs. cbn [String.length Nat.pred].
        destruct (IH 9%nat ""%string Hs) as [l Hl]. rewrite Hl.
        exists (cur :: l). reflexivity.
      * apply IH. lia.
    + apply IH. cbn [String.length] in Hskip. lia.
Qed.

(** The label key of a path is the directory below the last
    ['downloads/']: for [pre + 'downloads/' + cls + '/' + name], where
    [cls] holds no slash and no ['downloads/'] occurs after [pre], the key
    looked up in [chosen_dict] is [cls], whatever [pre] is. *)
Theorem label_key_is_class_directory (pre cls name : string) :
  occurs "/" cls = false ->
  occurs "downloads/" (cls ++ "/" ++ name) = false ->
  class_key (pre ++ "downloads/" ++ cls ++ "/" ++ name) = Some cls.
Proof.
  intros Hcls Htail. unfold class_key, py_split.
  destruct (split_downloads_last _ Htail pre O ""%string ltac:(lia)) as [l Hl].
  rewrite Hl.
  assert (Hlast : py_index (l ++ [(cls ++ "/" ++ name)%string]) (-1)
                  = Some (cls ++ "/" ++ name)%string).
  { unfold py_index. rewrite length_app. cbn [length].
    change (0 <=? -1) with false. cbn [andb]. change (-1 <? 0) with true.
    destruct (Z.leb_spec (- Z.of_nat (length l + 1)) (-1)); [|lia]. cbn [andb].
    replace (Z.to_nat (Z.of_nat (length l + 1) + -1)) with (length l + 0)%nat by lia.
    rewrite lookup_app_r by lia. now replace (length l + 0 - length l)%nat with O by lia. }
  rewrite Hlast.
  destruct (split_slash_first cls name ""%string Hcls) as [rest Hrest].
  rewrite Hrest, string_app_nil_l. reflexivity.
Qed.

(** *** The properties above on concrete archives *)

Lemma resolve_outer_branches_right_witness :
  exists c, resolve three_files three_sizes None 9 = inr (Some c) /\
            resolved_as_specified three_files three_sizes 9 c.
Proof.
  apply (resolve_outer_branches_right three_files three_sizes None 9).
  - reflexivity.
  - repeat constructor; discriminate.
  - right. vm_compute. split; [discriminate|reflexivity].
Defined.

Lemma three_disk_sizes (i : nat) (file : string) (s : Z) :
  three_files !! i = Some file -> three_sizes !! i = Some s ->
  exists arr, three_disk !! file = Some arr /\ Z.of_nat (length arr) = s.
Proof.
  destruct i as [|[|[|i]]]; cbn; intros Hf Hs; try discriminate.
  all: inversion Hf; inversion Hs; eexists; split; reflexivity.
Defined.

Lemma resolved_offset_in_bounds_witness :
  exists i s img,
    three_files !! i = Some "downloads/dog/dog.npz" /\ three_sizes !! i = Some s /\
    0 <= 2 < s /\
    load_image three_disk (mkCursor "downloads/dog/dog.npz" 2) = inr img.
Proof.
  apply (resolved_offset_in_bounds three_files three_sizes three_disk 2
           (mkCursor "downloads/dog/dog.npz" 2)).
  - reflexivity.
  - vm_compute. split; [discriminate|reflexivity].
  - exact three_disk_sizes.
  - reflexivity.
Defined.

Lemma unresolved_index_repeats_previous_image_witness :
  resolve three_files three_sizes (cursor after_index_0) 6
  = inr (Some (mkCursor "downloads/cat/cat.npz" 0)) /\
  step three_files three_sizes three_dict three_disk after_index_0 6
  = (flush {| im_arr := im_arr after_index_0 ++ [10%nat];
              lbl_arr := lbl_arr after_index_0 ++ [0%nat];
              save_idx := save_idx after_index_0;
              cursor := Some (mkCursor "downloads/cat/cat.npz" 0);
              written := written after_index_0 |}, None).
Proof.
  apply (unresolved_index_repeats_previous_image three_files three_sizes three_dict
           three_disk after_index_0 6 (mkCursor "downloads/cat/cat.npz" 0)
           10%nat 0%nat); reflexivity.
Defined.

Example index_6_duplicates_index_0 :
  fst (script three_files three_sizes three_dict three_disk [0; 6])
  = {| im_arr := [10%nat; 10%nat]; lbl_arr := [0%nat; 0%nat]; save_idx := 1;
       cursor := Some (mkCursor "downloads/cat/cat.npz" 0); written := [] |}.
Proof. vm_compute. reflexivity. Qed.

Lemma single_archive_sampled_in_order_witness :
  exists st,
    script ["downloads/cat/cat.npz"] [4] one_dict four_disk [3; 0; 2] = (st, None) /\
    map Some (stream_images st)
    = map (fun g => [10%nat; 11%nat; 12%nat; 13%nat] !! Z.to_nat g) [3; 0; 2] /\
    stream_labels st = repeat 7%nat (length [3; 0; 2]).
Proof.
  apply (single_archive_sampled_in_order one_dict four_disk "downloads/cat/cat.npz" 4
           [10%nat; 11%nat; 12%nat; 13%nat] "cat" 7%nat).
  - reflexivity.
  - reflexivity.
  - reflexivity.
  - reflexivity.
  - repeat constructor; discriminate.
Defined.

Lemma label_key_is_class_directory_witness :
  class_key ("/data/imagenet/" ++ "downloads/" ++ "cat" ++ "/" ++ "cat.npz") = Some "cat".
Proof.
  apply (label_key_is_class_directory "/data/imagenet/" "cat" "cat.npz"); reflexivity.
Defined.

End ClusteringFacts.

(** ** Facts about train.py *)

Module TrainFacts.

Import Train PyFacts.

Section Logic.

Context {F : Framework} {MeterT : Type} {meterT : Meter MeterT}.

(** *** Reasoning about statements *)

Lemma wp_mthen {A B} (m : M A) (k : A -> M B) Q E st :
  wp m (fun a st' => wp (k a) Q E st') E st -> wp (mthen m k) Q E st.
Proof.
  unfold wp, mthen. destruct (m st) as [st' [e|a]]; intros H; exact H.
Qed.

Lemma wp_mreturn {A} (a : A) (Q : A -> St -> Prop) E st :
  Q a st -> wp (mreturn a) Q E st.
Proof. intros H; exact H. Qed.

Lemma wp_mthrow {A} (e : exn) (Q : A -> St -> Prop) (E : exn -> St -> Prop) st :
  E e st -> wp (mthrow e) Q E st.
Proof. intros H; exact H. Qed.

Lemma wp_get {A} (f : St -> A) (Q : A -> St -> Prop) E st :
  Q (f st) st -> wp (get f) Q E st.
Proof. intros H; exact H. Qed.

Lemma wp_modify (f : St -> St) (Q : unit -> St -> Prop) E st :
  Q tt (f st) -> wp (modify f) Q E st.
Proof. intros H; exact H. Qed.

Lemma wp_emit (ev : Event) (Q : unit -> St -> Prop) E st :
  Q tt (set_trace (trace st ++ [ev]) st) -> wp (emit ev) Q E st.
Proof. intros H; exact H. Qed.

Lemma wp_local {A} (f : St -> option A) name (Q : A -> St -> Prop)
    (E : exn -> St -> Prop) st :
  match f st with
  | Some a => Q a st
  | None => E (UnboundLocalError name) st
  end ->
  wp (local f name) Q E st.
Proof. unfold wp, local. destruct (f st); intros H; exact H. Qed.

Lemma wp_lift {A} (r : result A) (Q : A -> St -> Prop) (E : exn -> St -> Prop) st :
  match r with
  | inr a => Q a st
  | inl e => E e st
  end ->
  wp (lift r) Q E st.
Proof. unfold wp, lift. destruct r; intros H; exact H. Qed.

Lemma wp_iterate (l : Loader) (Q : list Batch -> St -> Prop) E st :
  Q (l (passes st)) (set_passes (S (passes st)) st) -> wp (iterate l) Q E st.
Proof. intros H; exact H. Qed.

Lemma wp_assert (cond : bool) msg (Q : unit -> St -> Prop)
    (E : exn -> St -> Prop) st :
  (cond = true -> Q tt st) ->
  (cond = false -> E (AssertionError msg) st) ->
  wp (assert cond msg) Q E st.
Proof.
  unfold assert. destruct cond; intros H1 H2; [apply H1|apply H2]; reflexivity.
Qed.

Lemma wp_weaken {A} (m : M A) (Q Q' : A -> St -> Prop) (E E' : exn -> St -> Prop) st :
  wp m Q E st ->
  (forall a st', Q a st' -> Q' a st') ->
  (forall e st', E e st' -> E' e st') ->
  wp m Q' E' st.
Proof.
  unfold wp. destruct (m st) as [st' [e|a]]; intros H HQ HE; auto.
Qed.

(** What a statement did, read back from [wp]. *)
Lemma wp_run {A} (m : M A) Q E st st' r :
  wp m Q E st -> m st = (st', r) ->
  match r with
  | inr a => Q a st'
  | inl e => E e st'
  end.
Proof. unfold wp. intros H Hrun. rewrite Hrun in H. destruct r; exact H. Qed.

End Logic.

(** One step of symbolic execution of a statement. *)
Ltac wp_step :=
  lazymatch goal with
  | |- wp (mthen _ _) _ _ _ => apply wp_mthen
  | |- wp (mreturn _) _ _ _ => apply wp_mreturn
  | |- wp (mthrow _) _ _ _ => apply wp_mthrow
  | |- wp (get _) _ _ _ => apply wp_get
  | |- wp (modify _) _ _ _ => apply wp_modify
  | |- wp (emit _) _ _ _ => apply wp_emit
  | |- wp (iterate _) _ _ _ => apply wp_iterate
  | |- wp (local _ _) _ _ _ => apply wp_local
  | |- wp (lift _) _ _ _ => apply wp_lift
  | |- wp (assert _ _) _ _ _ => apply wp_assert; intros ?
  end.

Section Passes.

Context {F : Framework} {MeterT : Type} {meterT : Meter MeterT}.

(** *** [accuracy] *)

Lemma length_pos_nonempty {A} (l : list A) :
  l <> [] -> (Z.of_nat (length l) =? 0) = false.
Proof.
  intros Hl. destruct l as [|x l]; [congruence|]. apply Z.eqb_neq. simpl length. lia.
Qed.

(** With [topk=(1, 1)] both percentages are the top-1 accuracy. *)
Lemma accuracy_1_1 (output : Output) (target : list Z) :
  target <> [] ->
  accuracy output target [1; 1] false
  = inr (Percentages [top1_percent output target; top1_percent output target]).
Proof.
  intros Hl. unfold accuracy, top1_percent. cbn [py_max fold_left bind ret].
  change (1 <? 1) with false. cbn [accuracy_res bind ret].
  rewrite (length_pos_nonempty target Hl). reflexivity.
Qed.

Lemma accuracy_1_1_empty (output : Output) :
  accuracy output [] [1; 1] false = inl ZeroDivisionError.
Proof. reflexivity. Qed.

Lemma accuracy_1_1_track (output : Output) (target : list Z) :
  accuracy output target [1; 1] true
  = inr (Correct (concat (py_slice_to (eq_target (topk_t output 1) target) 1))).
Proof. reflexivity. Qed.

(** *** The one-hot matrix *)

Lemma one_hot_ok args lf (batches : list Batch) (b : Batch) :
  one_hot_buildable args lf batches -> In b batches ->
  one_hot args lf (snd b) = inr tt.
Proof.
  intros H Hin. unfold one_hot.
  destruct (String.eqb_spec lf "l2") as [Hlf|_]; [|reflexivity].
  destruct (H Hlf) as [HC Hall].
  destruct (Z.ltb_spec (num_classes args) 0); [lia|].
  rewrite List.Forall_forall in Hall. specialize (Hall b Hin).
  rewrite List.Forall_forall in Hall.
  replace (forallb _ (snd b)) with true; [reflexivity|].
  symmetry. apply forallb_forall. intros t Ht. specialize (Hall t Ht).
  apply andb_true_intro. split; [apply Z.leb_le|apply Z.ltb_lt]; lia.
Qed.

Lemma one_hot_error args lf (target : list Z) e :
  one_hot args lf target = inl e ->
  lf = "l2" /\
  (e = IndexError \/ e = ValueError "negative dimensions are not allowed").
Proof.
  unfold one_hot. destruct (String.eqb_spec lf "l2") as [Hlf|_]; [|discriminate].
  destruct (_ <? _); [intros H; inversion H; auto|].
  destruct (forallb _ _); [discriminate|]. intros H; inversion H; auto.
Qed.

(** A matrix that is built is one of buildable batches. *)
Lemma one_hot_built args lf (b : Batch) :
  one_hot args lf (snd b) = inr tt -> one_hot_buildable args lf [b].
Proof.
  unfold one_hot, one_hot_buildable. intros H Hlf. subst lf. cbn in H.
  destruct (Z.ltb_spec (num_classes args) 0); [discriminate|].
  destruct (forallb _ (snd b)) eqn:Hall; [|discriminate].
  split; [lia|]. constructor; [|constructor].
  apply List.Forall_forall. intros t Ht.
  rewrite forallb_forall in Hall. specialize (Hall t Ht).
  apply andb_prop in Hall. destruct Hall as [H1 H2].
  apply Z.leb_le in H1. apply Z.ltb_lt in H2. lia.
Qed.

Lemma one_hot_buildable_cons args lf (b : Batch) (rest : list Batch) :
  one_hot_buildable args lf (b :: rest) ->
  one_hot args lf (snd b) = inr tt /\ one_hot_buildable args lf rest.
Proof.
  intros H. split; [apply (one_hot_ok args lf (b :: rest)); [exact H|now left]|].
  intros Hlf. destruct (H Hlf) as [HC Hall]. split; [exact HC|].
  now inversion Hall.
Qed.

(** *** [validate] *)

(** What a batch that is evaluated without an exception has done: both
    accuracy meters took the top-1 accuracy of the batch. *)
Lemma validate_batch_returns args lf (m : Model) c (p p' : Pass) i (b : Batch) :
  validate_batch args lf m c p i b = inr p' ->
  snd b <> [] /\ print_freq args <> 0 /\ one_hot args lf (snd b) = inr tt /\
  top1 p' = meter_update (top1 p) (top1_percent (forward m (fst b)) (snd b))
                         (input_size (fst b)) /\
  top5 p' = meter_update (top5 p) (top1_percent (forward m (fst b)) (snd b))
                         (input_size (fst b)) /\
  corr p' =
    if track_correct args then
      (corr p ++ correct_indices args i
         (concat (py_slice_to (eq_target (topk_t (forward m (fst b)) 1) (snd b)) 1)))%list
    else corr p.
Proof.
  destruct b as [input target]. cbn [fst snd]. unfold validate_batch.
  destruct (one_hot args lf target) as [e|[]]; cbn [bind]; [discriminate|].
  destruct target as [|t target].
  - rewrite accuracy_1_1_empty, accuracy_1_1_track.
    destruct (track_correct args); cbn [bind ret]; discriminate.
  - rewrite accuracy_1_1 by discriminate. rewrite accuracy_1_1_track.
    destruct (Z.eqb_spec (print_freq args) 0) as [|Hpf];
      destruct (track_correct args); cbn [bind ret unpack2 fst snd]; try discriminate.
    all: intros H; inversion H; subst; cbn [top1 top5 corr].
    all: repeat split; try reflexivity; try assumption; discriminate.
Qed.

(** A batch with at least one sample is evaluated without an exception
    when its one-hot matrix can be built and [args.print_freq] is not
    zero. *)
Lemma validate_batch_ok args lf (m : Model) c (p : Pass) i (b : Batch) :
  snd b <> [] -> print_freq args <> 0 -> one_hot args lf (snd b) = inr tt ->
  exists p', validate_batch args lf m c p i b = inr p'.
Proof.
  destruct b as [input target]. cbn [fst snd]. intros Hl Hpf Hhot.
  unfold validate_batch. rewrite Hhot. cbn [bind].
  rewrite (accuracy_1_1 _ _ Hl), accuracy_1_1_track.
  destruct (Z.eqb_spec (print_freq args) 0); [contradiction|].
  destruct (track_correct args); cbn [bind ret unpack2 fst snd]; eexists; reflexivity.
Qed.

Lemma validate_batch_error args lf (m : Model) c (p : Pass) i (b : Batch) e :
  validate_batch args lf m c p i b = inl e -> pass_error e.
Proof.
  destruct b as [input target]. unfold validate_batch.
  destruct (one_hot args lf target) as [e'|[]] eqn:Hhot; cbn [bind].
  { intros H. inversion H; subst e'.
    destruct (one_hot_error _ _ _ _ Hhot) as [_ [->| ->]]; reflexivity. }
  rewrite accuracy_1_1_track.
  destruct target as [|t target].
  - rewrite accuracy_1_1_empty.
    destruct (track_correct args); cbn [bind ret]; intros H; inversion H; exact I.
  - rewrite accuracy_1_1 by discriminate.
    destruct (print_freq args =? 0);
      destruct (track_correct args); cbn [bind ret unpack2 fst snd];
      intros H; inversion H; exact I.
Qed.

(** The accuracy meters of an evaluation pass that raises nothing. *)
Lemma validate_batches_returns args lf (m : Model) c (batches : list Batch) :
  forall (p p' : Pass) i,
    validate_batches args lf m c p i batches = inr p' ->
    top1 p' = accuracy_meter m batches (top1 p) /\
    top5 p' = accuracy_meter m batches (top5 p).
Proof.
  induction batches as [|b rest IH]; intros p p' i Hrun; simpl in Hrun.
  - inversion Hrun; subst. split; reflexivity.
  - destruct (validate_batch args lf m c p i b) as [e|p1] eqn:Hb; [discriminate|].
    cbn [bind] in Hrun.
    destruct (validate_batch_returns _ _ _ _ _ _ _ _ Hb) as (_ & _ & _ & H1 & H5 & _).
    destruct (IH _ _ _ Hrun) as [H1' H5'].
    unfold accuracy_meter in *. cbn [fold_left]. rewrite <- H1, <- H5. auto.
Qed.

(** The two accuracy meters of an evaluation pass receive the same
    updates. *)
Lemma validate_batches_same_meters args lf (m : Model) c (batches : list Batch) :
  forall (p p' : Pass) i,
    top1 p = top5 p ->
    validate_batches args lf m c p i batches = inr p' ->
    top1 p' = top5 p'.
Proof.
  intros p p' i Heq Hrun.
  destruct (validate_batches_returns _ _ _ _ _ _ _ _ Hrun) as [-> ->].
  now rewrite Heq.
Qed.

(** What the loop of [validate] raises. *)
Lemma validate_batches_error args lf (m : Model) c (batches : list Batch) :
  forall (p : Pass) i e,
    validate_batches args lf m c p i batches = inl e -> pass_error e.
Proof.
  induction batches as [|b rest IH]; intros p i e Hrun; simpl in Hrun.
  - discriminate Hrun.
  - destruct (validate_batch args lf m c p i b) as [e1|p1] eqn:Hb; cbn [bind] in Hrun.
    + inversion Hrun; subst. eapply validate_batch_error; exact Hb.
    + eapply IH; exact Hrun.
Qed.

(** The loop of [validate] raises nothing over batches that are not empty
    and whose one-hot matrices can be built, when [args.print_freq] is not
    zero. *)
Lemma validate_batches_ok args lf (m : Model) c (batches : list Batch) :
  print_freq args <> 0 ->
  Forall (fun b : Batch => snd b <> []) batches ->
  one_hot_buildable args lf batches ->
  forall (p : Pass) i,
    exists p',
      validate_batches args lf m c p i batches = inr p' /\
      top1 p' = accuracy_meter m batches (top1 p) /\
      top5 p' = accuracy_meter m batches (top5 p).
Proof.
  intros Hpf Hne. induction Hne as [|b rest Hb _ IH]; intros Hhot p i.
  - exists p. repeat split.
  - destruct (one_hot_buildable_cons _ _ _ _ Hhot) as [Hb1 Hrest].
    destruct (validate_batch_ok args lf m c p i b Hb Hpf Hb1) as [p1 Hp1].
    destruct (IH Hrest p1 (i + 1)) as (p' & Hp' & _).
    assert (Hrun : validate_batches args lf m c p i (b :: rest) = inr p').
    { cbn [validate_batches]. rewrite Hp1. exact Hp'. }
    exists p'. split; [exact Hrun|]. exact (validate_batches_returns _ _ _ _ _ _ _ _ Hrun).
Qed.

(** [validate], statement by statement. *)
Lemma validate_eq args (l : Loader) c (st : St) :
  validate args l c st =
  let st1 := set_passes (S (passes st)) (set_model (eval_model st) st) in
  match validate_batches args (args_loss_func st) (eval_model st) c new_pass 0
                         (l (passes st)) with
  | inl e => (st1, inl e)
  | inr p =>
      if track_correct args then
        match split_outpath args with
        | inl e => (st1, inl e)
        | inr fe =>
            (set_fs (<[(fst fe ++ "_corr.json")%string := CorrectFile (corr p)]> (fs st)) st1,
             inr None)
        end
      else (st1, inr (Some (meter_avg (top1 p), meter_avg (top5 p))))
  end.
Proof.
  unfold validate, mthen, modify, get, iterate, lift, mreturn, eval_model. simpl.
  destruct (validate_batches _ _ _ _ _ _ _) as [e|p]; [reflexivity|].
  destruct (track_correct args); [|reflexivity].
  destruct (split_outpath args) as [e|fe]; reflexivity.
Qed.

(** *** [train] *)

Lemma accuracy_1_5 (output : Output) (target : list Z) :
  target <> [] ->
  exists a1 a5, accuracy output target [1; 5] false = inr (Percentages [a1; a5]).
Proof.
  intros Hl. unfold accuracy. cbn [py_max fold_left bind ret].
  change (1 <? 5) with true. cbn [accuracy_res bind ret].
  rewrite (length_pos_nonempty target Hl). cbn [bind ret]. eauto.
Qed.

Lemma accuracy_1_5_empty (output : Output) :
  accuracy output [] [1; 5] false = inl ZeroDivisionError.
Proof. reflexivity. Qed.

(** What lines 395-401 raise. *)
Lemma group_lr_error args k cur_p e :
  group_lr args k cur_p = inl e ->
  e = IndexError \/ e = KeyError "decay" \/ e = KeyError "lr" \/ e = ZeroDivisionError.
Proof.
  unfold group_lr.
  destruct (truthy (initial_lr_decay args)); cbn [bind ret or_raise].
  - destruct (initial_lr_decay args !! cur_p) as [g|]; cbn [bind or_raise];
      [|intros H; inversion H; auto].
    destruct (g !! "decay") as [d|]; cbn [bind or_raise]; [|intros H; inversion H; auto].
    destruct (truthy (initial_lr args)); cbn [bind ret or_raise].
    + destruct (initial_lr args !! cur_p) as [g'|]; cbn [bind or_raise];
        [|intros H; inversion H; auto].
      destruct (g' !! "lr") as [b|]; cbn [bind or_raise]; [|intros H; inversion H; auto].
      destruct (Qeq_bool d 0); intros H; inversion H; auto.
    + destruct (Qeq_bool d 0); intros H; inversion H; auto.
  - destruct (truthy (initial_lr args)); cbn [bind ret or_raise].
    + destruct (initial_lr args !! cur_p) as [g'|]; cbn [bind or_raise];
        [|intros H; inversion H; auto].
      destruct (g' !! "lr") as [b|]; cbn [bind or_raise]; [|intros H; inversion H; auto].
      destruct (Qeq_bool 512 0); intros H; inversion H; auto.
    + destruct (Qeq_bool 512 0); intros H; inversion H; auto.
Qed.

Lemma set_group_lrs_error args k (groups : list nat) : forall (o o' : Optimizer) e,
  set_group_lrs args k o groups = (o', Some e) ->
  exists cur_p, In cur_p groups /\ group_lr args k cur_p = inl e.
Proof.
  induction groups as [|cur_p rest IH]; intros o o' e Hrun; cbn in Hrun; [discriminate|].
  destruct (group_lr args k cur_p) as [e1|rate] eqn:Hg.
  - inversion Hrun; subst. exists cur_p. split; [now left|exact Hg].
  - destruct (IH _ _ _ Hrun) as (q & Hin & Hq). exists q. split; [now right|exact Hq].
Qed.

Lemma set_group_lrs_ok args k (groups : list nat) :
  (forall cur_p, In cur_p groups -> exists rate, group_lr args k cur_p = inr rate) ->
  forall o : Optimizer, exists o', set_group_lrs args k o groups = (o', None).
Proof.
  induction groups as [|cur_p rest IH]; intros Hok o; cbn; [eauto|].
  destruct (Hok cur_p (or_introl eq_refl)) as [rate ->].
  apply IH. intros q Hq. apply Hok. now right.
Qed.

(** The step of lines 415-442 raises only for a batch without samples,
    and not in the closure branch. *)
Lemma train_step_error args lf c (t t' : Training) (b : Batch) e :
  train_step args lf c t b = (t', Some e) ->
  e = ZeroDivisionError /\ use_LBFGS args = false /\ snd b = [] /\ t' = t.
Proof.
  destruct b as [input target]. unfold train_step.
  destruct (use_LBFGS args); [discriminate|].
  destruct target as [|x target].
  - rewrite accuracy_1_5_empty. cbn [bind]. intros H. inversion H. auto.
  - destruct (accuracy_1_5 (forward (tr_model t) input) (x :: target))
      as (a1 & a5 & Hacc); [discriminate|].
    rewrite Hacc. cbn [bind unpack2 ret]. discriminate.
Qed.

Lemma train_step_ok args lf c (t : Training) (b : Batch) :
  use_LBFGS args = true \/ snd b <> [] ->
  exists t', train_step args lf c t b = (t', None).
Proof.
  destruct b as [input target]. cbn [snd]. intros Hb. unfold train_step.
  destruct (use_LBFGS args) eqn:Hl; [eauto|].
  destruct Hb as [Hb|Hb]; [discriminate|].
  destruct (accuracy_1_5 (forward (tr_model t) input) target Hb) as (a1 & a5 & Hacc).
  rewrite Hacc. cbn [bind unpack2 ret]. eauto.
Qed.

(** What the body of the loop of [train] raises, and why. *)
Lemma train_batch_cause args lf c epoch n (t t' : Training) i (b : Batch) e :
  train_batch args lf c epoch n t i b = (t', Some e) ->
  (e = AssertionError lr_conflict /\
   use_inverse_sqrt_lr args && (0 <? max_lr_adjusting_epoch args) = true /\
   t' = t) \/
  (use_inverse_sqrt_lr args = true /\
   exists cur_p, group_lr args (epoch * n + i) cur_p = inl e) \/
  one_hot args lf (snd b) = inl e \/
  (e = ZeroDivisionError /\ use_LBFGS args = false /\ snd b = []) \/
  (e = ZeroDivisionError /\ print_freq args = 0).
Proof.
  unfold train_batch.
  destruct (use_inverse_sqrt_lr args && (0 <? max_lr_adjusting_epoch args)).
  { intros H. inversion H. left. auto. }
  destruct (use_inverse_sqrt_lr args) eqn:Hinv.
  - destruct (set_group_lrs _ _ _ _) as [o1 [e1|]] eqn:Hset; cbn [fst snd].
    { intros H. inversion H; subst. right. left. split; [reflexivity|].
      destruct (set_group_lrs_error _ _ _ _ _ _ Hset) as (q & _ & Hq). eauto. }
    destruct (one_hot args lf (snd b)) as [e1|u] eqn:Hhot.
    { intros H. inversion H; subst. auto. }
    destruct (train_step _ _ _ _ _) as [t2 [e2|]] eqn:Hstep.
    { intros H. inversion H; subst.
      destruct (train_step_error _ _ _ _ _ _ _ Hstep) as (He & Hl & Hnil & _).
      right. right. right. left. auto. }
    destruct (Z.eqb_spec (print_freq args) 0); intros H; inversion H; subst.
    right. right. right. right. auto.
  - cbn [fst snd].
    destruct (one_hot args lf (snd b)) as [e1|u] eqn:Hhot.
    { intros H. inversion H; subst. auto. }
    destruct (train_step _ _ _ _ _) as [t2 [e2|]] eqn:Hstep.
    { intros H. inversion H; subst.
      destruct (train_step_error _ _ _ _ _ _ _ Hstep) as (He & Hl & Hnil & _).
      right. right. right. left. auto. }
    destruct (Z.eqb_spec (print_freq args) 0); intros H; inversion H; subst.
    right. right. right. right. auto.
Qed.

Lemma train_batch_error args lf c epoch n (t t' : Training) i (b : Batch) e :
  train_batch args lf c epoch n t i b = (t', Some e) -> pass_error e.
Proof.
  intros H. destruct (train_batch_cause _ _ _ _ _ _ _ _ _ _ H)
    as [(-> & _)|[(_ & q & Hq)|[Hhot|[(-> & _)|(-> & _)]]]]; try exact I.
  - destruct (group_lr_error _ _ _ _ Hq) as [->|[->|[->| ->]]]; exact I.
  - destruct (one_hot_error _ _ _ _ Hhot) as [_ [->| ->]]; reflexivity.
Qed.

Lemma train_batches_error args lf c epoch n (batches : list Batch) :
  forall (t t' : Training) i e,
    train_batches args lf c epoch n t i batches = (t', Some e) -> pass_error e.
Proof.
  induction batches as [|b rest IH]; intros t t' i e Hrun; simpl in Hrun.
  - discriminate Hrun.
  - destruct (train_batch args lf c epoch n t i b) as [t1 [e1|]] eqn:Hb.
    + inversion Hrun; subst. eapply train_batch_error; exact Hb.
    + eapply IH; exact Hrun.
Qed.

(** [train] goes through every batch when its assertion does not fire, the
    rates can be set, the one-hot matrices can be built,
    [args.print_freq] is not zero and, unless the closure branch is taken,
    no batch is empty. *)
Lemma train_batches_ok args lf c epoch n (batches : list Batch) :
  use_inverse_sqrt_lr args && (0 <? max_lr_adjusting_epoch args) = false ->
  groups_ok args ->
  print_freq args <> 0 ->
  one_hot_buildable args lf batches ->
  (use_LBFGS args = true \/ Forall (fun b : Batch => snd b <> []) batches) ->
  forall (t : Training) i,
    exists t', train_batches args lf c epoch n t i batches = (t', None).
Proof.
  intros Hassert Hgroups Hpf. induction batches as [|b rest IH]; intros Hhot Hb t i; simpl.
  - eauto.
  - destruct (one_hot_buildable_cons _ _ _ _ Hhot) as [Hb1 Hrest].
    assert (Hstep : exists t1, train_batch args lf c epoch n t i b = (t1, None)).
    { unfold train_batch. rewrite Hassert, Hb1.
      assert (Hset : exists o1,
                (if use_inverse_sqrt_lr args
                 then set_group_lrs args (epoch * n + i) (tr_optimizer t)
                        (seq 0 (param_groups (tr_optimizer t)))
                 else (tr_optimizer t, None)) = (o1, None)).
      { destruct (use_inverse_sqrt_lr args) eqn:Hinv; [|eauto].
        apply set_group_lrs_ok. intros q Hq. apply in_seq in Hq.
        apply (Hgroups Hinv (tr_optimizer t)). lia. }
      destruct Hset as [o1 ->]. cbn [fst snd].
      destruct (train_step_ok args lf c (mkTraining (tr_model t) o1 (tr_pass t)) b)
        as [t2 ->].
      { destruct Hb as [Hb|Hb]; [now left|right]. now inversion Hb. }
      destruct (Z.eqb_spec (print_freq args) 0); [contradiction|eauto]. }
    destruct Hstep as [t1 Ht1]. rewrite Ht1. apply IH; [exact Hrest|].
    destruct Hb as [Hb|Hb]; [now left|right]. now inversion Hb.
Qed.

(** [train], statement by statement. *)
Lemma train_eq args (l : Loader) c o epoch (st : St) :
  train args l c o epoch st =
  let st1 := set_model (set_mode TrainMode (model st)) st in
  let batches := l (passes st) in
  let r := train_batches args (args_loss_func st) c epoch
             (Z.of_nat (length batches)) (train_start st o) 0 batches in
  (set_optimizer (Some (tr_optimizer (fst r)))
     (set_model (tr_model (fst r)) (set_passes (S (passes st)) st1)),
   match snd r with
   | Some e => inl e
   | None => inr tt
   end).
Proof.
  unfold train, mthen, modify, get, iterate, mreturn, mthrow, train_start.
  simpl. destruct (snd (train_batches _ _ _ _ _ _ _ _)); reflexivity.
Qed.

End Passes.

Section Invariant.

Context {F : Framework} {MeterT : Type} {meterT : Meter MeterT}.
Variable train_loader : Loader.
Variable val_loader : Loader.
Variable sub_loader : Loader.
Variable args : Args.
Variable t0 : list Event.

Local Abbreviation keeps := (keeps args t0).
Local Abbreviation invariant := (invariant args t0).

(** *** Statements that keep the invariant *)

Lemma invariant_frame (st st' : St) :
  trace st' = trace st -> train_log st' = train_log st ->
  invariant st -> invariant st'.
Proof. unfold Train.invariant. intros -> ->. tauto. Qed.

Lemma invariant_emit (st : St) (ev : Event) :
  event_ok args ev -> invariant st -> invariant (set_trace (trace st ++ [ev]) st).
Proof.
  intros Hev [(evs & Htr & Hevs) Hlog]. split; [|exact Hlog].
  exists (evs ++ [ev]). simpl. rewrite Htr, app_assoc. split; [reflexivity|].
  apply Forall_app. split; [exact Hevs|]. constructor; [exact Hev|constructor].
Qed.

Lemma not_selection_error (e : exn) :
  match e with
  | ValueError msg => String.get 0 msg <> Some "I"%char
  | _ => True
  end ->
  e <> selection_error args.
Proof.
  unfold selection_error. destruct e; try discriminate.
  intros Hmsg Heq. inversion Heq; subst. apply Hmsg. reflexivity.
Qed.

Lemma keeps_mthen {A B} (m : M A) (k : A -> M B) (R : A -> Prop) (R' : B -> Prop) :
  keeps m R -> (forall a, R a -> keeps (k a) R') -> keeps (mthen m k) R'.
Proof.
  intros Hm Hk st Hst. apply wp_mthen.
  eapply wp_weaken; [apply Hm; exact Hst| |].
  - intros a st' [Hst' Ha]. apply (Hk a Ha st' Hst').
  - intros e st' H. exact H.
Qed.

Lemma keeps_weaken {A} (m : M A) (R R' : A -> Prop) :
  keeps m R -> (forall a, R a -> R' a) -> keeps m R'.
Proof.
  intros Hm HR st Hst. eapply wp_weaken; [apply Hm; exact Hst| |].
  - intros a st' [? ?]. auto.
  - auto.
Qed.

Lemma keeps_mreturn {A} (a : A) (R : A -> Prop) : R a -> keeps (mreturn a) R.
Proof. intros Ha st Hst. apply wp_mreturn. auto. Qed.

Lemma keeps_mthrow {A} (e : exn) (R : A -> Prop) :
  e <> selection_error args -> keeps (mthrow e) R.
Proof. intros He st Hst. apply wp_mthrow. auto. Qed.

Lemma keeps_get {A} (f : St -> A) : keeps (get f) (fun _ => True).
Proof. intros st Hst. apply wp_get. auto. Qed.

Lemma keeps_modify (f : St -> St) :
  (forall st, trace (f st) = trace st) ->
  (forall st, train_log (f st) = train_log st) ->
  keeps (modify f) (fun _ => True).
Proof.
  intros Htr Hlog st Hst. apply wp_modify. split; [|exact I].
  eapply invariant_frame; [apply Htr|apply Hlog|exact Hst].
Qed.

Lemma keeps_emit (ev : Event) : event_ok args ev -> keeps (emit ev) (fun _ => True).
Proof. intros Hev st Hst. apply wp_emit. split; [|exact I]. now apply invariant_emit. Qed.

Lemma keeps_local {A} (f : St -> option A) name : keeps (local f name) (fun _ => True).
Proof.
  intros st Hst. apply wp_local. destruct (f st); split; auto.
  all: now apply not_selection_error.
Qed.

Lemma keeps_iterate (l : Loader) : keeps (iterate l) (fun _ => True).
Proof.
  intros st Hst. apply wp_iterate. split; [|exact I].
  eapply invariant_frame; [| |exact Hst]; reflexivity.
Qed.

Lemma keeps_assert cond msg : keeps (assert cond msg) (fun _ => True).
Proof.
  intros st Hst. apply wp_assert; intros _; split; auto.
  all: now apply not_selection_error.
Qed.

Lemma keeps_if {A} (b : bool) (m1 m2 : M A) (R : A -> Prop) :
  (b = true -> keeps m1 R) -> (b = false -> keeps m2 R) ->
  keeps (if b then m1 else m2) R.
Proof. destruct b; auto. Qed.

(** One step through a statement that keeps the invariant. *)
Ltac keeps_step :=
  lazymatch goal with
  | |- Train.keeps _ _ (mthen _ _) _ => eapply keeps_mthen; [|intros ? ?]
  | |- Train.keeps _ _ (mreturn _) _ =>
      first [ refine (keeps_mreturn _ (fun _ => True) I)
            | refine (keeps_mreturn _ _ _ (fun _ => True) I)
            | apply keeps_mreturn ]
  | |- Train.keeps _ _ (get _) _ => apply keeps_get
  | |- Train.keeps _ _ (emit _) _ => apply keeps_emit
  | |- Train.keeps _ _ (local _ _) _ => apply keeps_local
  | |- Train.keeps _ _ (iterate _) _ => apply keeps_iterate
  | |- Train.keeps _ _ (assert _ _) _ => apply keeps_assert
  | |- Train.keeps _ _ (modify _) _ => apply keeps_modify; intros ?; reflexivity
  | |- Train.keeps _ _ (mthrow _) _ =>
      apply keeps_mthrow; apply not_selection_error; simpl; try exact I; discriminate
  | |- Train.keeps _ _ (if ?b then _ else _) _ => destruct b eqn:?
  end.

Lemma pass_error_not_selection (e : exn) : pass_error e -> e <> selection_error args.
Proof.
  intros Hp. apply not_selection_error. destruct e; try exact I.
  cbn in Hp. subst msg. cbn. discriminate.
Qed.

Lemma keeps_validate (l : Loader) c :
  keeps (validate args l c)
        (fun r => match r with
                  | Some (a, b) => acc_ok (Some (mkAcc a b))
                  | None => True
                  end).
Proof.
  intros st Hst. unfold wp. rewrite validate_eq. cbv zeta.
  assert (Hst1 : invariant (set_passes (S (passes st)) (set_model (eval_model st) st)))
    by (eapply invariant_frame; [| |exact Hst]; reflexivity).
  destruct (validate_batches _ _ _ _ _ _ _) as [e|p] eqn:Hrun.
  - split; [exact Hst1|]. apply validate_batches_error in Hrun.
    now apply pass_error_not_selection.
  - destruct (track_correct args).
    + unfold split_outpath.
      destruct (py_split "." (outpath args)) as [|a [|b [|? ?]]]; simpl;
        split; try exact Hst1; try exact I;
        try (apply not_selection_error; simpl; discriminate).
    + split; [exact Hst1|].
      destruct (validate_batches_returns _ _ _ _ _ _ _ _ Hrun) as [H1 H5].
      rewrite H1, H5. cbn [new_pass top1 top5 acc_ok acc1 acc5].
      split; [reflexivity|].
      exists (eval_model st), (l (passes st)). reflexivity.
Qed.

Lemma keeps_train (l : Loader) c o epoch :
  keeps (train args l c o epoch) (fun _ => True).
Proof.
  intros st Hst. unfold wp. rewrite train_eq. cbv zeta.
  set (r := train_batches _ _ _ _ _ _ _ _).
  assert (Hst1 : invariant
            (set_optimizer (Some (tr_optimizer (fst r)))
               (set_model (tr_model (fst r))
                  (set_passes (S (passes st))
                     (set_model (set_mode TrainMode (model st)) st)))))
    by (eapply invariant_frame; [| |exact Hst]; reflexivity).
  destruct (snd r) as [e|] eqn:He; split; try exact Hst1; try exact I.
  apply pass_error_not_selection.
  eapply train_batches_error. unfold r in He.
  rewrite (surjective_pairing (train_batches _ _ _ _ _ _ _ _)), He. reflexivity.
Qed.

Lemma keeps_define_criterion : keeps define_criterion (fun _ => True).
Proof. unfold define_criterion. repeat keeps_step. Qed.

Lemma keeps_make_optimizer kind params kwargs :
  event_ok args (EvOptimizer kind params (lr args)) ->
  keeps (make_optimizer args kind params kwargs) (fun _ => True).
Proof. intros Hev. unfold make_optimizer. repeat keeps_step. exact Hev. Qed.

Lemma keeps_define_initial_lr : keeps (define_initial_lr args) (fun _ => True).
Proof.
  unfold define_initial_lr. keeps_step; [|keeps_step; exact I].
  apply keeps_make_optimizer. simpl. auto.
Qed.

Lemma keeps_define_scheduler : keeps (define_scheduler args) (fun _ => True).
Proof.
  unfold define_scheduler. repeat keeps_step; try exact I. simpl. auto.
Qed.

Lemma keeps_resume_checkpoint : keeps (resume_checkpoint args) (fun _ => True).
Proof.
  unfold resume_checkpoint. keeps_step; [keeps_step; exact I|].
  keeps_step; [keeps_step|].
  destruct (_ !! _) as [[checkpoint| | |]|]; repeat keeps_step; exact I.
Qed.

Lemma keeps_load_data : keeps (load_data sub_loader args) (fun _ => True).
Proof. unfold load_data. repeat keeps_step; exact I. Qed.

Lemma keeps_prepare_tracking : keeps (prepare_tracking args) (fun _ => True).
Proof. unfold prepare_tracking. repeat keeps_step; exact I. Qed.

Lemma keeps_unpack_validate (r : option (Q * Q)) :
  match r with
  | Some (a, b) => acc_ok (Some (mkAcc a b))
  | None => True
  end ->
  keeps (unpack_validate r) (fun a => acc_ok (Some a)).
Proof.
  intros Hr. unfold unpack_validate. destruct r as [[a b]|].
  - apply keeps_mreturn. exact Hr.
  - keeps_step.
Qed.

Lemma keeps_save_checkpoint state is_best :
  keeps (save_checkpoint state is_best) (fun _ => True).
Proof. unfold save_checkpoint. repeat keeps_step. exact I. Qed.

Lemma keeps_log_append (entry : EpochLog) :
  entry_ok entry ->
  keeps (modify (fun st => set_train_log (train_log st ++ [entry]) st)) (fun _ => True).
Proof.
  intros Hentry st [Htr Hlog]. apply wp_modify. split; [|exact I].
  split; [exact Htr|]. simpl. apply Forall_app. split; [exact Hlog|].
  constructor; [exact Hentry|constructor].
Qed.

Lemma keeps_log_reset : keeps (modify (set_train_log [])) (fun _ => True).
Proof.
  intros st [Htr Hlog]. apply wp_modify. split; [|exact I].
  split; [exact Htr|]. simpl. constructor.
Qed.

(** A statement handled by one of the lemmas above. *)
Ltac keeps_known :=
  solve [ apply keeps_get
        | apply keeps_local
        | apply keeps_iterate
        | apply keeps_emit; exact I
        | apply keeps_modify; intros ?; reflexivity
        | apply keeps_train
        | apply keeps_validate
        | apply keeps_unpack_validate; assumption
        | apply keeps_define_criterion
        | apply keeps_define_initial_lr
        | apply keeps_define_scheduler
        | apply keeps_resume_checkpoint
        | apply keeps_load_data
        | apply keeps_prepare_tracking
        | apply keeps_log_reset
        | apply keeps_save_checkpoint ].

(** Go through the statements of a sequence as long as they are known. *)
Ltac keeps_seq :=
  repeat (eapply keeps_mthen; [keeps_known|intros ? ?]).

Lemma keeps_epoch_body epoch :
  keeps (epoch_body train_loader val_loader args epoch) (fun _ => True).
Proof.
  unfold epoch_body.
  apply keeps_mthen with (R := fun _ => True).
  { destruct (_ && _) eqn:Hcond; [|keeps_step].
    apply andb_prop in Hcond. destruct Hcond as [Hlt Hsched].
    keeps_seq. eapply keeps_mthen; [|intros ? ?; keeps_known].
    apply keeps_emit. simpl. split.
    - now destruct (schedule_lr args).
    - now apply Z.ltb_lt. }
  intros _ _. keeps_seq.
  apply keeps_mthen with (R := fun _ => True).
  { destruct (schedule_lr args) eqn:Hsched; [|keeps_step].
    keeps_seq. eapply keeps_mthen; [|intros ? ?; keeps_known].
    apply keeps_emit. exact Hsched. }
  intros _ _. keeps_seq.
  apply keeps_mthen with (R := acc_ok).
  { destruct (_ || _); [|now apply keeps_mreturn].
    keeps_seq. now apply keeps_mreturn. }
  intros subset_acc Hsubset.
  apply keeps_mthen with (R := fun _ => True); [repeat keeps_step|intros _ _].
  apply keeps_mthen with (R := fun _ => True); [repeat keeps_step|intros _ _].
  eapply keeps_mthen; [apply keeps_log_append; split; [|split]; assumption|intros ? ?].
  keeps_seq. keeps_known.
Qed.

Lemma keeps_epoch_loop (todo : list Z) :
  keeps (epoch_loop train_loader val_loader args todo) (fun _ => True).
Proof.
  induction todo as [|epoch rest IH]; simpl.
  - keeps_step.
  - eapply keeps_mthen; [apply keeps_epoch_body|intros _ _; exact IH].
Qed.

(** The statements of [main_worker] after the optimizer is chosen. *)
Lemma keeps_after_optimizer (k : M unit) :
  keeps k (fun _ => True) ->
  keeps (let! _ := define_initial_lr args in
         let! _ := define_scheduler args in
         let! _ := resume_checkpoint args in
         let! _ := load_data sub_loader args in
         k) (fun _ => True).
Proof. intros Hk. keeps_seq. exact Hk. Qed.

Lemma keeps_run_or_evaluate :
  keeps (if evaluate args then
           let! c := local criterion "criterion" in
           let! _ := emit (EvValidate ValLoader) in
           let! _ := validate args val_loader c in
           mreturn tt
         else
           let! _ := prepare_tracking args in
           let! _ := emit EvSaveConfig in
           let! _ := modify (set_train_log []) in
           let! start := get args_start_epoch in
           epoch_loop train_loader val_loader args (py_range start (epochs args)))
        (fun _ => True).
Proof.
  destruct (evaluate args); keeps_seq.
  - keeps_step.
  - apply keeps_epoch_loop.
Qed.

End Invariant.

(** Read the fields of a state that is written as updates of another. *)
Ltac st_simpl :=
  cbn [model criterion optimizer scheduler val_loader2 train_log args_loss_func
       args_start_epoch best_acc1 fs passes trace
       set_model set_criterion set_optimizer set_scheduler set_val_loader2
       set_train_log set_args_loss_func set_args_start_epoch set_best_acc1
       set_fs set_passes set_trace eval_model] in *.

Section Normal.

Context {F : Framework} {MeterT : Type} {meterT : Meter MeterT}.
Variable train_loader : Loader.
Variable val_loader : Loader.
Variable args : Args.

Local Abbreviation epoch_body := (epoch_body train_loader val_loader args).
Local Abbreviation epoch_loop := (epoch_loop train_loader val_loader args).
Local Abbreviation normal_run := (normal_run train_loader val_loader args).
Local Abbreviation ready := (ready train_loader val_loader args).
Local Abbreviation epoch_done := (epoch_done train_loader val_loader args).
Local Abbreviation loop_done := (loop_done train_loader val_loader args).

(** *** Runs in which nothing is raised *)

(** An evaluation pass over non-empty batches returns the pair of averages;
    the two are the average of the same meter. *)
Lemma wp_validate_normal (l : Loader) c (Q : option (Q * Q) -> St -> Prop) E (st : St) :
  track_correct args = false ->
  print_freq args <> 0 ->
  one_hot_buildable args (args_loss_func st) (l (passes st)) ->
  Forall (fun b : Batch => snd b <> []) (l (passes st)) ->
  (let a := meter_avg (accuracy_meter (eval_model st) (l (passes st)) meter_new) in
   Q (Some (a, a)) (set_passes (S (passes st)) (set_model (eval_model st) st))) ->
  wp (validate args l c) Q E st.
Proof.
  intros Htrack Hpf Hhot Hb HQ. unfold wp. rewrite validate_eq. cbv zeta.
  destruct (validate_batches_ok args (args_loss_func st) (eval_model st) c _
              Hpf Hb Hhot new_pass 0) as (p & Hp & H1 & H5).
  rewrite Hp, Htrack, H1, H5. exact HQ.
Qed.

(** A training pass over non-empty batches returns, and leaves the model
    and the optimizer of [trained]. *)
Lemma wp_train_normal (l : Loader) c o epoch (Q : unit -> St -> Prop) E (st : St) :
  use_inverse_sqrt_lr args && (0 <? max_lr_adjusting_epoch args) = false ->
  groups_ok args ->
  print_freq args <> 0 ->
  one_hot_buildable args (args_loss_func st) (l (passes st)) ->
  Forall (fun b : Batch => snd b <> []) (l (passes st)) ->
  (let t := trained args l c o epoch st in
   Q tt (set_optimizer (Some (tr_optimizer t))
           (set_model (tr_model t)
              (set_passes (S (passes st))
                 (set_model (set_mode TrainMode (model st)) st))))) ->
  wp (train args l c o epoch) Q E st.
Proof.
  intros Hassert Hg Hpf Hhot Hb HQ. unfold wp. rewrite train_eq. cbv zeta.
  unfold trained in HQ. cbv zeta in HQ.
  destruct (train_batches_ok args (args_loss_func st) c epoch
              (Z.of_nat (length (l (passes st)))) (l (passes st)) Hassert Hg Hpf Hhot
              (or_intror Hb) (train_start st o) 0) as [t' Ht'].
  rewrite Ht' in *. exact HQ.
Qed.

(** One iteration of the epoch loop in a normal run, from a state in which
    the locals are bound. *)
Lemma epoch_body_normal epoch (st : St) :
  normal_run -> ready st ->
  wp (epoch_body epoch) (fun _ st' => epoch_done epoch st st' /\ ready st')
     (fun _ _ => False) st.
Proof.
  intros [Htrack Hjac Htw Hassert Hgroups Hpf Htl Hvl]
         [[c Hc] [o Ho] Hsched [Hhot1 Hhot2] Hsub].
  unfold Train.epoch_body.
  change ((epoch <? max_lr_adjusting_epoch args) && negb (schedule_lr args))
    with (adjusts args epoch).
  change (negb (String.eqb (sub_file args) "") || mix_cifar args)
    with (uses_subset args).
  rewrite Hjac, Htw.
  destruct (adjusts args epoch) eqn:Hadj;
  destruct (schedule_lr args) eqn:Hs;
  destruct (uses_subset args) eqn:Hu.
  all: try (destruct (Hsched eq_refl) as [sch Hsch]).
  all: try (destruct (Hsub eq_refl) as (l2 & Hl2 & Hb2 & Hhot3)).
  all: repeat first
    [ wp_step
    | progress st_simpl
    | rewrite Ho
    | rewrite Hc
    | rewrite Hsch
    | rewrite Hl2
    | eapply wp_train_normal;
        [exact Hassert|exact Hgroups|exact Hpf|st_simpl; apply Hhot1|apply Htl|cbv zeta]
    | apply wp_validate_normal;
        [exact Htrack|exact Hpf
        |st_simpl; first [apply Hhot1|apply Hhot2|apply Hhot3]
        |first [apply Htl|apply Hvl|apply Hb2]|cbv zeta]
    | progress unfold unpack_validate, save_checkpoint ].
  all: split; constructor; st_simpl.
  all: try (unfold epoch_calls; rewrite Hadj, Hs, Hu, length_app, Nat.add_1_r;
            rewrite <- ?app_assoc; reflexivity).
  all: try reflexivity.
  all: try (eexists; split; [reflexivity|]; split; [reflexivity|];
            split; [eexists; reflexivity|]; eexists; split; reflexivity).
  all: try (exists c, o; split; [exact Hc|]; split; [exact Ho|];
            unfold epoch_entry; rewrite Hadj, Hu, ?Hl2; reflexivity).
  all: try (eexists; split; reflexivity).
  all: eauto; try congruence.
Qed.

Lemma string_length_app (s t : string) :
  String.length (s ++ t)%string = (String.length s + String.length t)%nat.
Proof. induction s as [|c s IH]; simpl; [reflexivity|now rewrite IH]. Qed.

Lemma log_file_not_checkpoint : log_file args <> checkpoint_file.
Proof.
  unfold log_file, checkpoint_file. intros Heq.
  assert (Hlen : String.length (outpath args) = 9%nat).
  { apply (f_equal String.length) in Heq.
    rewrite string_length_app in Heq. simpl in Heq. lia. }
  destruct (outpath args) as [|c1 [|c2 [|c3 [|c4 [|c5 [|c6 [|c7 [|c8 [|c9 [|c10 rest]]]]]]]]]];
    try discriminate Hlen.
  simpl in Heq. discriminate Heq.
Qed.

(** The loop over no epoch does nothing. *)
Lemma loop_done_nil (st : St) : loop_done [] st st.
Proof.
  constructor; simpl.
  - now rewrite app_nil_r.
  - exists []. rewrite app_nil_r. repeat split. constructor.
  - discriminate.
  - reflexivity.
  - reflexivity.
  - reflexivity.
Qed.

(** An iteration followed by the loop over the remaining epochs. *)
Lemma loop_done_cons epoch rest (st st1 st' : St) :
  epoch_done epoch st st1 -> loop_done rest st1 st' ->
  loop_done (epoch :: rest) st st'.
Proof.
  intros Hdone1 Hdone'.
  pose proof Hdone1 as [Htr1 (entry & Hlog1 & Hep & Htrain & a & Htest & Hbest1) _
                         (o1 & Ho1 & Hfs1) Hstart1].
  destruct Hdone' as [Htr' (entries & Hlog' & Heps & Hall & Hbest') Hfiles' Hstart' Hnil'
                        Heach'].
  constructor.
  - rewrite Htr', Htr1, Hlog1, length_app, Nat.add_1_r, <- app_assoc. reflexivity.
  - exists (entry :: entries). rewrite Hlog', Hlog1, <- app_assoc. simpl.
    repeat split.
    + now rewrite Hep, Heps.
    + constructor; [|exact Hall]. split; [exact Htrain|]. rewrite Htest. eauto.
    + rewrite Hbest', Htest, Hbest1. reflexivity.
  - intros e Hlast. destruct rest as [|e2 rest].
    + simpl in Hlast. inversion Hlast; subst e.
      rewrite (Hnil' eq_refl). rewrite Hfs1. split.
      * rewrite lookup_insert_ne by (apply not_eq_sym, log_file_not_checkpoint).
        apply lookup_insert_eq.
      * exists o1. split; [exact Ho1|]. apply lookup_insert_eq.
    + apply Hfiles'. exact Hlast.
  - now rewrite Hstart', Hstart1.
  - discriminate.
  - exists st1. split; assumption.
Qed.

(** The epoch loop in a normal run. *)
Lemma epoch_loop_normal (todo : list Z) :
  normal_run -> forall st : St, ready st ->
  wp (epoch_loop todo) (fun _ st' => loop_done todo st st' /\ ready st')
     (fun _ _ => False) st.
Proof.
  intros Hn. induction todo as [|epoch rest IH]; intros st Hready; simpl.
  - apply wp_mreturn. split; [|exact Hready]. apply loop_done_nil.
  - apply wp_mthen. eapply wp_weaken; [apply (epoch_body_normal epoch st Hn Hready)| |auto].
    intros _ st1 [Hdone1 Hready1].
    eapply wp_weaken; [apply (IH st1 Hready1)| |auto].
    intros _ st' [Hdone' Hready']. split; [|exact Hready'].
    eapply loop_done_cons; eassumption.
Qed.

(** *** Runs that return *)

(** If [train] returns, it leaves the model and the optimizer of
    [trained]. *)
Lemma wp_train_returns (l : Loader) c o epoch (Q : unit -> St -> Prop) (st : St) :
  (let t := trained args l c o epoch st in
   Q tt (set_optimizer (Some (tr_optimizer t))
           (set_model (tr_model t)
              (set_passes (S (passes st))
                 (set_model (set_mode TrainMode (model st)) st))))) ->
  wp (train args l c o epoch) Q (fun _ _ => True) st.
Proof.
  intros HQ. unfold wp. rewrite train_eq. cbv zeta.
  destruct (snd (train_batches _ _ _ _ _ _ _ _)); [exact I|exact HQ].
Qed.

(** If [validate] returns, it returns twice the average of a meter of
    top-1 accuracies, or [None] with [args.track_correct]. *)
Lemma wp_validate_returns (l : Loader) c (Q : option (Q * Q) -> St -> Prop) (st : St) :
  (let a := meter_avg (accuracy_meter (eval_model st) (l (passes st)) meter_new) in
   Q (Some (a, a)) (set_passes (S (passes st)) (set_model (eval_model st) st))) ->
  (forall files',
     Q None (set_fs files' (set_passes (S (passes st)) (set_model (eval_model st) st)))) ->
  wp (validate args l c) Q (fun _ _ => True) st.
Proof.
  intros Hpair Hnone. unfold wp. rewrite validate_eq. cbv zeta.
  destruct (validate_batches _ _ _ _ _ _ _) as [e|p] eqn:Hrun; [exact I|].
  destruct (track_correct args).
  - destruct (split_outpath args); [exact I|apply Hnone].
  - destruct (validate_batches_returns _ _ _ _ _ _ _ _ Hrun) as [-> ->].
    exact Hpair.
Qed.

(** One iteration of the epoch loop, when it returns. *)
Lemma epoch_body_returns epoch (st : St) :
  wp (epoch_body epoch) (fun _ st' => epoch_done epoch st st')
     (fun _ _ => True) st.
Proof.
  unfold Train.epoch_body.
  change ((epoch <? max_lr_adjusting_epoch args) && negb (schedule_lr args))
    with (adjusts args epoch).
  change (negb (String.eqb (sub_file args) "") || mix_cifar args)
    with (uses_subset args).
  destruct (adjusts args epoch) eqn:Hadj;
  destruct (schedule_lr args) eqn:Hs;
  destruct (uses_subset args) eqn:Hu.
  all: destruct (criterion st) as [c|] eqn:Hc;
    [|repeat first [exact I | wp_step | progress st_simpl | rewrite Hc
                   | lazymatch goal with
                     | |- match ?x with _ => _ end => destruct x eqn:?
                     end]].
  all: destruct (optimizer st) as [o|] eqn:Ho;
    [|repeat first [exact I | wp_step | progress st_simpl | rewrite Hc | rewrite Ho]].
  all: destruct (val_loader2 st) as [l2|] eqn:Hl2.
  all: repeat first
    [ exact I
    | wp_step
    | progress st_simpl
    | rewrite Hc
    | rewrite Ho
    | rewrite Hl2
    | apply wp_train_returns; cbv zeta
    | apply wp_validate_returns; [cbv zeta|intros ?]
    | progress unfold unpack_validate, save_checkpoint
    | lazymatch goal with
      | |- wp (if ?b then _ else _) _ _ _ => destruct b eqn:?
      | |- match ?x with _ => _ end => destruct x eqn:?
      end ].
  all: constructor; st_simpl.
  all: try (unfold epoch_calls; rewrite Hadj, Hs, Hu, length_app, Nat.add_1_r;
            rewrite <- ?app_assoc; reflexivity).
  all: try reflexivity.
  all: try (eexists; split; [reflexivity|]; split; [reflexivity|];
            split; [eexists; reflexivity|]; eexists; split; reflexivity).
  all: try (exists c, o; split; [exact Hc|]; split; [exact Ho|];
            unfold epoch_entry; rewrite Hadj, Hu, ?Hl2; reflexivity).
  all: try (eexists; split; reflexivity).
Qed.

(** The epoch loop, when it returns. *)
Lemma epoch_loop_returns (todo : list Z) : forall st : St,
  wp (epoch_loop todo) (fun _ st' => loop_done todo st st') (fun _ _ => True) st.
Proof.
  induction todo as [|epoch rest IH]; intros st; simpl.
  - apply wp_mreturn. apply loop_done_nil.
  - apply wp_mthen. eapply wp_weaken; [apply (epoch_body_returns epoch st)| |auto].
    intros [] st1 Hdone1.
    eapply wp_weaken; [apply (IH st1)| |auto].
    intros [] st' Hdone'. eapply loop_done_cons; eassumption.
Qed.

End Normal.


Section Selection.

Context {F : Framework} {MeterT : Type} {meterT : Meter MeterT}.
Variable built_model : Model.
Variable train_loader : Loader.
Variable val_loader : Loader.
Variable sub_loader : Loader.
Variable args : Args.

Local Abbreviation main_worker := (main_worker train_loader val_loader sub_loader args).

Lemma wp_conj {A} (m : M A) Q1 Q2 E1 E2 st :
  wp m Q1 E1 st -> wp m Q2 E2 st ->
  wp m (fun a st' => Q1 a st' /\ Q2 a st') (fun e st' => E1 e st' /\ E2 e st') st.
Proof. unfold wp. destruct (m st) as [st' [e|a]]; auto. Qed.

(** The optimizer named by [args.opt], if it names one. *)
Lemma optimizer_named_cases :
  match optimizer_named (lower (opt args)) with
  | Some SGD => lower (opt args) = "sgd"
  | Some Adam => lower (opt args) = "adam"
  | Some LBFGS => lower (opt args) = "lbfgs"
  | None => ~ In (lower (opt args)) ["sgd"; "adam"; "lbfgs"]
  end.
Proof.
  unfold optimizer_named.
  destruct (String.eqb_spec (lower (opt args)) "sgd") as [H1|H1]; [exact H1|].
  destruct (String.eqb_spec (lower (opt args)) "adam") as [H2|H2]; [exact H2|].
  destruct (String.eqb_spec (lower (opt args)) "lbfgs") as [H3|H3]; [exact H3|].
  simpl. intuition congruence.
Qed.

(** Lines 76-82 raise nothing, call nothing and leave [optimizer] alone. *)
Lemma define_criterion_frame (st : St) :
  exists st', define_criterion st = (st', inr tt) /\
    trace st' = trace st /\ optimizer st' = optimizer st /\
    train_log st' = train_log st /\ model st' = model st.
Proof.
  unfold define_criterion, mthen, get, modify, mreturn.
  destruct (in_list _ _); [eexists; repeat split|].
  destruct (in_list _ _); eexists; repeat split.
Qed.

(** Lines 84-98: an accepted name builds the optimizer of that name with
    [args.lr]; any other name raises before anything is built. *)
Lemma define_optimizer_outcome (st : St) :
  match optimizer_named (lower (opt args)) with
  | Some kind =>
      exists kwargs,
        define_optimizer args st =
        (set_optimizer (Some (new_optimizer kind ModelParameters (model st) (lr args) kwargs))
           (set_trace (trace st ++ [EvOptimizer kind ModelParameters (lr args)]) st),
         inr tt)
  | None => define_optimizer args st = (st, inl (selection_error args))
  end.
Proof.
  unfold optimizer_named, define_optimizer.
  destruct (String.eqb (lower (opt args)) "sgd"); [eexists; reflexivity|].
  destruct (String.eqb (lower (opt args)) "adam"); [eexists; reflexivity|].
  destruct (String.eqb (lower (opt args)) "lbfgs"); [eexists; reflexivity|].
  reflexivity.
Qed.

(** [main_worker] from a state in which nothing was logged: either the
    name of the optimizer is refused, and then line 98 raises with nothing
    called and no optimizer bound; or the optimizer is built first, every
    later call is one the configuration allows, every log entry is well
    formed, and line 98 does not raise. *)
Lemma main_worker_outcome (st : St) :
  train_log st = [] ->
  match optimizer_named (lower (opt args)) with
  | None =>
      exists st', main_worker st = (st', inl (selection_error args)) /\
        trace st' = trace st /\ optimizer st' = optimizer st /\
        train_log st' = train_log st
  | Some kind =>
      wp main_worker
        (fun _ st' =>
           invariant args (trace st ++ [EvOptimizer kind ModelParameters (lr args)]) st')
        (fun e st' =>
           invariant args (trace st ++ [EvOptimizer kind ModelParameters (lr args)]) st' /\
           e <> selection_error args) st
  end.
Proof.
  intros Hlog.
  destruct (define_criterion_frame st) as (st1 & Hcrit & Htr1 & Hopt1 & Hlog1 & _).
  pose proof (define_optimizer_outcome st1) as Hopt.
  destruct (optimizer_named (lower (opt args))) as [kind|].
  - destruct Hopt as [kwargs Hopt].
    unfold Train.main_worker. apply wp_mthen. unfold wp at 1. rewrite Hcrit.
    apply wp_mthen. unfold wp at 1. rewrite Hopt.
    eapply wp_weaken.
    + apply keeps_after_optimizer; [apply keeps_run_or_evaluate|].
      split; [|simpl; rewrite Hlog1, Hlog; constructor].
      exists []. simpl. rewrite Htr1, app_nil_r. split; [reflexivity|constructor].
    + intros a st' [H _]. exact H.
    + intros e st' H. exact H.
  - exists st1. unfold Train.main_worker, mthen. rewrite Hcrit, Hopt. auto.
Qed.

End Selection.

Section NormalRun.

Context {F : Framework} {MeterT : Type} {meterT : Meter MeterT}.
Variable built_model : Model.
Variable train_loader : Loader.
Variable val_loader : Loader.
Variable sub_loader : Loader.
Variable args : Args.
Variable files : gmap string File.

Local Abbreviation main_worker := (main_worker train_loader val_loader sub_loader args).
(** Lines 76-82 on the state [main_worker] starts in: they assign
    [criterion] and [args.loss_func], or nothing. *)
Lemma define_criterion_initial :
  exists c lf,
    define_criterion (initial built_model args files) =
    (set_criterion c (set_args_loss_func lf (initial built_model args files)), inr tt).
Proof.
  unfold define_criterion, mthen, get, modify, mreturn, initial.
  cbn [args_loss_func].
  destruct (in_list (loss_func args) ["cross"; "cross_entropy"; "entropy"]);
    [exists (Some CrossEntropyLoss), (loss_func args); reflexivity|].
  destruct (in_list (loss_func args) ["l2"; "l2_squared"; "squared"; "MSE"]);
    [exists (Some MSELoss), "l2"|exists None, (loss_func args)]; reflexivity.
Qed.

(** [main_worker] in training mode, when it returns: the optimizer was
    named, and the calls are those of the setup followed by those of the
    epoch loop. *)
Lemma main_worker_returns :
  wp main_worker
     (fun _ st' =>
        evaluate args = false ->
        exists kind, optimizer_named (lower (opt args)) = Some kind /\
                     run_done args files kind st')
     (fun _ _ => True) (initial built_model args files).
Proof.
  destruct define_criterion_initial as (c & lf & Hcrit).
  unfold Train.main_worker. apply wp_mthen. unfold wp at 1. rewrite Hcrit.
  apply wp_mthen. unfold wp at 1.
  pose proof (define_optimizer_outcome args
                (set_criterion c (set_args_loss_func lf (initial built_model args files))))
    as Hopt.
  destruct (optimizer_named (lower (opt args))) as [kind|]; [|rewrite Hopt; exact I].
  destruct Hopt as [kwargs Hopt]. rewrite Hopt. clear Hopt Hcrit.
  assert (Hfinish : forall (st : St) tr,
            train_log st = [] -> trace st = tr ->
            tr = setup_calls args files kind ->
            args_start_epoch st = first_epoch args files ->
            best_acc1 st = first_best args files ->
            wp (epoch_loop train_loader val_loader args
                  (py_range (args_start_epoch st) (epochs args)))
               (fun _ st' => run_done args files kind st')
               (fun _ _ => True) st).
  { intros st tr Hlog Htr Hcalls Hstart Hbest.
    eapply wp_weaken; [apply (epoch_loop_returns train_loader val_loader args)| |auto].
    intros [] st' [Htr' (entries & Hlog' & Heps & Hall & Hbest') Hfiles' _ _].
    rewrite Hlog in *. simpl in *. rewrite Hstart in *. subst entries.
    constructor.
    - now rewrite Htr', Htr, Hcalls.
    - repeat split; [exact Heps|exact Hall|now rewrite Hbest', Hbest].
    - exact Hfiles'. }
  unfold define_initial_lr, define_scheduler, resume_checkpoint, load_data,
    prepare_tracking, make_optimizer, initial.
  destruct (evaluate args) eqn:Heval.
  { repeat first
      [ exact I
      | wp_step
      | progress st_simpl
      | apply wp_validate_returns; [intros ?|intros ?]
      | intros ?; discriminate
      | lazymatch goal with
        | |- wp (if ?b then _ else _) _ _ _ => destruct b eqn:?
        | |- wp (match ?x with _ => _ end) _ _ _ => destruct x eqn:?
        | |- match ?x with _ => _ end => destruct x eqn:?
        end ]. }
  destruct (truthy (initial_lr args)) eqn:Hinit; destruct (schedule_lr args) eqn:Hs.
  all: destruct (String.eqb (resume args) "") eqn:Hre;
    [|destruct (files !! resume args) as [[checkpoint| | |]|] eqn:Hf].
  all: repeat first
    [ exact I
    | wp_step
    | progress st_simpl
    | rewrite Hf
    | lazymatch goal with
      | |- wp (if ?b then _ else _) _ _ _ => destruct b eqn:?
      | |- match ?x with _ => _ end => destruct x eqn:?
      end ].
  all: lazymatch goal with
       | |- wp _ _ _ ?st =>
           eapply wp_weaken;
             [eapply (Hfinish st)|intros ? ? ? ?; eexists; split; [reflexivity|eassumption]|auto]
       end.
  all: try reflexivity.
  all: try (unfold setup_calls, resumed; rewrite Hinit, Hs, Hre, ?Hf; reflexivity).
  all: try (unfold first_epoch, resumed; rewrite Hre, ?Hf; reflexivity).
  all: try (unfold first_best, resumed; rewrite Hre, ?Hf; reflexivity).
Qed.

End NormalRun.

(** *** Meters *)

Section Meters.

Context {F : Framework}.

Lemma AverageMeter_updates_fields (l : list (Q * Z)) : forall m : AverageMeter,
  (meter_sum (AverageMeter_updates l m) == meter_sum m + weighted_sum l)%Q /\
  meter_count (AverageMeter_updates l m) = meter_count m + total_weight l /\
  (l <> [] ->
   avg (AverageMeter_updates l m)
   = (meter_sum (AverageMeter_updates l m)
      / inject_Z (meter_count (AverageMeter_updates l m)))%Q).
Proof.
  induction l as [|[v n] l IH]; intros m; simpl.
  - repeat split; [ring|lia|congruence].
  - destruct (IH (AverageMeter_update m v n)) as (Hsum & Hcount & Havg).
    unfold AverageMeter_updates in *. simpl in *. repeat split.
    + rewrite Hsum. ring.
    + rewrite Hcount. lia.
    + intros _. destruct l as [|vn l]; [reflexivity|]. apply Havg. discriminate.
Qed.

(** The meters of an evaluation pass are [AverageMeter]s updated with
    [pass_updates]. *)
Lemma accuracy_meter_updates (m : Model) (batches : list Batch) (meter : AverageMeter) :
  accuracy_meter m batches meter = AverageMeter_updates (pass_updates m batches) meter.
Proof.
  unfold accuracy_meter, AverageMeter_updates, pass_updates.
  revert meter. induction batches as [|b rest IH]; intros meter; simpl; [reflexivity|].
  apply IH.
Qed.

(** C7.  A meter is a running average: after the updates
    [(v_1, n_1), ..., (v_m, n_m)], [m >= 1] and the [n_i] positive, its
    [avg] is [sum(v_i * n_i) / sum(n_i)].  So [validate] returns, after a
    pass over [m >= 1] non-empty batches that raises nothing
    ([args.track_correct] unset, [args.print_freq] not zero, the one-hot
    matrices buildable), a pair that is, in both components, the average of
    the per-batch accuracy values weighted by the number of samples of each
    batch.  (The weights are taken positive so that every quotient the
    meter forms has a divisor that is not zero.) *)
Theorem meter_is_running_average (args : Args) (l : list (Q * Z))
    (loader : Loader) (c : Criterion) (st : St) :
  l <> [] ->
  Forall (fun vn => 0 < snd vn) l ->
  track_correct args = false ->
  print_freq args <> 0 ->
  one_hot_buildable args (args_loss_func st) (loader (passes st)) ->
  loader (passes st) <> [] ->
  Forall (fun b : Batch => snd b <> [] /\ 0 < input_size (fst b)) (loader (passes st)) ->
  (avg (AverageMeter_updates l AverageMeter_reset)
   == weighted_sum l / inject_Z (total_weight l))%Q /\
  exists st' a1 a5,
    validate (MeterT := AverageMeter) args loader c st = (st', inr (Some (a1, a5))) /\
    let updates := pass_updates (eval_model st) (loader (passes st)) in
    (a1 == weighted_sum updates / inject_Z (total_weight updates))%Q /\
    (a5 == weighted_sum updates / inject_Z (total_weight updates))%Q.
Proof.
  intros Hl _ Htrack Hpf Hhot Hb Hbatches.
  assert (Havg : forall l' : list (Q * Z), l' <> [] ->
            (avg (AverageMeter_updates l' AverageMeter_reset)
             == weighted_sum l' / inject_Z (total_weight l'))%Q).
  { intros l' Hl'.
    destruct (AverageMeter_updates_fields l' AverageMeter_reset) as (Hsum & Hcount & Havg).
    rewrite (Havg Hl'), Hsum, Hcount. simpl. rewrite Qplus_0_l, Z.add_0_l. reflexivity. }
  split; [exact (Havg l Hl)|].
  assert (Hne : Forall (fun b : Batch => snd b <> []) (loader (passes st))).
  { eapply List.Forall_impl; [|exact Hbatches]. intros b [H _]. exact H. }
  pose proof (wp_validate_normal (MeterT := AverageMeter) args loader c
                (fun r st' =>
                   r = Some (meter_avg (accuracy_meter (eval_model st)
                                          (loader (passes st)) meter_new),
                             meter_avg (accuracy_meter (eval_model st)
                                          (loader (passes st)) meter_new)))
                (fun _ _ => False) st Htrack Hpf Hhot Hne eq_refl) as Hwp.
  unfold wp in Hwp.
  destruct (validate args loader c st) as [st' [e|r]]; [contradiction|]. subst r.
  eexists st', _, _. split; [reflexivity|]. cbv zeta.
  assert (Hup : pass_updates (eval_model st) (loader (passes st)) <> []).
  { unfold pass_updates. destruct (loader (passes st)); [congruence|discriminate]. }
  simpl. rewrite accuracy_meter_updates. split; apply (Havg _ Hup).
Qed.

End Meters.

(** *** The epoch loop and the learning-rate schedule *)

Section Epochs.

Context {F : Framework} {MeterT : Type} {meterT : Meter MeterT}.
Variable built_model : Model.
Variable train_loader : Loader.
Variable val_loader : Loader.
Variable sub_loader : Loader.
Variable args : Args.

Local Abbreviation main_worker := (main_worker train_loader val_loader sub_loader args).
Local Abbreviation epoch_loop := (epoch_loop train_loader val_loader args).
Local Abbreviation epoch_body := (epoch_body train_loader val_loader args).
Local Abbreviation normal_run := (normal_run train_loader val_loader args).

Lemma filter_app_bool {A} (f : A -> bool) (l1 l2 : list A) :
  List.filter f (l1 ++ l2) = List.filter f l1 ++ List.filter f l2.
Proof. induction l1 as [|x l1 IH]; simpl; [reflexivity|]. destruct (f x); simpl; now rewrite IH. Qed.

(** The calls of the loop, kind by kind: one training pass, two or three
    evaluations, one dump of the log and one checkpoint for each epoch. *)
Lemma loop_calls_by_kind (todo : list Z) : forall n,
  List.filter is_train (loop_calls args todo n) = map EvTrain todo /\
  List.filter is_validate (loop_calls args todo n)
    = flat_map (fun _ => epoch_validations args) todo /\
  List.filter is_dump_log (loop_calls args todo n)
    = map EvDumpLog (seq (S n) (length todo)) /\
  List.filter is_save_checkpoint (loop_calls args todo n)
    = map (fun epoch => EvSaveCheckpoint (epoch + 1)) todo /\
  lr_calls (loop_calls args todo n) = flat_map (epoch_lr_calls args) todo.
Proof.
  induction todo as [|epoch rest IH]; intros n; simpl.
  - repeat split.
  - destruct (IH (S n)) as (H1 & H2 & H3 & H4 & H5).
    unfold lr_calls, epoch_calls, epoch_lr_calls, epoch_validations in *.
    rewrite !filter_app_bool, H1, H2, H3, H4, H5.
    destruct (adjusts args epoch), (schedule_lr args), (uses_subset args);
      repeat split; reflexivity.
Qed.

(** C4, as amended.  The epoch loop is entered with the locals it reads
    bound ([criterion], that is a known loss function; [optimizer]; the
    scheduler with [args.schedule_lr]; the third loader when it is
    evaluated) and in a configuration in which a pass over a loader raises
    nothing: [validate] returns its pair ([args.track_correct] unset), the
    Jacobian and weight-tracking blocks are off, the assertion of [train]
    holds and lines 395-401 raise for no parameter group,
    [args.print_freq] is not zero, no batch is empty, and the one-hot
    matrices can be built.  Then the loop runs once for each epoch of
    [range(args.start_epoch, args.epochs)] and returns: the calls it makes
    are, epoch after epoch, those of [epoch_calls], so that each iteration
    calls [train] once, evaluates on the train and validation loaders (and
    on the third loader when there is one), writes the whole log to
    [log.json] once and calls [save_checkpoint] once; each iteration
    appends one entry, which holds its epoch number and, under ['train']
    and ['test'], what the two evaluation passes measured with the model
    [train] left; and [log.json] holds the whole [train_log] at the
    end. *)
Theorem epoch_loop_runs_each_epoch_once (st : St) :
  normal_run -> ready train_loader val_loader args st ->
  let es := py_range (args_start_epoch st) (epochs args) in
  exists st' entries calls,
    epoch_loop es st = (st', inr tt) /\
    trace st' = trace st ++ calls /\
    calls = loop_calls args es (length (train_log st)) /\
    List.filter is_train calls = map EvTrain es /\
    List.filter is_validate calls = flat_map (fun _ => epoch_validations args) es /\
    List.filter is_dump_log calls
      = map EvDumpLog (seq (S (length (train_log st))) (length es)) /\
    List.filter is_save_checkpoint calls
      = map (fun epoch => EvSaveCheckpoint (epoch + 1)) es /\
    train_log st' = train_log st ++ entries /\
    map log_epoch entries = es /\
    Forall (fun entry => is_Some (log_train entry) /\ is_Some (log_test entry)) entries /\
    (es <> [] -> fs st' !! log_file args = Some (LogFile (train_log st'))) /\
    loop_iterations train_loader val_loader args es st st'.
Proof.
  intros Hn Hready es.
  pose proof (epoch_loop_normal train_loader val_loader args es Hn st Hready) as Hwp.
  unfold wp in Hwp. destruct (Train.epoch_loop _ _ _ es st) as [st' [e|[]]]; [contradiction|].
  destruct Hwp as [[Htr (entries & Hlog & Heps & Hall & _) Hfiles _ _ Heach] _].
  destruct (loop_calls_by_kind es (length (train_log st))) as (H1 & H2 & H3 & H4 & _).
  exists st', entries, (loop_calls args es (length (train_log st))).
  repeat split; try assumption.
  intros Hne. destruct (last es) as [epoch|] eqn:Hlast.
  - apply (Hfiles epoch eq_refl).
  - apply last_None in Hlast. contradiction.
Qed.

(** C8.  The schedule is optional and exclusive.  In every run, with
    [args.schedule_lr] set [adjust_learning_rate] is never called, and with
    it unset no scheduler is created or stepped and [adjust_learning_rate]
    is called only for epochs below [args.max_lr_adjusting_epoch].  In a
    training run that returns, the calls that touch the learning rate are
    exactly: the creation of the [CyclicLR] scheduler when
    [args.schedule_lr] is set; then for each epoch,
    [adjust_learning_rate] at its start when the schedule is unset and the
    epoch is below [args.max_lr_adjusting_epoch], the training pass, and
    one step of the scheduler when the schedule is set. *)
Theorem lr_schedule_exclusive (files : gmap string File) :
  let run := main_worker (initial built_model args files) in
  (schedule_lr args = true ->
     forall epoch, ~ In (EvAdjustLearningRate epoch) (trace (fst run))) /\
  (schedule_lr args = false ->
     ~ In EvSchedulerStep (trace (fst run)) /\
     (forall base_lr max_lr, ~ In (EvScheduler base_lr max_lr) (trace (fst run))) /\
     (forall epoch, In (EvAdjustLearningRate epoch) (trace (fst run)) ->
                    epoch < max_lr_adjusting_epoch args)) /\
  (evaluate args = false -> snd run = inr tt ->
     lr_calls (trace (fst run)) =
       (if schedule_lr args then [EvScheduler (lr args / 100)%Q (lr args)] else []) ++
       flat_map (epoch_lr_calls args)
                (py_range (first_epoch args files) (epochs args))).
Proof.
  cbv zeta.
  assert (Hok : Forall (event_ok args)
                  (trace (fst (main_worker (initial built_model args files))))).
  { pose proof (main_worker_outcome train_loader val_loader sub_loader args
                  (initial built_model args files) eq_refl) as Hout.
    pose proof (optimizer_named_cases args) as Hcases.
    destruct (optimizer_named (lower (opt args))) as [kind|] eqn:Hkind.
    - unfold wp in Hout.
      destruct (Train.main_worker _ _ _ _ _) as [st' [e|[]]]; simpl;
        [destruct Hout as [[(evs & Htr & Hevs) _] _]|destruct Hout as [(evs & Htr & Hevs) _]];
        rewrite Htr; simpl; (constructor; [|exact Hevs]); simpl; rewrite Hkind; auto.
    - destruct Hout as (st' & Hrun & Htr & _). rewrite Hrun. simpl. rewrite Htr.
      constructor. }
  rewrite List.Forall_forall in Hok.
  split; [|split].
  - intros Hs epoch Hin. apply Hok in Hin. destruct Hin as [Hs' _]. congruence.
  - intros Hs. repeat split.
    + intros Hin. apply Hok in Hin. simpl in Hin. congruence.
    + intros b m Hin. apply Hok in Hin. destruct Hin as [Hs' _]. congruence.
    + intros epoch Hin. apply Hok in Hin. apply Hin.
  - intros Heval Hret.
    pose proof (main_worker_returns built_model train_loader val_loader sub_loader
                  args files) as Hwp.
    unfold wp in Hwp.
    destruct (Train.main_worker _ _ _ _ _) as [st' [e|[]]]; [discriminate Hret|].
    destruct (Hwp Heval) as (kind & _ & [Htr _ _]). simpl. rewrite Htr.
    unfold lr_calls at 1. rewrite filter_app_bool.
    destruct (loop_calls_by_kind (py_range (first_epoch args files) (epochs args)) 0)
      as (_ & _ & _ & _ & H5).
    unfold lr_calls in H5. rewrite H5. f_equal.
    unfold setup_calls. rewrite !filter_app_bool.
    destruct (truthy (initial_lr args)), (schedule_lr args), (resumed args files);
      reflexivity.
Qed.

(** C9.  [validate] calls [accuracy] with [topk=(1, 1)]: both values it
    gets are the top-1 accuracy of the batch and both meters take the same
    updates, so that the pair [validate] returns holds twice the average of
    a meter of top-1 accuracies.  Under each of the keys ['train'],
    ['test'] and ['subset'] of every log entry of every run the value of
    ['acc5'] is the value of ['acc1'], and it is such an average; and the
    entry an iteration of the epoch loop appends is [epoch_entry]: under
    every key, twice what the evaluation pass on that loader measured. *)
Theorem logged_acc5_is_top1 (files : gmap string File) :
  (forall (output : Output) (target : list Z), target <> [] ->
     accuracy output target [1; 1] false
     = inr (Percentages [top1_percent output target; top1_percent output target])) /\
  (forall (l : Loader) c (st : St) a1 a5,
     snd (validate args l c st) = inr (Some (a1, a5)) ->
     a5 = a1 /\
     a1 = meter_avg (accuracy_meter (eval_model st) (l (passes st)) meter_new)) /\
  (forall entry a,
     In entry (train_log (fst (main_worker (initial built_model args files)))) ->
     log_train entry = Some a \/ log_test entry = Some a \/ log_subset entry = Some a ->
     acc5 a = acc1 a /\
     exists m batches, acc1 a = meter_avg (accuracy_meter m batches meter_new)) /\
  (forall epoch (st st' : St),
     epoch_body epoch st = (st', inr tt) ->
     exists c o,
       criterion st = Some c /\ optimizer st = Some o /\
       train_log st'
       = train_log st ++ [epoch_entry train_loader val_loader args epoch st c o]).
Proof.
  split; [exact accuracy_1_1|]. split; [|split].
  - intros l c st a1 a5. rewrite validate_eq. cbv zeta.
    destruct (validate_batches _ _ _ _ _ _ _) as [e|p] eqn:Hrun; [discriminate|].
    destruct (track_correct args).
    + destruct (split_outpath args); discriminate.
    + simpl. intros Heq. inversion Heq; subst.
      destruct (validate_batches_returns _ _ _ _ _ _ _ _ Hrun) as [-> ->].
      split; reflexivity.
  - assert (Hok : Forall entry_ok
                    (train_log (fst (main_worker (initial built_model args files))))).
    { pose proof (main_worker_outcome train_loader val_loader sub_loader args
                    (initial built_model args files) eq_refl) as Hout.
      destruct (optimizer_named (lower (opt args))) as [kind|].
      - unfold wp in Hout.
        destruct (Train.main_worker _ _ _ _ _) as [st' [e|[]]]; simpl;
          [destruct Hout as [[_ Hlog] _]|destruct Hout as [_ Hlog]]; exact Hlog.
      - destruct Hout as (st' & Hrun & _ & _ & Hlog). rewrite Hrun. simpl.
        rewrite Hlog. constructor. }
    rewrite List.Forall_forall in Hok.
    intros entry a Hin Hkey. destruct (Hok entry Hin) as (Htrain & Htest & Hsubset).
    assert (Ha : acc_ok (Some a)).
    { destruct Hkey as [Hkey|[Hkey|Hkey]];
        [rewrite Hkey in Htrain|rewrite Hkey in Htest|rewrite Hkey in Hsubset];
        assumption. }
    destruct Ha as [Heq (m & batches & Hm)]. split; [exact Heq|].
    exists m, batches. rewrite Hm. reflexivity.
  - intros epoch st st' Hrun.
    pose proof (wp_run _ _ _ _ _ _
                  (epoch_body_returns train_loader val_loader args epoch st) Hrun)
      as [_ _ Hentry _ _].
    exact Hentry.
Qed.


(** C5.  The checkpoint written at the end of an iteration for [epoch]
    records [epoch + 1], the state of the model, the state of the optimizer
    and [best_acc1], which is the maximum of its former value and the test
    accuracy of this epoch; and resuming from that file, in a run whose
    optimizer is built, sets [args.start_epoch], [best_acc1], the state of
    the model and the state of the optimizer to the values recorded. *)
Theorem checkpoint_round_trip (epoch : Z) (st st' : St) :
  epoch_body epoch st = (st', inr tt) ->
  exists o' checkpoint,
    optimizer st' = Some o' /\
    fs st' !! checkpoint_file = Some (CheckpointFile checkpoint) /\
    ck_epoch checkpoint = epoch + 1 /\
    ck_state_dict checkpoint = state_dict (model st') /\
    ck_optimizer checkpoint = optimizer_state_dict o' /\
    ck_best_acc1 checkpoint = best_acc1 st' /\
    (exists entry a,
       last (train_log st') = Some entry /\ log_epoch entry = epoch /\
       log_test entry = Some a /\
       best_acc1 st' = py_max2 (acc1 a) (best_acc1 st)) /\
    forall (args2 : Args) (st2 : St) o2,
      resume args2 = checkpoint_file ->
      fs st2 = fs st' ->
      optimizer st2 = Some o2 ->
      exists st3 o3,
        resume_checkpoint args2 st2 = (st3, inr tt) /\
        args_start_epoch st3 = epoch + 1 /\
        best_acc1 st3 = best_acc1 st' /\
        state_dict (model st3) = state_dict (model st') /\
        optimizer st3 = Some o3 /\
        optimizer_state_dict o3 = optimizer_state_dict o'.
Proof.
  intros Hrun.
  pose proof (wp_run _ _ _ _ _ _ (epoch_body_returns train_loader val_loader args epoch st) Hrun)
    as [_ (entry & Hlog & Hep & _ & a & Htest & Hbest) _ (o' & Ho' & Hfs) _].
  exists o', (checkpoint_of args epoch st' o').
  assert (Hfile : fs st' !! checkpoint_file
                  = Some (CheckpointFile (checkpoint_of args epoch st' o')))
    by (rewrite Hfs; apply lookup_insert_eq).
  repeat split; try assumption.
  - exists entry, a. rewrite Hlog, last_snoc. auto.
  - intros args2 st2 o2 Hres Hfs2 Ho2.
    unfold resume_checkpoint, mthen, get, modify, emit, local, mreturn.
    rewrite Hres. simpl. rewrite Hfs2, Hfile. simpl. rewrite Ho2. simpl.
    eexists _, _. repeat split.
    + apply state_dict_loaded.
    + apply optimizer_state_dict_loaded.
Qed.

End Epochs.

(** *** Passes over a loader *)

Section PassFacts.

Context {F : Framework} {MeterT : Type} {meterT : Meter MeterT}.

Lemma validate_batches_corr (args : Args) lf (m : Model) c (batches : list Batch) :
  track_correct args = true ->
  forall (p p' : Pass) i,
    validate_batches args lf m c p i batches = inr p' ->
    corr p' = corr p ++ correct_of_batches args m i batches.
Proof.
  intros Htc. induction batches as [|b rest IH]; intros p p' i Hrun.
  - cbn in Hrun. inversion Hrun. cbn. now rewrite app_nil_r.
  - cbn [validate_batches] in Hrun. unfold bind at 1 in Hrun.
    destruct (validate_batch args lf m c p i b) as [e|p1] eqn:Hb; [discriminate|].
    rewrite (IH _ _ _ Hrun). cbn [correct_of_batches].
    destruct (validate_batch_returns _ _ _ _ _ _ _ _ Hb) as (_ & _ & _ & _ & _ & Hcorr).
    rewrite Htc in Hcorr. rewrite Hcorr, app_assoc. reflexivity.
Qed.

(** What a pass over a loader leaves alone. *)
Lemma validate_frame (args : Args) (l : Loader) (c : Criterion) (st : St) :
  let r := validate args l c st in
  model (fst r) = set_mode EvalMode (model st) /\
  passes (fst r) = S (passes st) /\
  optimizer (fst r) = optimizer st /\
  same_locals st (fst r) /\
  (track_correct args = false -> fs (fst r) = fs st) /\
  (fs (fst r) <> fs st -> snd r = inr None).
Proof.
  cbv zeta. rewrite validate_eq. cbv zeta.
  assert (Hsame : forall st1 : St,
            criterion st1 = criterion st -> scheduler st1 = scheduler st ->
            val_loader2 st1 = val_loader2 st -> train_log st1 = train_log st ->
            args_loss_func st1 = args_loss_func st ->
            args_start_epoch st1 = args_start_epoch st ->
            best_acc1 st1 = best_acc1 st -> trace st1 = trace st ->
            same_locals st st1) by (intros; now constructor).
  destruct (validate_batches _ _ _ _ _ _ _) as [e|p];
    [|destruct (track_correct args); [destruct (split_outpath args) as [e|fe]|]].
  all: cbn [fst snd]; repeat split; try reflexivity; try (apply Hsame; reflexivity).
  all: try discriminate.
  all: intros H; exfalso; apply H; reflexivity.
Qed.

(** An evaluation pass reads the run and leaves it as it is: it puts the
    model in evaluation mode and counts one pass over the loader, and
    changes no other variable of [main_worker] and no file, except for the
    file of correct indices when it returns [None]. *)
Theorem validate_is_read_only (args : Args) (l : Loader) (c : Criterion) (st : St) :
  let r := validate args l c st in
  model (fst r) = set_mode EvalMode (model st) /\
  passes (fst r) = S (passes st) /\
  optimizer (fst r) = optimizer st /\
  same_locals st (fst r) /\
  (track_correct args = false -> fs (fst r) = fs st) /\
  (fs (fst r) <> fs st -> snd r = inr None).
Proof. apply validate_frame. Qed.

(** With [args.track_correct] a pass that goes through its batches (none
    is empty, [args.print_freq] is not zero and the one-hot matrices can
    be built) writes the indices it recorded when [str(args.outpath)]
    holds exactly one dot, to the part before the dot followed by
    ['_corr.json'], and returns [None]; with any other number of dots it
    raises the [ValueError] of the unpacking after the whole pass, and
    writes nothing.  It never returns accuracies. *)
Theorem tracking_pass_needs_one_dot (args : Args) (l : Loader) (c : Criterion) (st : St) :
  track_correct args = true ->
  print_freq args <> 0 ->
  Forall (fun b : Batch => snd b <> []) (l (passes st)) ->
  one_hot_buildable args (args_loss_func st) (l (passes st)) ->
  match py_split "." (outpath args) with
  | [fname; ext] =>
      exists st',
        validate args l c st = (st', inr None) /\
        fs st' = <[(fname ++ "_corr.json")%string :=
                     CorrectFile (correct_of_batches args (eval_model st) 0
                                    (l (passes st)))]> (fs st)
  | _ =>
      snd (validate args l c st) = inl (ValueError "unpack") /\
      fs (fst (validate args l c st)) = fs st
  end.
Proof.
  intros Htc Hpf Hne Hhot. rewrite validate_eq. cbv zeta.
  destruct (validate_batches_ok args (args_loss_func st) (eval_model st) c _
              Hpf Hne Hhot new_pass 0) as (p & Hrun & _).
  rewrite Hrun, Htc.
  pose proof (validate_batches_corr args _ _ _ _ Htc _ _ _ Hrun) as Hcorr.
  cbn [corr new_pass app] in Hcorr.
  unfold split_outpath.
  destruct (py_split "." (outpath args)) as [|fname [|ext [|x rest]]]; cbn; try (split; reflexivity).
  eexists. split; [reflexivity|]. cbn. now rewrite Hcorr.
Qed.

(** *** [train] *)

Lemma train_batches_cause args lf c epoch n (batches : list Batch) :
  forall (t t' : Training) i e,
    train_batches args lf c epoch n t i batches = (t', Some e) ->
    (e = AssertionError lr_conflict /\
     use_inverse_sqrt_lr args && (0 <? max_lr_adjusting_epoch args) = true) \/
    (use_inverse_sqrt_lr args = true /\
     exists k cur_p, group_lr args k cur_p = inl e) \/
    (exists b, In b batches /\ one_hot args lf (snd b) = inl e) \/
    (e = ZeroDivisionError /\ use_LBFGS args = false /\
     exists input, In (input, []) batches) \/
    (e = ZeroDivisionError /\ print_freq args = 0 /\ batches <> []).
Proof.
  induction batches as [|b rest IH]; intros t t' i e Hrun; cbn in Hrun; [discriminate|].
  destruct (train_batch args lf c epoch n t i b) as [t1 [e1|]] eqn:Hb.
  - inversion Hrun; subst.
    destruct (train_batch_cause _ _ _ _ _ _ _ _ _ _ Hb)
      as [(He & Ha & _)|[(Hi & q & Hq)|[Hhot|[(He & Hl & Hnil)|(He & Hpf)]]]].
    + left. auto.
    + right. left. eauto.
    + right. right. left. exists b. split; [now left|exact Hhot].
    + right. right. right. left. repeat split; try assumption.
      destruct b as [input target]. cbn in Hnil. subst. exists input. now left.
    + right. right. right. right. repeat split; try assumption. discriminate.
  - destruct (IH _ _ _ _ Hrun)
      as [H|[H|[(b' & Hin & Hhot)|[(He & Hl & input & Hin)|(He & Hpf & _)]]]].
    + left. exact H.
    + right. left. exact H.
    + right. right. left. exists b'. split; [now right|exact Hhot].
    + right. right. right. left. repeat split; try assumption.
      exists input. now right.
    + right. right. right. right. repeat split; try assumption. discriminate.
Qed.

Lemma train_error_cause (args : Args) (l : Loader) (c : Criterion) (o : Optimizer)
    (epoch : Z) (st : St) (e : exn) :
  snd (train args l c o epoch st) = inl e ->
  (e = AssertionError lr_conflict /\
   use_inverse_sqrt_lr args && (0 <? max_lr_adjusting_epoch args) = true) \/
  (use_inverse_sqrt_lr args = true /\
   (e = IndexError \/ e = KeyError "decay" \/ e = KeyError "lr" \/
    e = ZeroDivisionError) /\
   exists k cur_p, group_lr args k cur_p = inl e) \/
  (args_loss_func st = "l2" /\
   (e = IndexError \/ e = ValueError "negative dimensions are not allowed") /\
   exists b, In b (l (passes st)) /\ one_hot args (args_loss_func st) (snd b) = inl e) \/
  (e = ZeroDivisionError /\ use_LBFGS args = false /\
   exists input, In (input, []) (l (passes st))) \/
  (e = ZeroDivisionError /\ print_freq args = 0 /\ l (passes st) <> []).
Proof.
  rewrite train_eq. cbv zeta. cbn [snd].
  destruct (train_batches _ _ _ _ _ _ _ _) as [t' [e'|]] eqn:Hrun; cbn [snd];
    [|discriminate].
  intros H. inversion H; subst e'.
  destruct (train_batches_cause _ _ _ _ _ _ _ _ _ _ Hrun)
    as [H1|[(Hi & k & q & Hq)|[(b & Hin & Hhot)|[H4|H5]]]].
  - left. exact H1.
  - right. left. split; [exact Hi|]. split; [exact (group_lr_error _ _ _ _ Hq)|eauto].
  - right. right. left. destruct (one_hot_error _ _ _ _ Hhot) as [Hlf He].
    split; [exact Hlf|]. split; [exact He|eauto].
  - right. right. right. left. exact H4.
  - right. right. right. right. exact H5.
Qed.

(** What [train] can raise, and why: the assertion of line 392, step
    decay and inverse square-root decay being both set; an index, a key or
    a division of lines 395-401 for one of the parameter groups; a one-hot
    matrix that cannot be built, with the squared-error loss; a batch
    without samples, whose accuracy divides by zero (not with
    [args.use_LBFGS], which computes no accuracy); or the test of line 449
    with [args.print_freq] zero, after the step of the first batch.  (The
    calls into the framework are taken to return.) *)
Theorem train_raises_only (args : Args) (l : Loader) (c : Criterion) (o : Optimizer)
    (epoch : Z) (st : St) (e : exn) :
  snd (train args l c o epoch st) = inl e ->
  (e = AssertionError lr_conflict /\
   use_inverse_sqrt_lr args && (0 <? max_lr_adjusting_epoch args) = true) \/
  (use_inverse_sqrt_lr args = true /\
   (e = IndexError \/ e = KeyError "decay" \/ e = KeyError "lr" \/
    e = ZeroDivisionError) /\
   exists k cur_p, group_lr args k cur_p = inl e) \/
  (args_loss_func st = "l2" /\
   (e = IndexError \/ e = ValueError "negative dimensions are not allowed") /\
   exists b, In b (l (passes st)) /\ one_hot args (args_loss_func st) (snd b) = inl e) \/
  (e = ZeroDivisionError /\ use_LBFGS args = false /\
   exists input, In (input, []) (l (passes st))) \/
  (e = ZeroDivisionError /\ print_freq args = 0 /\ l (passes st) <> []).
Proof. apply train_error_cause. Qed.

(** Step decay and inverse square-root decay together stop [train] at its
    first batch, before any step is taken: the model and the optimizer are
    those it was called with. *)
Theorem train_stops_on_lr_conflict (args : Args) (l : Loader) (c : Criterion)
    (o : Optimizer) (epoch : Z) (st : St) :
  use_inverse_sqrt_lr args = true ->
  0 < max_lr_adjusting_epoch args ->
  l (passes st) <> [] ->
  snd (train args l c o epoch st) = inl (AssertionError lr_conflict) /\
  model (fst (train args l c o epoch st)) = set_mode TrainMode (model st) /\
  optimizer (fst (train args l c o epoch st)) = Some o.
Proof.
  intros Hinv Hmax Hne. rewrite train_eq. cbv zeta.
  destruct (l (passes st)) as [|[input target] rest]; [congruence|].
  cbn [train_batches]. unfold train_batch. rewrite Hinv.
  destruct (Z.ltb_spec 0 (max_lr_adjusting_epoch args)); [|lia].
  cbn. repeat split.
Qed.

Lemma train_batches_lbfgs args lf c epoch n (batches : list Batch) :
  use_LBFGS args = true -> use_inverse_sqrt_lr args = false ->
  print_freq args <> 0 ->
  one_hot_buildable args lf batches ->
  forall (t : Training) i,
    train_batches args lf c epoch n t i batches
    = (mkTraining (fst (fold_left (fun mo (b : Batch) =>
                                     closure_step c (ClassTarget (snd b)) (fst b)
                                                  (fst mo) (snd mo))
                                  batches (tr_model t, tr_optimizer t)))
                  (snd (fold_left (fun mo (b : Batch) =>
                                     closure_step c (ClassTarget (snd b)) (fst b)
                                                  (fst mo) (snd mo))
                                  batches (tr_model t, tr_optimizer t)))
                  (tr_pass t), None).
Proof.
  intros Hl Hi Hpf. induction batches as [|[input target] rest IH]; intros Hhot t i.
  - destruct t. reflexivity.
  - destruct (one_hot_buildable_cons _ _ _ _ Hhot) as [Hb1 Hrest].
    cbn [train_batches]. unfold train_batch. rewrite Hi, Hb1. cbn [andb fst snd].
    unfold train_step. rewrite Hl.
    destruct (Z.eqb_spec (print_freq args) 0); [contradiction|].
    rewrite (IH Hrest). cbn [tr_model tr_optimizer tr_pass fold_left fst snd].
    now rewrite <- surjective_pairing.
Qed.

(** With [args.use_LBFGS] a training pass that goes through its batches
    ([args.print_freq] is not zero and the one-hot matrices can be built)
    takes one closure step for every batch and nothing else: no accuracy
    is computed, so that no batch without samples can make it raise and
    the meters stay empty, and the loss of the closure is computed on the
    class indices, also when the loss function is the squared error. *)
Theorem train_lbfgs_takes_closure_steps (args : Args) (l : Loader) (c : Criterion)
    (o : Optimizer) (epoch : Z) (st : St) :
  use_LBFGS args = true ->
  use_inverse_sqrt_lr args = false ->
  print_freq args <> 0 ->
  one_hot_buildable args (args_loss_func st) (l (passes st)) ->
  let steps := closure_steps c (set_mode TrainMode (model st)) o (l (passes st)) in
  exists st',
    train args l c o epoch st = (st', inr tt) /\
    model st' = fst steps /\ optimizer st' = Some (snd steps).
Proof.
  intros Hl Hi Hpf Hhot. cbv zeta. rewrite train_eq. cbv zeta.
  rewrite (train_batches_lbfgs _ _ _ _ _ _ Hl Hi Hpf Hhot).
  cbn [fst snd tr_model tr_optimizer].
  eexists. split; [reflexivity|]. split; reflexivity.
Qed.

End PassFacts.

(** *** Runs of [main_worker] *)

Section RunFacts.

Context {F : Framework} {MeterT : Type} {meterT : Meter MeterT}.
Variable built_model : Model.
Variable train_loader : Loader.
Variable val_loader : Loader.
Variable sub_loader : Loader.
Variable args : Args.
Variable files : gmap string File.

Local Abbreviation main_worker := (main_worker train_loader val_loader sub_loader args).

Lemma py_max2_spec (a b : Q) :
  (a <= py_max2 a b)%Q /\ (b <= py_max2 a b)%Q /\
  (py_max2 a b = a \/ py_max2 a b = b).
Proof.
  unfold py_max2, Qgtb. destruct (Qle_bool b a) eqn:Hle; cbn [negb].
  - apply Qle_bool_iff in Hle. repeat split; [apply Qle_refl|exact Hle|now left].
  - assert (Hlt : (a < b)%Q).
    { apply Qnot_le_lt. intros H. apply Qle_bool_iff in H. congruence. }
    repeat split; [now apply Qlt_le_weak|apply Qle_refl|now right].
Qed.

Lemma running_best_spec (entries : list EpochLog) : forall best,
  (best <= running_best entries best)%Q /\
  (forall entry a, In entry entries -> log_test entry = Some a ->
                   (acc1 a <= running_best entries best)%Q) /\
  (running_best entries best = best \/
   exists entry a, In entry entries /\ log_test entry = Some a /\
                   running_best entries best = acc1 a).
Proof.
  induction entries as [|x rest IH]; intros best; cbn [running_best fold_left].
  - repeat split; [apply Qle_refl|intros ? ? []|now left].
  - fold (running_best rest). 
    set (b1 := match log_test x with Some a => py_max2 (acc1 a) best | None => best end).
    change (fold_left _ rest b1) with (running_best rest b1).
    destruct (IH b1) as (Hge & Hall & Hwhich).
    assert (Hb1 : (best <= b1)%Q /\
                  (forall a, log_test x = Some a -> (acc1 a <= b1)%Q) /\
                  (b1 = best \/ exists a, log_test x = Some a /\ b1 = acc1 a)).
    { unfold b1. destruct (log_test x) as [a|].
      - destruct (py_max2_spec (acc1 a) best) as (H1 & H2 & [H3|H3]).
        + repeat split; [exact H2|intros ? E; inversion E; subst; exact H1|].
          right. exists a. auto.
        + repeat split; [exact H2|intros ? E; inversion E; subst; exact H1|now left].
      - repeat split; [apply Qle_refl|discriminate|now left]. }
    destruct Hb1 as (Hb & Hx & Hbw).
    repeat split.
    + eapply Qle_trans; [exact Hb|exact Hge].
    + intros entry a [->|Hin] Ha.
      * eapply Qle_trans; [apply (Hx _ Ha)|exact Hge].
      * exact (Hall _ _ Hin Ha).
    + destruct Hwhich as [Hw|(entry & a & Hin & Ha & Hw)].
      * rewrite Hw. destruct Hbw as [->|(a & Ha & ->)]; [now left|].
        right. exists x, a. split; [now left|]. auto.
      * right. exists entry, a. split; [now right|]. auto.
Qed.

(** When a training run returns, [best_acc1] is the greatest of the value
    it started from (0, or the one of the checkpoint resumed from) and the
    test top-1 accuracies logged: it is not below any of them and is one of
    them. *)
Theorem best_acc1_is_running_maximum :
  let run := main_worker (initial built_model args files) in
  evaluate args = false ->
  snd run = inr tt ->
  (first_best args files <= best_acc1 (fst run))%Q /\
  (forall entry a, In entry (train_log (fst run)) -> log_test entry = Some a ->
                   (acc1 a <= best_acc1 (fst run))%Q) /\
  (best_acc1 (fst run) = first_best args files \/
   exists entry a, In entry (train_log (fst run)) /\ log_test entry = Some a /\
                   best_acc1 (fst run) = acc1 a).
Proof.
  cbv zeta. intros Heval Hret.
  pose proof (main_worker_returns built_model train_loader val_loader sub_loader args files)
    as Hwp.
  unfold wp in Hwp.
  destruct (main_worker (initial built_model args files)) as [st' [e|[]]];
    [discriminate|]. cbn [fst snd] in *.
  destruct (Hwp Heval) as (kind & _ & [_ (_ & _ & Hbest) _]).
  rewrite Hbest. apply running_best_spec.
Qed.

Lemma setup_calls_no_train (kind : OptKind) :
  List.filter is_train (setup_calls args files kind) = [].
Proof.
  unfold setup_calls.
  destruct (truthy (initial_lr args)), (schedule_lr args), (resumed args files);
    reflexivity.
Qed.

(** A training run that resumes from a checkpoint and returns has trained
    and logged the epochs from the one stored in the checkpoint up to
    [args.epochs], each once and in order, and none when the checkpoint is
    the one of the last epoch. *)
Theorem resumed_run_continues_after_checkpoint (checkpoint : Checkpoint) :
  let run := main_worker (initial built_model args files) in
  resume args <> "" ->
  files !! resume args = Some (CheckpointFile checkpoint) ->
  evaluate args = false ->
  snd run = inr tt ->
  map log_epoch (train_log (fst run)) = py_range (ck_epoch checkpoint) (epochs args) /\
  List.filter is_train (trace (fst run))
  = map EvTrain (py_range (ck_epoch checkpoint) (epochs args)) /\
  (epochs args <= ck_epoch checkpoint ->
   train_log (fst run) = [] /\ List.filter is_train (trace (fst run)) = []).
Proof.
  cbv zeta. intros Hres Hfile Heval Hret.
  pose proof (main_worker_returns built_model train_loader val_loader sub_loader args files)
    as Hwp.
  unfold wp in Hwp.
  destruct (main_worker (initial built_model args files)) as [st' [e|[]]];
    [discriminate|]. cbn [fst snd] in *.
  destruct (Hwp Heval) as (kind & _ & [Htr (Hlog & _ & _) _]).
  assert (Hfirst : first_epoch args files = ck_epoch checkpoint).
  { unfold first_epoch, resumed. rewrite Hfile.
    destruct (String.eqb_spec (resume args) ""); [contradiction|reflexivity]. }
  rewrite Hfirst in *.
  assert (Htrain : List.filter is_train (trace st')
                   = map EvTrain (py_range (ck_epoch checkpoint) (epochs args))).
  { rewrite Htr, filter_app_bool, setup_calls_no_train.
    destruct (loop_calls_by_kind args (py_range (ck_epoch checkpoint) (epochs args)) 0)
      as (H & _). exact H. }
  split; [exact Hlog|]. split; [exact Htrain|].
  intros Hle.
  assert (Hnil : py_range (ck_epoch checkpoint) (epochs args) = []).
  { unfold py_range. replace (Z.to_nat (epochs args - ck_epoch checkpoint)) with O by lia.
    reflexivity. }
  rewrite Hnil in *. split; [|exact Htrain].
  now apply map_eq_nil in Hlog.
Qed.

(** The target handed to the loss function is the one-hot matrix exactly
    when the loss is the squared error: once lines 76-82 have run on the
    state [main_worker] starts in, [nn.MSELoss] goes with [targetl2],
    [nn.CrossEntropyLoss] with the class indices, and a name that is in
    neither list leaves [criterion] unbound. *)
Theorem one_hot_targets_iff_mse (target : list Z) :
  let st' := fst (define_criterion (initial built_model args files)) in
  match criterion st' with
  | Some MSELoss =>
      loss_target args (args_loss_func st') target
      = OneHotTarget target (num_classes args)
  | Some CrossEntropyLoss =>
      loss_target args (args_loss_func st') target = ClassTarget target
  | None =>
      args_loss_func st' = loss_func args /\
      ~ In (loss_func args)
           ["cross"; "cross_entropy"; "entropy"; "l2"; "l2_squared"; "squared"; "MSE"]
  end.
Proof.
  cbv zeta. unfold define_criterion, mthen, get, modify, mreturn, initial, in_list.
  cbn [args_loss_func existsb].
  destruct (String.eqb_spec (loss_func args) "cross") as [->|H1]; [reflexivity|].
  destruct (String.eqb_spec (loss_func args) "cross_entropy") as [->|H2]; [reflexivity|].
  destruct (String.eqb_spec (loss_func args) "entropy") as [->|H3]; [reflexivity|].
  cbn [orb].
  destruct (String.eqb_spec (loss_func args) "l2") as [->|H4]; [reflexivity|].
  destruct (String.eqb_spec (loss_func args) "l2_squared") as [E|H5]; [reflexivity|].
  destruct (String.eqb_spec (loss_func args) "squared") as [E|H6]; [reflexivity|].
  destruct (String.eqb_spec (loss_func args) "MSE") as [E|H7]; [reflexivity|].
  cbn. split; [reflexivity|]. intuition congruence.
Qed.

End RunFacts.

(** *** Statements that keep an invariant of the calls *)

Section Holds.

Context {F : Framework} {MeterT : Type} {meterT : Meter MeterT}.
Variable P : Event -> bool.
Variable C : St -> Prop.
Variable X : exn -> Prop.
Hypothesis C_locals : reads_locals C.

Local Abbreviation quiet := (quiet P C).
Local Abbreviation holds := (holds P C X).

Lemma quiet_frame (st st' : St) :
  trace st' = trace st -> criterion st' = criterion st ->
  train_log st' = train_log st -> args_loss_func st' = args_loss_func st ->
  quiet st -> quiet st'.
Proof.
  intros Htr Hc Hl Hlf [HP HC]. split; [now rewrite Htr|].
  exact (C_locals st st' Hc Hl Hlf HC).
Qed.

Lemma quiet_emit (st : St) (ev : Event) :
  P ev = true -> quiet st -> quiet (set_trace (trace st ++ [ev]) st).
Proof.
  intros Hev [HP HC]. split.
  - cbn. rewrite forallb_app, HP. cbn. now rewrite Hev.
  - exact (C_locals st (set_trace (trace st ++ [ev]) st) eq_refl eq_refl eq_refl HC).
Qed.

Lemma holds_mthen {A B} (m : M A) (k : A -> M B) (R : A -> Prop) (R' : B -> Prop) :
  holds m R -> (forall a, R a -> holds (k a) R') -> holds (mthen m k) R'.
Proof.
  intros Hm Hk st Hst. apply wp_mthen.
  eapply wp_weaken; [apply Hm; exact Hst| |].
  - intros a st' [Hst' Ha]. apply (Hk a Ha st' Hst').
  - intros e st' H. exact H.
Qed.

Lemma holds_weaken {A} (m : M A) (R R' : A -> Prop) :
  holds m R -> (forall a, R a -> R' a) -> holds m R'.
Proof.
  intros Hm HR st Hst. eapply wp_weaken; [apply Hm; exact Hst| |].
  - intros a st' [? ?]. auto.
  - auto.
Qed.

Lemma holds_mreturn {A} (a : A) (R : A -> Prop) : R a -> holds (mreturn a) R.
Proof. intros Ha st Hst. apply wp_mreturn. auto. Qed.

Lemma holds_mthrow {A} (e : exn) (R : A -> Prop) : X e -> holds (mthrow e) R.
Proof. intros He st Hst. apply wp_mthrow. auto. Qed.

Lemma holds_get {A} (f : St -> A) : holds (get f) (fun _ => True).
Proof. intros st Hst. apply wp_get. auto. Qed.

Lemma holds_modify (f : St -> St) :
  (forall st, trace (f st) = trace st) ->
  (forall st, criterion (f st) = criterion st) ->
  (forall st, train_log (f st) = train_log st) ->
  (forall st, args_loss_func (f st) = args_loss_func st) ->
  holds (modify f) (fun _ => True).
Proof.
  intros Htr Hc Hl Hlf st Hst. apply wp_modify. split; [|exact I].
  now apply (quiet_frame st).
Qed.

Lemma holds_modify_locals (f : St -> St) :
  (forall st, trace (f st) = trace st) ->
  (forall st, quiet st -> C (f st)) ->
  holds (modify f) (fun _ => True).
Proof.
  intros Htr HC st Hst. apply wp_modify. split; [|exact I].
  split; [rewrite Htr; apply Hst|now apply HC].
Qed.

Lemma holds_emit (ev : Event) : P ev = true -> holds (emit ev) (fun _ => True).
Proof. intros Hev st Hst. apply wp_emit. split; [|exact I]. now apply quiet_emit. Qed.

Lemma holds_local {A} (f : St -> option A) name :
  X (UnboundLocalError name) -> holds (local f name) (fun _ => True).
Proof. intros HX st Hst. apply wp_local. destruct (f st); split; auto. Qed.

Lemma holds_local_unbound {A} (f : St -> option A) name (R : A -> Prop) :
  X (UnboundLocalError name) ->
  (forall st, quiet st -> f st = None) ->
  holds (local f name) R.
Proof.
  intros HX Hf st Hst. apply wp_local. rewrite (Hf st Hst). split; auto.
Qed.

Lemma holds_assert cond msg :
  X (AssertionError msg) -> holds (assert cond msg) (fun _ => cond = true).
Proof. intros HX st Hst. apply wp_assert; intros Hc; split; auto. Qed.

Lemma holds_if {A} (b : bool) (m1 m2 : M A) (R : A -> Prop) :
  (b = true -> holds m1 R) -> (b = false -> holds m2 R) ->
  holds (if b then m1 else m2) R.
Proof. destruct b; auto. Qed.

(** From a statement that keeps the invariant to any property of the
    statements that follow it. *)
Lemma holds_then_wp {A B} (m : M A) (k : A -> M B) (R : A -> Prop)
    (Q : B -> St -> Prop) (E : exn -> St -> Prop) (st : St) :
  holds m R ->
  quiet st ->
  (forall a st', quiet st' -> R a -> wp (k a) Q E st') ->
  (forall e st', quiet st' -> X e -> E e st') ->
  wp (mthen m k) Q E st.
Proof.
  intros Hm Hst Hk HE. apply wp_mthen.
  eapply wp_weaken; [apply Hm; exact Hst| |].
  - intros a st' [Hst' Ha]. now apply Hk.
  - intros e st' [Hst' He]. now apply HE.
Qed.

End Holds.

(** One step through a statement that keeps [quiet]. *)
Ltac holds_step :=
  lazymatch goal with
  | |- holds _ _ _ (mthen _ _) _ => eapply holds_mthen; [|intros ? ?]
  | |- holds _ _ _ (mreturn _) _ =>
      first [ refine (holds_mreturn _ _ _ _ (fun _ => True) I)
            | apply holds_mreturn ]
  | |- holds _ _ _ (get _) _ => apply holds_get
  | |- holds _ _ _ (emit _) _ => apply holds_emit; [assumption|]
  | |- holds _ _ _ (local _ _) _ => apply holds_local
  | |- holds _ _ _ (modify _) _ =>
      apply holds_modify; [assumption|intros ?; reflexivity..]
  | |- holds _ _ _ (mthrow _) _ => apply holds_mthrow
  | |- holds _ _ _ (if ?b then _ else _) _ => destruct b eqn:?
  end.

Section HoldsPasses.

Context {F : Framework} {MeterT : Type} {meterT : Meter MeterT}.
Variable P : Event -> bool.
Variable C : St -> Prop.
Variable X : exn -> Prop.
Hypothesis C_locals : reads_locals C.
Variable args : Args.

Local Abbreviation holds := (holds P C X).

Lemma train_frame (l : Loader) (c : Criterion) (o : Optimizer) (epoch : Z) (st : St) :
  same_locals st (fst (train args l c o epoch st)) /\
  fs (fst (train args l c o epoch st)) = fs st.
Proof.
  rewrite train_eq. cbv zeta. cbn [fst]. split; try constructor; reflexivity.
Qed.

Lemma validate_outcome (l : Loader) (c : Criterion) (st : St) :
  match snd (validate args l c st) with
  | inl e => pass_error e \/ e = ValueError "unpack"
  | inr r => track_correct args = true -> r = None
  end.
Proof.
  rewrite validate_eq. cbv zeta.
  destruct (validate_batches _ _ _ _ _ _ _) as [e|p] eqn:Hrun; cbn [snd].
  { left. exact (validate_batches_error _ _ _ _ _ _ _ _ Hrun). }
  destruct (track_correct args); [|cbn; discriminate].
  unfold split_outpath.
  destruct (py_split "." (outpath args)) as [|a [|b [|? ?]]]; cbn; auto.
Qed.

Lemma holds_validate (l : Loader) (c : Criterion) :
  (forall e, pass_error e -> X e) -> X (ValueError "unpack") ->
  holds (validate args l c) (fun r => track_correct args = true -> r = None).
Proof.
  intros HZ HV st Hst. unfold wp.
  destruct (validate_frame args l c st) as (_ & _ & _ & [Hc _ _ Hl Hlf _ _ Htr] & _).
  pose proof (validate_outcome l c st) as Hout.
  destruct (validate args l c st) as [st' [e|r]]; cbn [fst snd] in *.
  - split; [now apply (quiet_frame P C C_locals st)|].
    destruct Hout as [Hp|He]; [now apply HZ|subst; assumption].
  - split; [now apply (quiet_frame P C C_locals st)|exact Hout].
Qed.

Lemma train_outcome (l : Loader) (c : Criterion) (o : Optimizer) (epoch : Z) (st : St) e :
  snd (train args l c o epoch st) = inl e -> pass_error e.
Proof.
  rewrite train_eq. cbv zeta. cbn [snd].
  destruct (train_batches _ _ _ _ _ _ _ _) as [t' [e'|]] eqn:Hrun; cbn [snd];
    [|discriminate].
  intros H. inversion H; subst e'. exact (train_batches_error _ _ _ _ _ _ _ _ _ _ Hrun).
Qed.

Lemma holds_train (l : Loader) (c : Criterion) (o : Optimizer) (epoch : Z) :
  (forall e, pass_error e -> X e) ->
  holds (train args l c o epoch) (fun _ => True).
Proof.
  intros HZ st Hst. unfold wp.
  destruct (train_frame l c o epoch st) as ([Hc _ _ Hl Hlf _ _ Htr] & _).
  pose proof (train_outcome l c o epoch st) as Hout.
  destruct (train args l c o epoch st) as [st' [e|r]]; cbn [fst snd] in *.
  - split; [now apply (quiet_frame P C C_locals st)|]. apply HZ. now apply Hout.
  - split; [now apply (quiet_frame P C C_locals st)|exact I].
Qed.

End HoldsPasses.

Section HoldsSetup.

Context {F : Framework} {MeterT : Type} {meterT : Meter MeterT}.
Variable P : Event -> bool.
Variable C : St -> Prop.
Variable X : exn -> Prop.
Hypothesis C_locals : reads_locals C.
Hypothesis P_setup : forall ev, is_setup_call ev = true -> P ev = true.
Hypothesis X_setup : forall e, setup_error e -> X e.
Variable sub_loader : Loader.
Variable args : Args.

Local Abbreviation holds := (holds P C X).

Lemma holds_make_optimizer kind params kwargs :
  holds (make_optimizer args kind params kwargs) (fun _ => True).
Proof.
  unfold make_optimizer. repeat holds_step. now apply P_setup.
Qed.

Lemma holds_define_optimizer : holds (define_optimizer args) (fun _ => True).
Proof.
  unfold define_optimizer. repeat holds_step; try apply holds_make_optimizer.
  now apply X_setup.
Qed.

Lemma holds_define_initial_lr : holds (define_initial_lr args) (fun _ => True).
Proof.
  unfold define_initial_lr. holds_step; [apply holds_make_optimizer|holds_step].
Qed.

Lemma holds_define_scheduler : holds (define_scheduler args) (fun _ => True).
Proof.
  unfold define_scheduler. repeat holds_step; try (now apply X_setup); try exact I.
  now apply P_setup.
Qed.

Lemma holds_resume_checkpoint : holds (resume_checkpoint args) (fun _ => True).
Proof.
  unfold resume_checkpoint. holds_step; [holds_step|].
  holds_step; [holds_step|].
  destruct (_ !! _) as [[checkpoint| | |]|]; repeat holds_step;
    try (now apply X_setup); try (now apply P_setup); exact I.
Qed.

(** Lines 133-259 return only when [args.mix_cifar] is not set. *)
Lemma holds_load_data :
  holds (load_data sub_loader args) (fun _ => mix_cifar args = false).
Proof.
  unfold load_data. destruct (mix_cifar args).
  - eapply holds_mthen with (R := fun _ => False); [|intros ? []].
    eapply holds_mthen; [apply holds_assert; now apply X_setup|intros _ _].
    eapply holds_mthen; [apply holds_assert; now apply X_setup|intros _ _].
    eapply holds_mthen; [apply holds_assert; now apply X_setup|intros _ _].
    eapply holds_mthen; [apply holds_assert; now apply X_setup|intros _ _].
    apply holds_mthrow. now apply X_setup.
  - eapply holds_mthen; [holds_step|intros _ _].
    destruct (String.eqb _ _).
    + now apply holds_mreturn.
    + eapply holds_weaken; [apply holds_modify; [assumption|intros ?; reflexivity..]|].
      reflexivity.
Qed.

(** Lines 265-287 return only when neither [args.track_weights] nor
    [args.scale_weights] is set. *)
Lemma holds_prepare_tracking :
  holds (prepare_tracking args)
        (fun _ => track_weights args = false /\ scale_weights args = false).
Proof.
  unfold prepare_tracking. destruct (track_weights args).
  - eapply holds_mthen with (R := fun _ => False); [|intros ? []].
    apply holds_mthrow. now apply X_setup.
  - eapply holds_mthen; [holds_step|intros _ _].
    destruct (scale_weights args).
    + apply holds_mthrow. now apply X_setup.
    + now apply holds_mreturn.
Qed.

End HoldsSetup.

Section Never.

Context {F : Framework} {MeterT : Type} {meterT : Meter MeterT}.
Variable built_model : Model.
Variable train_loader : Loader.
Variable val_loader : Loader.
Variable sub_loader : Loader.
Variable args : Args.
Variable files : gmap string File.

Local Abbreviation main_worker := (main_worker train_loader val_loader sub_loader args).
Local Abbreviation epoch_body := (epoch_body train_loader val_loader args).
Local Abbreviation epoch_loop := (epoch_loop train_loader val_loader args).

Lemma log_empty_locals : reads_locals log_empty.
Proof. intros st st' _ Hl _ H. unfold log_empty in *. congruence. Qed.

Lemma no_criterion_locals : reads_locals (no_criterion args).
Proof. intros st st' Hc Hl Hlf (H1 & H2 & H3). repeat split; congruence. Qed.

Lemma holds_define_criterion_log P X :
  holds P log_empty X define_criterion (fun _ => True).
Proof.
  unfold define_criterion.
  eapply holds_mthen; [apply holds_get|intros loss_func _].
  destruct (in_list _ _).
  { apply holds_modify_locals; [intros ?; reflexivity|]. now intros st [_ H]. }
  destruct (in_list _ _); [|now apply holds_mreturn].
  eapply holds_mthen; [|intros _ _].
  all: apply holds_modify_locals; [intros ?; reflexivity|]; now intros st [_ H].
Qed.

(** *** Options that stop a run before it trains *)

(** With [--mix-cifar], or in a training run with [--track-weights] or
    [--scale-weights], [main_worker] never returns normally: when nothing
    raises before, it raises at the first name that is bound nowhere
    ([train_sampler], read at line 241 before line 244 assigns it;
    [get_weights]; [cur_weights]).  It has then built at most the optimizer
    and the scheduler and loaded the checkpoint: nothing is trained,
    evaluated, logged or saved. *)
Theorem unbound_names_stop_before_training :
  let run := main_worker (initial built_model args files) in
  mix_cifar args = true \/
  evaluate args = false /\ (track_weights args = true \/ scale_weights args = true) ->
  snd run <> inr tt /\
  forallb is_setup_call (trace (fst run)) = true /\
  train_log (fst run) = [].
Proof.
  cbv zeta. intros Hopt.
  assert (H : holds is_setup_call log_empty setup_error main_worker (fun _ => False)).
  { unfold Train.main_worker.
    pose proof log_empty_locals as HL.
    eapply holds_mthen; [apply holds_define_criterion_log|intros _ _].
    eapply holds_mthen; [apply holds_define_optimizer; auto|intros _ _].
    eapply holds_mthen; [apply holds_define_initial_lr; auto|intros _ _].
    eapply holds_mthen; [apply holds_define_scheduler; auto|intros _ _].
    eapply holds_mthen; [apply holds_resume_checkpoint; auto|intros _ _].
    eapply holds_mthen; [apply holds_load_data; auto|intros [] Hmix].
    destruct Hopt as [Hm|[Heval Hw]]; [congruence|]. rewrite Heval.
    eapply holds_mthen; [apply holds_prepare_tracking; auto|intros [] [Htw Hsw]].
    destruct Hw; congruence. }
  specialize (H (initial built_model args files)). unfold wp in H.
  destruct (main_worker (initial built_model args files)) as [st' [e|[]]];
    cbn [fst snd].
  - destruct H as [[HP HC] HX]; [split; reflexivity|].
    split; [discriminate|]. split; assumption.
  - destruct H as [_ []]. split; reflexivity.
Qed.

(** *** Options with which no epoch is ever logged *)

Lemma setup_is_no_log (ev : Event) : is_setup_call ev = true -> no_log_call ev = true.
Proof. destruct ev; cbn; congruence. Qed.

Lemma holds_unpack_validate P C X (r : option (Q * Q)) (R : Acc -> Prop) :
  (forall e, X e) -> r = None -> holds P C X (unpack_validate r) R.
Proof. intros HX ->. apply holds_mthrow. apply HX. Qed.

Lemma holds_unpack_validate_any P C X (r : option (Q * Q)) :
  (forall e, X e) -> holds P C X (unpack_validate r) (fun _ => True).
Proof.
  intros HX. destruct r as [[a b]|]; [now apply holds_mreturn|].
  apply holds_mthrow. apply HX.
Qed.

(** An iteration of the epoch loop does not reach its end when
    [validate] returns [None] or the Jacobian is asked for. *)
Lemma epoch_body_lost (epoch : Z) :
  compute_jacobian args = true \/ track_correct args = true ->
  holds no_log_call log_empty (fun _ => True) (epoch_body epoch) (fun _ => False).
Proof.
  intros Hopt. pose proof log_empty_locals as HL.
  assert (HX : forall e : exn, (fun _ : exn => True) e) by (intros; exact I).
  unfold Train.epoch_body.
  eapply holds_mthen with (R := fun _ => True); [|intros _ _].
  { destruct (_ && _); repeat holds_step; try exact I; reflexivity. }
  eapply holds_mthen; [apply holds_local; exact I|intros c _].
  eapply holds_mthen; [apply holds_local; exact I|intros o _].
  eapply holds_mthen; [apply holds_emit; [assumption|reflexivity]|intros _ _].
  eapply holds_mthen; [apply holds_train; [assumption|intros; exact I]|intros _ _].
  eapply holds_mthen with (R := fun _ => True); [|intros _ _].
  { destruct (schedule_lr args); repeat holds_step; try exact I; reflexivity. }
  eapply holds_mthen; [apply holds_emit; [assumption|reflexivity]|intros _ _].
  eapply holds_mthen; [apply holds_validate; [assumption|intros; exact I|exact I]|intros r Hr].
  destruct (track_correct args) eqn:Htc.
  { apply holds_mthen with (R := fun _ => False); [|intros ? []].
    apply holds_unpack_validate; auto. }
  destruct Hopt as [Hj|]; [|discriminate].
  eapply holds_mthen; [apply holds_unpack_validate_any; auto|intros train_acc _].
  eapply holds_mthen; [apply holds_emit; [assumption|reflexivity]|intros _ _].
  eapply holds_mthen; [apply holds_validate; [assumption|intros; exact I|exact I]|intros r2 _].
  eapply holds_mthen; [apply holds_unpack_validate_any; auto|intros test_acc _].
  eapply holds_mthen with (R := fun _ => True); [|intros subset_acc _].
  { destruct (_ || _); [|now apply holds_mreturn].
    eapply holds_mthen; [apply holds_local; exact I|intros l2 _].
    eapply holds_mthen; [apply holds_emit; [assumption|reflexivity]|intros _ _].
    eapply holds_mthen; [apply holds_validate; [assumption|intros; exact I|exact I]|intros r3 _].
    eapply holds_mthen; [apply holds_unpack_validate_any; auto|intros a _].
    now apply holds_mreturn. }
  rewrite Hj.
  apply holds_mthen with (R := fun _ => False); [|intros ? []].
  apply holds_mthrow. exact I.
Qed.

Lemma epoch_loop_lost (todo : list Z) :
  compute_jacobian args = true \/ track_correct args = true ->
  holds no_log_call log_empty (fun _ => True) (epoch_loop todo) (fun _ => True).
Proof.
  intros Hopt. destruct todo as [|epoch rest]; cbn [Train.epoch_loop].
  - now apply holds_mreturn.
  - apply holds_mthen with (R := fun _ => False); [|intros ? []].
    now apply epoch_body_lost.
Qed.

(** With [--compute-jacobian] or [--track-correct] a run writes no log and
    saves no checkpoint, however many epochs it is asked for: the first
    iteration of the epoch loop trains and evaluates and then raises, at
    the unbound [get_jacobian_prod] or at the unpacking of the [None] that
    [validate] returned, before the entry of the epoch is appended. *)
Theorem runs_that_log_nothing :
  let run := main_worker (initial built_model args files) in
  compute_jacobian args = true \/ track_correct args = true ->
  forallb no_log_call (trace (fst run)) = true /\
  train_log (fst run) = [].
Proof.
  cbv zeta. intros Hopt.
  assert (H : holds no_log_call log_empty (fun _ => True) main_worker (fun _ => True)).
  { unfold Train.main_worker.
    pose proof log_empty_locals as HL. pose proof setup_is_no_log as HS.
    assert (HX : forall e : exn, setup_error e -> (fun _ : exn => True) e)
      by (intros; exact I).
    eapply holds_mthen; [apply holds_define_criterion_log|intros _ _].
    eapply holds_mthen; [apply holds_define_optimizer; auto|intros _ _].
    eapply holds_mthen; [apply holds_define_initial_lr; auto|intros _ _].
    eapply holds_mthen; [apply holds_define_scheduler; auto|intros _ _].
    eapply holds_mthen; [apply holds_resume_checkpoint; auto|intros _ _].
    eapply holds_mthen; [apply holds_load_data; auto|intros [] _].
    destruct (evaluate args).
    - eapply holds_mthen; [apply holds_local; exact I|intros c _].
      eapply holds_mthen; [apply holds_emit; [assumption|reflexivity]|intros _ _].
      eapply holds_mthen; [apply holds_validate; [assumption|intros; exact I|exact I]|intros r _].
      now apply holds_mreturn.
    - eapply holds_mthen; [apply holds_prepare_tracking; auto|intros [] _].
      eapply holds_mthen; [apply holds_emit; [assumption|reflexivity]|intros _ _].
      eapply holds_mthen; [|intros _ _].
      { apply holds_modify_locals; [intros ?; reflexivity|]. reflexivity. }
      eapply holds_mthen; [apply holds_get|intros start _].
      now apply epoch_loop_lost. }
  specialize (H (initial built_model args files)). unfold wp in H.
  destruct (main_worker (initial built_model args files)) as [st' [e|[]]];
    cbn [fst snd]; destruct H as [[HP HC] _]; try (split; reflexivity); auto.
Qed.

(** *** A loss function that is not known *)

Lemma setup_is_idle (ev : Event) : is_setup_call ev = true -> idle_call ev = true.
Proof. destruct ev; cbn; congruence. Qed.

Lemma epoch_body_unbound_criterion (epoch : Z) :
  holds idle_call (no_criterion args) (fun _ => True) (epoch_body epoch) (fun _ => False).
Proof.
  pose proof no_criterion_locals as HL. unfold Train.epoch_body.
  eapply holds_mthen with (R := fun _ => True); [|intros _ _].
  { destruct (_ && _); repeat holds_step; try exact I; reflexivity. }
  apply holds_mthen with (R := fun _ => False); [|intros ? []].
  apply holds_local_unbound; [exact I|]. now intros st [_ [H _]].
Qed.

(** A name of the loss function that lines 76-82 do not know is not
    refused: [criterion] stays unbound, the optimizer and the scheduler are
    built and the checkpoint is loaded as usual, and the run stops only
    where [criterion] is first read.  It never trains or evaluates, writes
    no log and saves no checkpoint; in evaluation mode it never returns. *)
Theorem unknown_loss_never_trains :
  let run := main_worker (initial built_model args files) in
  ~ In (loss_func args)
       ["cross"; "cross_entropy"; "entropy"; "l2"; "l2_squared"; "squared"; "MSE"] ->
  forallb idle_call (trace (fst run)) = true /\
  criterion (fst run) = None /\
  train_log (fst run) = [] /\
  (snd run = inr tt -> evaluate args = false).
Proof.
  cbv zeta. intros Hname.
  assert (Hl1 : in_list (loss_func args) ["cross"; "cross_entropy"; "entropy"] = false).
  { apply not_true_is_false. intros H. apply Hname. unfold in_list in H.
    apply existsb_exists in H. destruct H as (x & Hx & Heq).
    apply String.eqb_eq in Heq. subst x. cbn in Hx. cbn. tauto. }
  assert (Hl2 : in_list (loss_func args) ["l2"; "l2_squared"; "squared"; "MSE"] = false).
  { apply not_true_is_false. intros H. apply Hname. unfold in_list in H.
    apply existsb_exists in H. destruct H as (x & Hx & Heq).
    apply String.eqb_eq in Heq. subst x. cbn in Hx. cbn. tauto. }
  assert (H : holds idle_call (no_criterion args) (fun _ => True) main_worker
                (fun _ => evaluate args = false)).
  { unfold Train.main_worker.
    pose proof no_criterion_locals as HL. pose proof setup_is_idle as HS.
    assert (HX : forall e : exn, setup_error e -> (fun _ : exn => True) e)
      by (intros; exact I).
    eapply holds_mthen with (R := fun _ => True); [|intros _ _].
    { intros st Hst. unfold wp, define_criterion, mthen, get, modify, mreturn.
      destruct Hst as [HP (Hc & Hlf & Hlog)]. rewrite Hlf, Hl1, Hl2.
      repeat split; assumption. }
    eapply holds_mthen; [apply holds_define_optimizer; auto|intros _ _].
    eapply holds_mthen; [apply holds_define_initial_lr; auto|intros _ _].
    eapply holds_mthen; [apply holds_define_scheduler; auto|intros _ _].
    eapply holds_mthen; [apply holds_resume_checkpoint; auto|intros _ _].
    eapply holds_mthen; [apply holds_load_data; auto|intros [] _].
    destruct (evaluate args).
    - apply holds_mthen with (R := fun _ => False); [|intros ? []].
      apply holds_local_unbound; [exact I|]. now intros st [_ [H _]].
    - eapply holds_mthen; [apply holds_prepare_tracking; auto|intros [] _].
      eapply holds_mthen; [apply holds_emit; [assumption|reflexivity]|intros _ _].
      eapply holds_mthen; [|intros _ _].
      { apply holds_modify_locals; [intros ?; reflexivity|].
        intros st [_ (Hc & Hlf & _)]. repeat split; assumption. }
      eapply holds_mthen; [apply holds_get|intros start _].
      destruct (py_range start (epochs args)) as [|epoch rest]; cbn [Train.epoch_loop].
      + now apply holds_mreturn.
      + apply holds_mthen with (R := fun _ => False); [|intros ? []].
        apply epoch_body_unbound_criterion. }
  specialize (H (initial built_model args files)). unfold wp in H.
  destruct (main_worker (initial built_model args files)) as [st' [e|[]]];
    cbn [fst snd].
  - destruct H as [[HP (Hc & _ & Hlog)] _]; [repeat split; reflexivity|].
    repeat split; try assumption. discriminate.
  - destruct H as [[HP (Hc & _ & Hlog)] He]; [repeat split; reflexivity|].
    repeat split; auto.
Qed.

(** *** Evaluation only *)

Lemma wp_validate_frame (l : Loader) c (Q : option (Q * Q) -> St -> Prop)
    (E : exn -> St -> Prop) (st : St) :
  (forall st1 r, trace st1 = trace st -> train_log st1 = train_log st ->
     match r with
     | inr a => Q a st1
     | inl e => E e st1
     end) ->
  wp (validate args l c) Q E st.
Proof.
  intros H. unfold wp.
  destruct (validate_frame args l c st) as (_ & _ & _ & [_ _ _ Hl _ _ _ Htr] & _).
  specialize (H (fst (validate args l c st)) (snd (validate args l c st)) Htr Hl).
  destruct (validate args l c st) as [st' [e|r]]; exact H.
Qed.

(** With [--evaluate], [main_worker] builds the optimizer and the
    scheduler and loads the checkpoint as a training run does, then makes
    at most one call, the evaluation on the validation loader, and exactly
    that one when it returns: it never trains, never calls [save_config],
    writes no log and saves no checkpoint. *)
Theorem evaluate_validates_once :
  let run := main_worker (initial built_model args files) in
  evaluate args = true ->
  exists setup,
    forallb is_setup_call setup = true /\
    (trace (fst run) = setup \/ trace (fst run) = setup ++ [EvValidate ValLoader]) /\
    (snd run = inr tt -> trace (fst run) = setup ++ [EvValidate ValLoader]) /\
    train_log (fst run) = [].
Proof.
  cbv zeta. intros Heval.
  set (Post := fun (ok : bool) (st : St) =>
         exists setup,
           forallb is_setup_call setup = true /\
           (trace st = setup \/ trace st = setup ++ [EvValidate ValLoader]) /\
           (ok = true -> trace st = setup ++ [EvValidate ValLoader]) /\
           train_log st = []).
  assert (H : wp main_worker (fun _ st => Post true st) (fun _ st => Post false st)
                 (initial built_model args files)).
  { unfold Train.main_worker. rewrite Heval.
    pose proof log_empty_locals as HL.
    assert (HP : forall ev, is_setup_call ev = true -> is_setup_call ev = true) by auto.
    assert (HX : forall e : exn, setup_error e -> (fun _ : exn => True) e)
      by (intros; exact I).
    assert (HE : forall (e : exn) (st' : St),
              quiet is_setup_call log_empty st' -> True -> Post false st').
    { intros e st' [Hs Hlog] _. exists (trace st'). repeat split; auto. discriminate. }
    eapply (holds_then_wp is_setup_call log_empty (fun _ => True));
      [apply holds_define_criterion_log|split; reflexivity| |exact HE].
    intros _ st1 Hst1 _.
    eapply (holds_then_wp is_setup_call log_empty (fun _ => True));
      [apply holds_define_optimizer; auto|exact Hst1| |exact HE].
    intros _ st2 Hst2 _.
    eapply (holds_then_wp is_setup_call log_empty (fun _ => True));
      [apply holds_define_initial_lr; auto|exact Hst2| |exact HE].
    intros _ st3 Hst3 _.
    eapply (holds_then_wp is_setup_call log_empty (fun _ => True));
      [apply holds_define_scheduler; auto|exact Hst3| |exact HE].
    intros _ st4 Hst4 _.
    eapply (holds_then_wp is_setup_call log_empty (fun _ => True));
      [apply holds_resume_checkpoint; auto|exact Hst4| |exact HE].
    intros _ st5 Hst5 _.
    eapply (holds_then_wp is_setup_call log_empty (fun _ => True));
      [apply holds_load_data; auto|exact Hst5| |exact HE].
    intros [] st6 [Hs6 Hlog6] _.
    apply wp_mthen, wp_local.
    destruct (criterion st6) as [c|].
    2: { exists (trace st6). repeat split; auto. discriminate. }
    apply wp_mthen, wp_emit, wp_mthen, wp_validate_frame.
    intros st7 r Htr Hlog. cbn in Htr, Hlog.
    assert (HPost : forall ok, Post ok st7).
    { intros ok. exists (trace st6). rewrite Htr, Hlog. repeat split; auto. }
    destruct r as [e|r]; [apply HPost|]. apply wp_mreturn. apply HPost. }
  unfold wp in H.
  destruct (main_worker (initial built_model args files)) as [st' [e|[]]];
    cbn [fst snd]; destruct H as (setup & Hs & Htr & Hok & Hlog);
    exists setup; repeat split; auto. discriminate.
Qed.

End Never.

(** *** Label noise *)

Lemma map_const_length {A B C} (c : C) (l : list A) (l' : list B) :
  length l = length l' -> map (fun _ => c) l = map (fun _ => c) l'.
Proof.
  revert l'. induction l as [|x l IH]; intros [|y l'] Hlen; try discriminate; [reflexivity|].
  cbn. f_equal. apply IH. now inversion Hlen.
Qed.

(** [noisy_idx] reads only the length of [shuffled_idx]. *)
Lemma noisy_idx_length {A B} (C ipc ns i : Z) (l : list A) (l' : list B) :
  length l = length l' -> noisy_idx C ipc ns i l = noisy_idx C ipc ns i l'.
Proof.
  intros Hlen. unfold noisy_idx. f_equal.
  - induction (py_range 0 C) as [|r rest IH]; [reflexivity|].
    cbn [flat_map]. rewrite IH. f_equal.
    apply map_const_length. now apply py_slice_length.
  - apply map_const_length. now apply py_slice_to_length.
Qed.

(** The labels with noise do not depend on what [random.sample] draws:
    [noisy_idx] holds a label for every place of a slice of
    [shuffled_idx], whatever index is at that place, and is assigned to
    the samples of the class in the order of the dataset. *)
Theorem label_noise_ignores_the_shuffle (num_classes im_per_class num_shuffle : Z)
    (targets : list Z) (sample sample' : Z -> list nat -> list nat) :
  full_sample sample -> full_sample sample' ->
  inject_noise_labels num_classes im_per_class num_shuffle targets sample
  = inject_noise_labels num_classes im_per_class num_shuffle targets sample'.
Proof.
  intros Hs Hs'. unfold inject_noise_labels.
  generalize (ret (repeat 0 (length targets)) : result (list Z)).
  induction (py_range 0 num_classes) as [|i rest IH]; intros acc; [reflexivity|].
  cbn [fold_left]. rewrite <- IH. f_equal. unfold bind.
  destruct acc as [e|labels]; [reflexivity|].
  unfold inject_class. f_equal. apply noisy_idx_length. now rewrite Hs, Hs'.
Qed.

Lemma map_const_repeat {A C} (c : C) (l : list A) :
  map (fun _ => c) l = repeat c (length l).
Proof. induction l as [|x l IH]; cbn; [reflexivity|now rewrite IH]. Qed.

Lemma flat_map_in_ext {A B} (f g : A -> list B) (l : list A) :
  (forall x, In x l -> f x = g x) -> flat_map f l = flat_map g l.
Proof.
  induction l as [|x l IH]; intros H; [reflexivity|].
  cbn. rewrite (H x) by now left. rewrite IH; [reflexivity|].
  intros y Hy. apply H. now right.
Qed.

Lemma flat_map_repeat_length (n : nat) (l : list Z) :
  length (flat_map (fun r => repeat r n) l) = (n * length l)%nat.
Proof.
  induction l as [|x l IH]; cbn; [lia|]. rewrite length_app, repeat_length, IH. lia.
Qed.

(** The labels of a class that has at least [im_per_class] samples:
    [num_shuffle] times every label from 0 on, then its own label for the
    samples left. *)
Lemma noisy_idx_pattern {A} (C ipc ns i : Z) (shuffled : list A) :
  0 <= ns -> 0 <= C -> C * ns <= ipc -> ipc <= Z.of_nat (length shuffled) ->
  noisy_idx C ipc ns i shuffled
  = flat_map (fun r => repeat r (Z.to_nat ns)) (py_range 0 C)
    ++ repeat i (Z.to_nat (ipc - C * ns)).
Proof.
  intros Hns HC Hle Hlen. unfold noisy_idx. f_equal.
  - apply flat_map_in_ext. intros r Hr. apply in_py_range in Hr.
    rewrite map_const_repeat, py_slice_inside by nia. f_equal. lia.
  - rewrite map_const_repeat, py_slice_to_nat by lia.
    rewrite length_firstn. f_equal. lia.
Qed.

Lemma inject_class_overfull (C ipc ns : Z) (targets : list Z)
    (sample : Z -> list nat -> list nat) (labels : list Z) (i : Z) :
  full_sample sample ->
  0 <= ns -> 0 <= C -> C * ns <= ipc -> ipc <> 1 ->
  ipc < Z.of_nat (length (positions_of i targets)) ->
  inject_class C ipc ns targets sample labels i = inl (ValueError "shape mismatch").
Proof.
  intros Hs Hns HC Hle H1 Hm. unfold inject_class, assign_at.
  assert (Hlen : Z.of_nat (length (noisy_idx C ipc ns i (sample i (positions_of i targets))))
                 = ipc).
  { rewrite noisy_idx_pattern by (rewrite ?Hs; lia).
    rewrite length_app, repeat_length, flat_map_repeat_length, py_range_length. nia. }
  destruct (Nat.eqb_spec (length (noisy_idx C ipc ns i (sample i (positions_of i targets))))
                         (length (positions_of i targets))) as [E|_]; [lia|].
  destruct (noisy_idx C ipc ns i (sample i (positions_of i targets))) as [|v [|w rest]];
    try reflexivity.
  cbn in Hlen. lia.
Qed.

Lemma inject_fold_error (C ipc ns : Z) (targets : list Z)
    (sample : Z -> list nat -> list nat) (classes : list Z) (e : exn) :
  fold_left (fun acc i =>
               let* noisy_labels := acc in
               inject_class C ipc ns targets sample noisy_labels i)
            classes (inl e) = inl e.
Proof. induction classes as [|i rest IH]; [reflexivity|exact IH]. Qed.

Lemma inject_class_error (C ipc ns : Z) (targets : list Z)
    (sample : Z -> list nat -> list nat) (labels : list Z) (i : Z) (e : exn) :
  inject_class C ipc ns targets sample labels i = inl e -> e = ValueError "shape mismatch".
Proof.
  unfold inject_class, assign_at. destruct (_ =? _)%nat; [discriminate|].
  destruct (noisy_idx _ _ _ _ _) as [|v [|w rest]]; intros H; inversion H; reflexivity.
Qed.

Lemma inject_fold_overfull (C ipc ns : Z) (targets : list Z)
    (sample : Z -> list nat -> list nat) (classes : list Z) (i : Z) :
  full_sample sample ->
  0 <= ns -> 0 <= C -> C * ns <= ipc -> ipc <> 1 ->
  ipc < Z.of_nat (length (positions_of i targets)) ->
  In i classes ->
  forall labels,
    fold_left (fun acc i =>
                 let* noisy_labels := acc in
                 inject_class C ipc ns targets sample noisy_labels i)
              classes (inr labels) = inl (ValueError "shape mismatch").
Proof.
  intros Hs Hns HC Hle H1 Hm.
  induction classes as [|j rest IH]; intros Hin labels; [destruct Hin|].
  cbn [fold_left bind].
  destruct (inject_class C ipc ns targets sample labels j) as [e|labels'] eqn:Hj.
  - apply inject_class_error in Hj. subst e. apply inject_fold_error.
  - destruct Hin as [->|Hin]; [|now apply IH].
    rewrite inject_class_overfull in Hj by assumption. discriminate.
Qed.

(** A class with more than [im_per_class] samples stops the injection:
    its [noisy_idx] has [im_per_class] labels for more samples. *)
Lemma inject_noise_overfull (num_classes im_per_class num_shuffle : Z)
    (targets : list Z) (sample : Z -> list nat -> list nat) (i : Z) :
  full_sample sample ->
  0 <= num_shuffle -> num_classes * num_shuffle <= im_per_class ->
  im_per_class <> 1 ->
  0 <= i < num_classes ->
  im_per_class < Z.of_nat (length (positions_of i targets)) ->
  inject_noise_labels num_classes im_per_class num_shuffle targets sample
  = inl (ValueError "shape mismatch").
Proof.
  intros Hs Hns Hle H1 Hi Hm. unfold inject_noise_labels.
  apply (inject_fold_overfull num_classes im_per_class num_shuffle targets sample
           (py_range 0 num_classes) i); try assumption; try lia.
  now apply in_py_range.
Qed.

(** *** The labels of balanced classes *)

Lemma positions_from_spec (i : Z) (targets : list Z) : forall k p,
  In p (positions_from k i targets) <->
  (k <= p)%nat /\ targets !! (p - k)%nat = Some i.
Proof.
  induction targets as [|label rest IH]; intros k p; cbn [positions_from].
  - split; [intros []|intros [_ H]; discriminate].
  - assert (Hrest : In p (positions_from (S k) i rest) <->
                    (k < p)%nat /\ (label :: rest) !! (p - k)%nat = Some i).
    { rewrite IH. split.
      - intros [Hp H]. split; [lia|].
        replace (p - k)%nat with (S (p - S k)) by lia. exact H.
      - intros [Hp H]. split; [lia|].
        replace (p - k)%nat with (S (p - S k)) in H by lia. exact H. }
    destruct (Z.eqb_spec label i) as [->|Hne].
    + cbn [In]. rewrite Hrest. split.
      * intros [<-|[Hp H]]; [|split; [lia|exact H]].
        split; [lia|]. now rewrite Nat.sub_diag.
      * intros [Hp H]. destruct (Nat.eq_dec k p) as [->|Hkp]; [now left|].
        right. split; [lia|exact H].
    + rewrite Hrest. split.
      * intros [Hp H]. split; [lia|exact H].
      * intros [Hp H]. split; [|exact H].
        destruct (Nat.eq_dec k p) as [->|Hkp]; [|lia].
        rewrite Nat.sub_diag in H. cbn in H. congruence.
Qed.

Lemma positions_from_NoDup (i : Z) (targets : list Z) : forall k,
  List.NoDup (positions_from k i targets).
Proof.
  induction targets as [|label rest IH]; intros k; cbn [positions_from].
  - constructor.
  - destruct (label =? i); [|apply IH].
    constructor; [|apply IH]. intros Hin. apply positions_from_spec in Hin. lia.
Qed.

Lemma positions_of_spec (i : Z) (targets : list Z) (p : nat) :
  In p (positions_of i targets) <-> targets !! p = Some i.
Proof.
  unfold positions_of. rewrite positions_from_spec, Nat.sub_0_r. intuition lia.
Qed.

(** An assignment changes the places it names and no other. *)
Lemma assign_fold_other (idx : list nat) : forall (vals a : list Z) (q : nat),
  ~ In q idx ->
  fold_left (fun acc p => <[fst p := snd p]> acc) (combine idx vals) a !! q = a !! q.
Proof.
  induction idx as [|p idx IH]; intros vals a q Hq; [reflexivity|].
  destruct vals as [|v vals]; [reflexivity|]. cbn [combine fold_left fst snd].
  rewrite IH by (intros H; apply Hq; now right).
  apply list_lookup_insert_ne. intros ->. apply Hq. now left.
Qed.

Lemma assign_fold_length (idx : list nat) : forall (vals a : list Z),
  length (fold_left (fun acc p => <[fst p := snd p]> acc) (combine idx vals) a) = length a.
Proof.
  induction idx as [|p idx IH]; intros vals a; [reflexivity|].
  destruct vals as [|v vals]; [reflexivity|]. cbn [combine fold_left fst snd].
  now rewrite IH, length_insert.
Qed.

Lemma assign_fold_lookup (idx : list nat) : forall (vals a : list Z) (k p : nat) (v : Z),
  List.NoDup idx -> (forall p, In p idx -> (p < length a)%nat) ->
  idx !! k = Some p -> vals !! k = Some v ->
  fold_left (fun acc p => <[fst p := snd p]> acc) (combine idx vals) a !! p = Some v.
Proof.
  induction idx as [|p0 idx IH]; intros vals a k p v Hnd Hin Hk Hv; [discriminate|].
  destruct vals as [|v0 vals]; [destruct k; discriminate|].
  inversion Hnd as [|? ? Hp0 Hnd']; subst. cbn [combine fold_left fst snd].
  destruct k as [|k].
  - cbn in Hk, Hv. inversion Hk; inversion Hv; subst.
    rewrite assign_fold_other by exact Hp0.
    apply list_lookup_insert_eq. apply Hin. now left.
  - cbn in Hk, Hv. apply (IH vals _ k); try assumption.
    intros q Hq. rewrite length_insert. apply Hin. now right.
Qed.

Section Balanced.

Variables (num_classes im_per_class num_shuffle : Z) (targets : list Z) (sample : Z -> list nat -> list nat).
Hypothesis sample_full : full_sample sample.
Hypothesis shuffle_nonneg : 0 <= num_shuffle.
Hypothesis classes_nonneg : 0 <= num_classes.
Hypothesis noise_fits : num_classes * num_shuffle <= im_per_class.

Lemma noise_pattern_length (i : Z) :
  Z.of_nat (length (noise_pattern num_classes im_per_class num_shuffle i)) = im_per_class.
Proof.
  unfold noise_pattern.
  rewrite length_app, repeat_length, flat_map_repeat_length, py_range_length. nia.
Qed.

Lemma inject_class_balanced (labels : list Z) (i : Z) :
  length labels = length targets ->
  Z.of_nat (length (positions_of i targets)) = im_per_class ->
  exists labels',
    inject_class num_classes im_per_class num_shuffle targets sample labels i = inr labels' /\
    length labels' = length targets /\
    (forall k p, positions_of i targets !! k = Some p ->
                 labels' !! p = noise_pattern num_classes im_per_class num_shuffle i !! k) /\
    (forall q, targets !! q <> Some i -> labels' !! q = labels !! q).
Proof.
  intros Hlen Hbal. unfold inject_class, assign_at.
  rewrite noisy_idx_pattern by (rewrite ?sample_full; lia).
  fold (noise_pattern num_classes im_per_class num_shuffle i).
  pose proof (noise_pattern_length i) as Hpat.
  destruct (Nat.eqb_spec (length (noise_pattern num_classes im_per_class num_shuffle i))
                         (length (positions_of i targets))) as [E|E]; [|lia].
  eexists. split; [reflexivity|]. split; [|split].
  - now rewrite assign_fold_length.
  - intros k p Hk.
    destruct (lookup_lt_is_Some_2 (noise_pattern num_classes im_per_class num_shuffle i) k) as [v Hv].
    { rewrite E. now apply lookup_lt_Some in Hk. }
    rewrite Hv. apply (assign_fold_lookup _ _ _ k); try assumption.
    + apply positions_from_NoDup.
    + intros q Hq. apply positions_of_spec in Hq. apply lookup_lt_Some in Hq. lia.
  - intros q Hq. apply assign_fold_other. now rewrite positions_of_spec.
Qed.

Lemma inject_fold_balanced (classes : list Z) :
  List.NoDup classes ->
  (forall i, In i classes -> Z.of_nat (length (positions_of i targets)) = im_per_class) ->
  forall labels, length labels = length targets ->
  exists labels',
    fold_left (fun acc i =>
                 let* noisy_labels := acc in
                 inject_class num_classes im_per_class num_shuffle targets sample noisy_labels i)
              classes (inr labels) = inr labels' /\
    length labels' = length targets /\
    (forall i, In i classes -> forall k p,
       positions_of i targets !! k = Some p ->
       labels' !! p = noise_pattern num_classes im_per_class num_shuffle i !! k) /\
    (forall q, (forall i, In i classes -> targets !! q <> Some i) ->
               labels' !! q = labels !! q).
Proof.
  induction classes as [|j rest IH]; intros Hnd Hbal labels Hlen.
  - exists labels. repeat split; try assumption. intros i [].
  - inversion Hnd as [|? ? Hj Hnd']; subst. cbn [fold_left bind].
    destruct (inject_class_balanced labels j Hlen (Hbal j (or_introl eq_refl)))
      as (labels1 & Hrun1 & Hlen1 & Hpat1 & Hother1).
    rewrite Hrun1.
    destruct (IH Hnd' (fun i Hi => Hbal i (or_intror Hi)) labels1 Hlen1)
      as (labels' & Hrun & Hlen' & Hpat & Hother).
    exists labels'. split; [exact Hrun|]. split; [exact Hlen'|]. split.
    + intros i [<-|Hi] k p Hk; [|now apply (Hpat i Hi)].
      rewrite Hother; [now apply Hpat1|].
      intros i Hi Hq. 
      assert (Hp : targets !! p = Some j).
      { apply positions_of_spec. apply list_elem_of_In. eapply list_elem_of_lookup_2. exact Hk. }
      rewrite Hp in Hq. inversion Hq; subst. contradiction.
    + intros q Hq. rewrite Hother by (intros i Hi; apply Hq; now right).
      apply Hother1. apply Hq. now left.
Qed.

(** On classes that all hold [im_per_class] samples the injection of noise
    returns, and lays the noise out in the order of the dataset: of the
    samples of class [i], the first [num_shuffle] get the label 0, the
    next [num_shuffle] the label 1, and so on for every class, and those
    left keep [i]; a sample whose label is not in [range(num_classes)]
    gets the label 0. *)
Theorem label_noise_on_balanced_classes :
  (forall i, 0 <= i < num_classes -> Z.of_nat (length (positions_of i targets)) = im_per_class) ->
  exists labels',
    inject_noise_labels num_classes im_per_class num_shuffle targets sample = inr labels' /\
    length labels' = length targets /\
    (forall i k p, 0 <= i < num_classes -> positions_of i targets !! k = Some p ->
                   labels' !! p = noise_pattern num_classes im_per_class num_shuffle i !! k) /\
    (forall q t, targets !! q = Some t -> ~ 0 <= t < num_classes -> labels' !! q = Some 0).
Proof.
  intros Hbal. unfold inject_noise_labels.
  destruct (inject_fold_balanced (py_range 0 num_classes) (py_range_NoDup 0 num_classes)) with
    (labels := repeat 0 (length targets))
    as (labels' & Hrun & Hlen & Hpat & Hother).
  - intros i Hi. apply Hbal. now apply in_py_range.
  - apply repeat_length.
  - exists labels'. split; [exact Hrun|]. split; [exact Hlen|]. split.
    + intros i k p Hi. apply Hpat. now apply in_py_range.
    + intros q t Hq Ht. rewrite Hother.
      * apply lookup_lt_Some in Hq. 
        destruct (lookup_lt_is_Some_2 (repeat 0 (length targets)) q) as [z Hz];
          [now rewrite repeat_length|].
        rewrite Hz. f_equal. 
        apply list_elem_of_lookup_2, list_elem_of_In, repeat_spec in Hz. exact Hz.
      * intros i Hi Hqi. apply in_py_range in Hi. rewrite Hq in Hqi.
        inversion Hqi; subst. contradiction.
Qed.

End Balanced.

(** *** Classes that are not balanced *)

Lemma list_sum_map_cons {A} (f : A -> nat) (x : A) (l : list A) :
  list_sum (map f (x :: l)) = (f x + list_sum (map f l))%nat.
Proof. reflexivity. Qed.

Lemma list_sum_map_add {A} (f g : A -> nat) (l : list A) :
  list_sum (map (fun x => (f x + g x)%nat) l)
  = (list_sum (map f l) + list_sum (map g l))%nat.
Proof.
  induction l as [|x l IH]; [reflexivity|]. rewrite !list_sum_map_cons, IH. lia.
Qed.

Lemma list_sum_map_zero (t : Z) (l : list Z) :
  ~ In t l -> list_sum (map (fun i => if t =? i then 1%nat else 0%nat) l) = 0%nat.
Proof.
  induction l as [|x l IH]; intros Hin; [reflexivity|]. rewrite list_sum_map_cons.
  destruct (Z.eqb_spec t x) as [->|_]; [exfalso; apply Hin; now left|].
  apply IH. intros H. apply Hin. now right.
Qed.

Lemma list_sum_map_once (t : Z) (l : list Z) :
  List.NoDup l -> In t l ->
  list_sum (map (fun i => if t =? i then 1%nat else 0%nat) l) = 1%nat.
Proof.
  induction l as [|x l IH]; intros Hnd Hin; [destruct Hin|].
  inversion Hnd as [|? ? Hx Hnd']; subst. rewrite list_sum_map_cons.
  destruct (Z.eqb_spec t x) as [->|Hne].
  - now rewrite list_sum_map_zero.
  - destruct Hin as [->|Hin]; [congruence|]. now apply IH.
Qed.

Lemma positions_from_cons_length (k : nat) (i t : Z) (rest : list Z) :
  length (positions_from k i (t :: rest))
  = ((if (t =? i)%Z then 1 else 0) + length (positions_from (S k) i rest))%nat.
Proof. cbn [positions_from]. now destruct (t =? i). Qed.

(** Every sample whose label is one of [classes] is at one position of one
    class. *)
Lemma positions_partition (classes : list Z) : List.NoDup classes ->
  forall (targets : list Z) (k : nat),
    (forall t, In t targets -> In t classes) ->
    list_sum (map (fun i => length (positions_from k i targets)) classes)
    = length targets.
Proof.
  intros Hnd. induction targets as [|t rest IH]; intros k Hin.
  - clear Hnd Hin. induction classes as [|x l IHl]; [reflexivity|].
    rewrite list_sum_map_cons. exact IHl.
  - rewrite (map_ext _ _ (fun i => positions_from_cons_length k i t rest)).
    rewrite list_sum_map_add, list_sum_map_once; try assumption.
    + rewrite IH; [reflexivity|]. intros u Hu. apply Hin. now right.
    + apply Hin. now left.
Qed.

Lemma list_sum_bound (f : Z -> nat) (b : nat) (l : list Z) :
  (forall i, In i l -> (f i <= b)%nat) ->
  (list_sum (map f l) <= length l * b)%nat.
Proof.
  induction l as [|x l IH]; intros H; [cbn; lia|]. rewrite list_sum_map_cons.
  pose proof (H x (or_introl eq_refl)).
  pose proof (IH (fun i Hi => H i (or_intror Hi))). cbn [length]. lia.
Qed.

Lemma list_sum_bound_strict (f : Z -> nat) (b : nat) (l : list Z) (j : Z) :
  (forall i, In i l -> (f i <= b)%nat) -> In j l -> (f j < b)%nat ->
  (list_sum (map f l) < length l * b)%nat.
Proof.
  induction l as [|x l IH]; intros H Hj Hlt; [destruct Hj|].
  rewrite list_sum_map_cons. cbn [length].
  pose proof (H x (or_introl eq_refl)).
  destruct Hj as [->|Hj].
  - pose proof (list_sum_bound f b l (fun i Hi => H i (or_intror Hi))). lia.
  - pose proof (IH (fun i Hi => H i (or_intror Hi)) Hj Hlt). lia.
Qed.

(** The noise needs balanced classes.  [im_per_class] is at most
    [len(train_dataset) / args.num_classes], as line 197 makes it; when
    every label is in [range(args.num_classes)] and one class does not
    hold exactly [im_per_class] samples, the assignment of line 207 raises
    the [ValueError] of a shape mismatch ([im_per_class] being 1 apart,
    where the one label is broadcast). *)
Theorem label_noise_needs_balanced_classes (num_classes im_per_class num_shuffle : Z)
    (targets : list Z) (sample : Z -> list nat -> list nat) (j : Z) :
  full_sample sample ->
  0 <= num_shuffle -> num_classes * num_shuffle <= im_per_class ->
  im_per_class <> 1 ->
  num_classes * im_per_class <= Z.of_nat (length targets) ->
  (forall t, In t targets -> 0 <= t < num_classes) ->
  0 <= j < num_classes ->
  Z.of_nat (length (positions_of j targets)) <> im_per_class ->
  inject_noise_labels num_classes im_per_class num_shuffle targets sample
  = inl (ValueError "shape mismatch").
Proof.
  intros Hs Hns Hle H1 Hfloor Hrange Hj Hne.
  destruct (existsb (fun i => im_per_class <? Z.of_nat (length (positions_of i targets)))
                    (py_range 0 num_classes)) eqn:E.
  - apply existsb_exists in E. destruct E as (i & Hi & Hm).
    apply in_py_range in Hi. apply Z.ltb_lt in Hm.
    now apply (inject_noise_overfull num_classes im_per_class num_shuffle targets sample i).
  - exfalso.
    assert (Hall : forall i, In i (py_range 0 num_classes) ->
                     (length (positions_from 0 i targets) <= Z.to_nat im_per_class)%nat).
    { intros i Hi.
      destruct (Z.ltb_spec im_per_class (Z.of_nat (length (positions_of i targets))))
        as [Hlt|Hge]; [|unfold positions_of in Hge; lia].
      assert (Hex : existsb (fun i => im_per_class <? Z.of_nat (length (positions_of i targets)))
                            (py_range 0 num_classes) = true).
      { apply existsb_exists. exists i. split; [exact Hi|now apply Z.ltb_lt]. }
      congruence. }
    assert (Hpos : 0 <= im_per_class) by nia.
    pose proof (list_sum_bound_strict
                  (fun i => length (positions_from 0 i targets)) (Z.to_nat im_per_class)
                  (py_range 0 num_classes) j Hall) as Hstrict.
    rewrite positions_partition in Hstrict.
    + rewrite py_range_length in Hstrict.
      assert (Hjlt : (length (positions_from 0 j targets) < Z.to_nat im_per_class)%nat).
      { pose proof (Hall j (proj2 (in_py_range j 0 num_classes) Hj)).
        unfold positions_of in Hne. lia. }
      specialize (Hstrict (proj2 (in_py_range j 0 num_classes) Hj) Hjlt). nia.
    + apply py_range_NoDup.
    + intros t Ht. apply in_py_range. now apply Hrange.
Qed.

(** *** The command-line entry point *)

Lemma override_dest cfg a : act_dest (override cfg a) = act_dest a.
Proof. unfold override. destruct (cfg !! act_dest a); reflexivity. Qed.

Lemma override_kind cfg a : act_kind (override cfg a) = act_kind a.
Proof. unfold override. destruct (cfg !! act_dest a); reflexivity. Qed.

Lemma override_flags cfg a : act_flags (override cfg a) = act_flags a.
Proof. unfold override. destruct (cfg !! act_dest a); reflexivity. Qed.

Lemma find_map_override cfg (f : Action -> bool) l :
  (forall a, f (override cfg a) = f a) ->
  List.find f (map (override cfg) l) = option_map (override cfg) (List.find f l).
Proof.
  intros Hf. induction l as [|a l IH]; [reflexivity|].
  cbn [map List.find]. rewrite Hf. destruct (f a); [reflexivity|exact IH].
Qed.

Lemma find_action_set_defaults cfg p flag :
  find_action (set_defaults cfg p) flag
  = option_map (override cfg) (find_action p flag).
Proof.
  unfold find_action, set_defaults. cbn [actions].
  apply (find_map_override cfg (fun a => existsb (String.eqb flag) (act_flags a))).
  intros a. rewrite override_flags. reflexivity.
Qed.

Lemma consume_lookup p argv : forall ns ns' d,
  consume p argv ns = inr ns' ->
  ns' !! d = cli_value p argv d (ns !! d).
Proof.
  induction argv as [argv IH] using (well_founded_ind
    (well_founded_ltof _ (@List.length string))).
  intros ns ns' d H. destruct argv as [|flag rest]; cbn [consume cli_value] in *.
  - inversion H. reflexivity.
  - destruct (find_action p flag) as [a|]; [|discriminate].
    destruct (act_kind a) as [ty|].
    + destruct rest as [|raw rest']; [discriminate|].
      rewrite (IH rest' ltac:(unfold ltof; cbn; lia) _ _ d H).
      f_equal. destruct (String.eqb_spec (act_dest a) d) as [->|Hne].
      * apply lookup_insert_eq.
      * apply lookup_insert_ne. exact Hne.
    + rewrite (IH rest ltac:(unfold ltof; cbn; lia) _ _ d H).
      f_equal. destruct (String.eqb_spec (act_dest a) d) as [->|Hne].
      * apply lookup_insert_eq.
      * apply lookup_insert_ne. exact Hne.
Qed.

Lemma cli_value_set_defaults cfg p argv : forall d acc,
  cli_value (set_defaults cfg p) argv d acc = cli_value p argv d acc.
Proof.
  induction argv as [argv IH] using (well_founded_ind
    (well_founded_ltof _ (@List.length string))).
  intros d acc. destruct argv as [|flag rest]; cbn [cli_value]; [reflexivity|].
  rewrite find_action_set_defaults.
  destruct (find_action p flag) as [a|]; cbn [option_map]; [|reflexivity].
  rewrite override_kind, override_dest.
  destruct (act_kind a) as [ty|].
  - destruct rest as [|raw rest']; [reflexivity|]. apply IH. unfold ltof; cbn; lia.
  - apply IH. unfold ltof; cbn; lia.
Qed.

Lemma cli_value_acc p argv : forall d acc,
  cli_value p argv d acc
  = match cli_value p argv d None with Some v => Some v | None => acc end.
Proof.
  induction argv as [argv IH] using (well_founded_ind
    (well_founded_ltof _ (@List.length string))).
  intros d acc. destruct argv as [|flag rest]; cbn [cli_value]; [reflexivity|].
  destruct (find_action p flag) as [a|]; [|reflexivity].
  destruct (act_kind a) as [ty|].
  - destruct rest as [|raw rest']; [reflexivity|].
    rewrite (IH rest' ltac:(unfold ltof; cbn; lia) d (if String.eqb (act_dest a) d then _ else acc)).
    rewrite (IH rest' ltac:(unfold ltof; cbn; lia) d (if String.eqb (act_dest a) d then _ else None)).
    destruct (cli_value p rest' d None); [reflexivity|].
    destruct (String.eqb (act_dest a) d); reflexivity.
  - rewrite (IH rest ltac:(unfold ltof; cbn; lia) d (if String.eqb (act_dest a) d then _ else acc)).
    rewrite (IH rest ltac:(unfold ltof; cbn; lia) d (if String.eqb (act_dest a) d then _ else None)).
    destruct (cli_value p rest d None); [reflexivity|].
    destruct (String.eqb (act_dest a) d); reflexivity.
Qed.

Lemma convert_default_eq a ns :
  convert_default a ns !! act_dest a = typed (act_kind a) <$> ns !! act_dest a.
Proof.
  unfold convert_default, typed.
  destruct (act_kind a) as [[]|]; destruct (ns !! act_dest a) as [[]|] eqn:E;
    cbn [fmap option_fmap option_map]; rewrite ?lookup_insert_eq, ?E; reflexivity.
Qed.

Lemma convert_default_ne a ns d :
  act_dest a <> d -> convert_default a ns !! d = ns !! d.
Proof.
  intros Hne. unfold convert_default.
  destruct (act_kind a) as [[]|]; destruct (ns !! act_dest a) as [[]|];
    rewrite ?(lookup_insert_ne _ _ _ _ Hne); reflexivity.
Qed.

Lemma convert_defaults_other l ns d :
  ~ In d (map act_dest l) ->
  fold_right convert_default ns l !! d = ns !! d.
Proof.
  induction l as [|b l IH]; intros Hd; [reflexivity|].
  cbn [fold_right map In] in *.
  rewrite convert_default_ne by tauto. apply IH. tauto.
Qed.

Lemma convert_defaults_lookup l ns a :
  List.NoDup (map act_dest l) -> In a l ->
  fold_right convert_default ns l !! act_dest a
  = typed (act_kind a) <$> ns !! act_dest a.
Proof.
  induction l as [|b l IH]; intros Hnd Hin; [destruct Hin|].
  cbn [fold_right map] in *. inversion Hnd as [|? ? Hb Hnd']; subst.
  destruct Hin as [->|Hin].
  - rewrite convert_default_eq, convert_defaults_other by exact Hb. reflexivity.
  - rewrite convert_default_ne.
    + apply IH; assumption.
    + intros E. apply Hb. rewrite E. apply in_map. exact Hin.
Qed.

Lemma fmap_is_map {A B} (f : A -> B) (l : list A) : f <$> l = map f l.
Proof. induction l as [|x l IH]; [reflexivity|]. cbn. f_equal. Qed.

Lemma initial_namespace_lookup cfg p a :
  NoDup (map act_dest (actions p)) -> In a (actions p) ->
  initial_namespace (set_defaults cfg p) !! act_dest a
  = Some (effective None (cfg !! act_dest a) (act_default a)).
Proof.
  intros Hnd Hin. unfold initial_namespace, set_defaults. cbn [actions parser_defaults].
  apply lookup_union_Some_l. apply elem_of_list_to_map_1.
  - rewrite fmap_is_map, !map_map. erewrite map_ext; [exact Hnd|].
    intros b. cbn. apply override_dest.
  - apply list_elem_of_In. rewrite map_map. apply in_map_iff. exists a. split; [|exact Hin].
    unfold override, effective. destruct (cfg !! act_dest a); reflexivity.
Qed.

Lemma parse_args_precedence cfg p argv ns a :
  NoDup (map act_dest (actions p)) -> In a (actions p) ->
  parse_args (set_defaults cfg p) argv = inr ns ->
  ns !! act_dest a
  = Some (typed (act_kind a)
            (effective (cli_value p argv (act_dest a) None)
                       (cfg !! act_dest a) (act_default a))).
Proof.
  intros Hnd Hin H. unfold parse_args, bind in H.
  destruct (consume _ argv _) as [e|ns0] eqn:Hc; [discriminate|].
  inversion H; subst ns. clear H.
  unfold convert_defaults. cbn [set_defaults actions].
  pose proof (convert_defaults_lookup (map (override cfg) (actions p)) ns0
                (override cfg a)) as Hl.
  rewrite override_dest, override_kind in Hl. rewrite Hl.
  - rewrite (consume_lookup _ _ _ _ (act_dest a) Hc).
    rewrite cli_value_set_defaults, cli_value_acc.
    rewrite initial_namespace_lookup by assumption.
    unfold effective. destruct (cli_value p argv (act_dest a) None); reflexivity.
  - apply NoDup_ListNoDup. rewrite map_map. erewrite map_ext; [exact Hnd|].
    intros b. apply override_dest.
  - apply in_map. exact Hin.
Qed.

Lemma returned_value {A} (d : A) (r : result A) :
  returned r = true -> r = inr (value_or d r).
Proof. destruct r; [discriminate|reflexivity]. Qed.

Lemma set_defaults_empty p : set_defaults ∅ p = p.
Proof.
  destruct p as [l d]. unfold set_defaults. cbn [actions parser_defaults]. f_equal.
  - rewrite <- (map_id l) at 2. apply map_ext. intros a. unfold override.
    rewrite lookup_empty. reflexivity.
  - apply (left_id_L ∅ (∪)).
Qed.

(** Precedence of the three sources of a parameter in [_parse_args]:
    whenever it returns a namespace, the value of every argument of the
    parser is the one the command line gives last, or else the entry of the
    configuration file, or else the default of its call (a string being
    passed through a numeric type function of the argument). *)
Theorem config_precedence config p argv configs ns a :
  NoDup (map act_dest (actions p)) -> In a (actions p) ->
  _parse_args config p argv configs = inr ns ->
  exists path rest cfg,
    parse_known_args config argv (str_default config) = inr (path, rest)
    /\ loaded configs path = Some cfg
    /\ ns !! act_dest a
       = Some (typed (act_kind a)
                 (effective (cli_value p rest (act_dest a) None)
                            (cfg !! act_dest a) (act_default a))).
Proof.
  intros Hnd Hin H. unfold _parse_args, bind in H.
  destruct (parse_known_args config argv (str_default config)) as [e|[path rest]];
    [discriminate|].
  cbn [fst snd] in H. exists path, rest. unfold loaded.
  destruct (String.eqb path "").
  - exists ∅. split; [reflexivity|]. split; [reflexivity|].
    apply parse_args_precedence; [assumption..|].
    rewrite set_defaults_empty. exact H.
  - unfold or_raise in H. destruct (configs !! path) as [cfg|]; [|discriminate].
    exists cfg. split; [reflexivity|]. split; [reflexivity|].
    apply parse_args_precedence; assumption.
Qed.

(** C6. The command-line entry point does not parse: whatever the command
    line and the configuration files, running the script stops with a
    [SyntaxError] at the call that starts on line 569, where no comma
    separates [metavar='EPOCH'] from [help=...] (lines 571 and 582 have the
    same slip); and with the commas restored it stops with a [NameError],
    since [argparse] is never imported.  No namespace of defaults is
    produced. *)
Theorem entry_point_fails_to_parse argv configs :
  run_module train_calls train_names argv configs = inl (SyntaxError 569)
  /\ map call_line
       (filter (fun c => negb (separated true (call_tokens c))) train_calls)
     = [569; 571; 582]%nat
  /\ run_module (map repaired train_calls) train_names argv configs
     = inl (NameError "argparse").
Proof. repeat split. Qed.

(** With the commas restored and [argparse] imported, the script run with
    no argument and no configuration file parses and yields the defaults
    its calls document, and nothing else. *)
Lemma find_action_dest p flag a :
  find_action p flag = Some a -> In (act_dest a) (map act_dest (actions p)).
Proof.
  unfold find_action. intros H. apply find_some in H. apply in_map. tauto.
Qed.

(** The command line gives no value to a name that is no destination. *)
Lemma cli_value_other p d argv : forall acc,
  ~ In d (map act_dest (actions p)) -> cli_value p argv d acc = acc.
Proof.
  induction argv as [argv IH] using (well_founded_ind
    (well_founded_ltof _ (@List.length string))).
  intros acc Hd. destruct argv as [|flag rest]; cbn [cli_value]; [reflexivity|].
  destruct (find_action p flag) as [a|] eqn:Hfind; [|reflexivity].
  assert (Hne : String.eqb (act_dest a) d = false).
  { apply String.eqb_neq. intros E. apply Hd. rewrite <- E.
    exact (find_action_dest _ _ _ Hfind). }
  rewrite Hne.
  destruct (act_kind a) as [ty|].
  - destruct rest as [|raw rest']; [reflexivity|]. apply IH; [unfold ltof; cbn; lia|exact Hd].
  - apply IH; [unfold ltof; cbn; lia|exact Hd].
Qed.

Lemma parse_args_other cfg p argv ns d :
  ~ In d (map act_dest (actions p)) ->
  parser_defaults p !! d = None ->
  parse_args (set_defaults cfg p) argv = inr ns ->
  ns !! d = cfg !! d.
Proof.
  intros Hd Hdef H. unfold parse_args, bind in H.
  destruct (consume _ argv _) as [e|ns0] eqn:Hc; [discriminate|].
  inversion H; subst ns. clear H.
  assert (Hd' : ~ In d (map act_dest (actions (set_defaults cfg p)))).
  { cbn [set_defaults actions]. rewrite map_map.
    erewrite map_ext; [exact Hd|]. intros b. apply override_dest. }
  unfold convert_defaults. rewrite convert_defaults_other by exact Hd'.
  rewrite (consume_lookup _ _ _ _ d Hc), cli_value_other by exact Hd'.
  unfold initial_namespace. cbn [set_defaults actions parser_defaults].
  rewrite lookup_union_r.
  - destruct (cfg !! d) as [v|] eqn:Hv.
    + now apply lookup_union_Some_l.
    + apply lookup_union_None. auto.
  - apply not_elem_of_list_to_map_1. rewrite fmap_is_map, !map_map.
    intros Hin. apply list_elem_of_In in Hin. apply Hd.
    erewrite map_ext in Hin; [exact Hin|]. intros b. cbn. apply override_dest.
Qed.

(** A name that is no destination of the parser gets its value from the
    configuration file alone: whatever the command line, the namespace
    [_parse_args] returns holds for it the entry of the file, and nothing
    when the file has none or no file is given. *)
Theorem undeclared_name_comes_from_config config p argv configs ns d :
  ~ In d (map act_dest (actions p)) ->
  parser_defaults p !! d = None ->
  _parse_args config p argv configs = inr ns ->
  exists path rest cfg,
    parse_known_args config argv (str_default config) = inr (path, rest)
    /\ loaded configs path = Some cfg
    /\ ns !! d = cfg !! d.
Proof.
  intros Hd Hdef H. unfold _parse_args, bind in H.
  destruct (parse_known_args config argv (str_default config)) as [e|[path rest]];
    [discriminate|].
  cbn [fst snd] in H. exists path, rest. unfold loaded.
  destruct (String.eqb path "").
  - exists ∅. split; [reflexivity|]. split; [reflexivity|].
    apply (parse_args_other ∅ p rest); [assumption..|].
    rewrite set_defaults_empty. exact H.
  - unfold or_raise in H. destruct (configs !! path) as [cfg|]; [|discriminate].
    exists cfg. split; [reflexivity|]. split; [reflexivity|].
    now apply (parse_args_other cfg p rest).
Qed.

(** *** Two runs with a small framework *)

Import TrainRuns.

Example two_epochs_run :
  let run := main_worker (MeterT := AverageMeter) two_batches one_batch one_batch
               two_epochs (initial 0 two_epochs ∅) in
  snd run = inr tt /\
  trace (fst run) =
    [EvOptimizer SGD ModelParameters (1 # 10)%Q; EvSaveConfig;
     EvAdjustLearningRate 0; EvTrain 0; EvValidate TrainLoader; EvValidate ValLoader;
     EvDumpLog 1; EvSaveCheckpoint 1;
     EvTrain 1; EvValidate TrainLoader; EvValidate ValLoader;
     EvDumpLog 2; EvSaveCheckpoint 2] /\
  map log_epoch (train_log (fst run)) = [0; 1].
Proof. vm_compute. repeat split. Qed.

Lemma two_epochs_normal :
  normal_run two_batches one_batch two_epochs /\ ready two_batches one_batch two_epochs loop_entry.
Proof.
  split.
  - constructor; try reflexivity; try discriminate.
    + intros n; repeat constructor; discriminate.
    + intros n; repeat constructor; discriminate.
  - constructor; simpl; eauto; try discriminate.
    split; intros n H; discriminate H.
Defined.

Lemma epoch_loop_runs_each_epoch_once_witness :
  exists st' entries,
    epoch_loop (MeterT := AverageMeter) two_batches one_batch two_epochs
      (py_range 0 2) loop_entry = (st', inr tt) /\
    List.filter is_train (trace st') = map EvTrain (py_range 0 2) /\
    List.filter is_save_checkpoint (trace st')
      = map (fun epoch => EvSaveCheckpoint (epoch + 1)) (py_range 0 2) /\
    train_log st' = entries /\
    map log_epoch entries = py_range 0 2 /\
    fs st' !! log_file two_epochs = Some (LogFile (train_log st')).
Proof.
  destruct (epoch_loop_runs_each_epoch_once (MeterT := AverageMeter)
              two_batches one_batch two_epochs loop_entry
              (proj1 two_epochs_normal) (proj2 two_epochs_normal))
    as (st' & entries & calls & Hrun & Htr & _ & Htrain & _ & _ & Hsave & Hlog & Heps & _
        & Hfile & _).
  exists st', entries. repeat split.
  - exact Hrun.
  - rewrite Htr. simpl. exact Htrain.
  - rewrite Htr. simpl. exact Hsave.
  - exact Hlog.
  - exact Heps.
  - apply Hfile. discriminate.
Defined.

Lemma checkpoint_round_trip_witness :
  exists o' checkpoint,
    optimizer after_first_epoch = Some o' /\
    fs after_first_epoch !! checkpoint_file = Some (CheckpointFile checkpoint) /\
    ck_epoch checkpoint = 1 /\
    ck_state_dict checkpoint = state_dict (model after_first_epoch) /\
    ck_optimizer checkpoint = optimizer_state_dict o' /\
    ck_best_acc1 checkpoint = best_acc1 after_first_epoch /\
    exists st3 o3,
      resume_checkpoint two_epochs resuming = (st3, inr tt) /\
      args_start_epoch st3 = 1 /\
      best_acc1 st3 = best_acc1 after_first_epoch /\
      state_dict (model st3) = state_dict (model after_first_epoch) /\
      optimizer st3 = Some o3 /\
      optimizer_state_dict o3 = optimizer_state_dict o'.
Proof.
  destruct (checkpoint_round_trip (MeterT := AverageMeter) two_batches one_batch
              two_epochs 0 loop_entry after_first_epoch)
    as (o' & checkpoint & Ho' & Hfile & Hepoch & Hmodel & Hopt & Hbest & _ & Hresume).
  { vm_compute. reflexivity. }
  exists o', checkpoint.
  split; [exact Ho'|]. split; [exact Hfile|]. split; [exact Hepoch|].
  split; [exact Hmodel|]. split; [exact Hopt|]. split; [exact Hbest|].
  apply (Hresume two_epochs resuming 0); reflexivity.
Defined.

Lemma meter_is_running_average_witness :
  (avg (AverageMeter_updates two_updates AverageMeter_reset)
   == weighted_sum two_updates / inject_Z (total_weight two_updates))%Q /\
  exists st' a1 a5,
    validate (MeterT := AverageMeter) two_epochs two_batches CrossEntropyLoss loop_entry
      = (st', inr (Some (a1, a5))) /\
    let updates := pass_updates (eval_model loop_entry) (two_batches (passes loop_entry)) in
    (a1 == weighted_sum updates / inject_Z (total_weight updates))%Q /\
    (a5 == weighted_sum updates / inject_Z (total_weight updates))%Q.
Proof.
  apply (meter_is_running_average two_epochs two_updates two_batches
           CrossEntropyLoss loop_entry).
  - discriminate.
  - repeat constructor.
  - reflexivity.
  - discriminate.
  - intros H. discriminate H.
  - discriminate.
  - repeat constructor; discriminate.
Defined.

(** The two entries of the first run: under both keys of ['train'] the
    top-1 accuracy of the six training samples, four of them right, and
    under both keys of ['test'] that of the three validation samples, one
    of them right. *)
Example two_epochs_entries :
  let run := main_worker (MeterT := AverageMeter) two_batches one_batch one_batch
               two_epochs (initial 0 two_epochs ∅) in
  Forall (fun entry =>
            exists a b,
              log_train entry = Some (mkAcc a a) /\ (a == 400 # 6)%Q /\
              log_test entry = Some (mkAcc b b) /\ (b == 100 # 3)%Q /\
              log_subset entry = None)
         (train_log (fst run)).
Proof.
  vm_compute. repeat constructor; eexists _, _; repeat split.
Qed.

Example pass_updates_example :
  pass_updates (eval_model loop_entry) (two_batches O)
  = [((200 # 4)%Q, 4); ((200 # 2)%Q, 2)].
Proof. reflexivity. Qed.

Example two_updates_avg :
  avg (AverageMeter_updates two_updates AverageMeter_reset) = (400 # 6)%Q.
Proof. reflexivity. Qed.

(** With [--track-correct] the first iteration trains and evaluates once,
    [validate] returns [None], and the run ends with a [TypeError]: no log
    entry is appended, [log.json] is not written and [save_checkpoint] is
    not called, though [range(args.start_epoch, args.epochs)] is [[0, 1]]. *)
Lemma tracking_run_logs_nothing :
  let run := main_worker (MeterT := AverageMeter) two_batches one_batch one_batch
               two_epochs_tracking (initial 0 two_epochs_tracking ∅) in
  py_range (args_start_epoch (fst run)) (epochs two_epochs_tracking) = [0; 1] /\
  snd run = inl (TypeError "cannot unpack non-iterable NoneType object") /\
  trace (fst run) =
    [EvOptimizer SGD ModelParameters (1 # 10)%Q; EvSaveConfig;
     EvAdjustLearningRate 0; EvTrain 0; EvValidate TrainLoader] /\
  train_log (fst run) = [] /\
  fs (fst run) !! log_file two_epochs_tracking = None /\
  fs (fst run) !! checkpoint_file = None.
Proof. vm_compute. repeat split. Qed.


(** The command line [--lr 0.2 -c a.json]: the learning rate comes from the
    command line, the number of epochs from the file, the rest from the
    calls. *)
Lemma config_precedence_witness :
  exists path rest cfg,
    parse_known_args config_action ["--lr"; "0.2"; "-c"; "a.json"]
      (str_default config_action) = inr (path, rest)
    /\ loaded {[ "a.json" := a_json ]} path = Some cfg
    /\ a_json_namespace !! act_dest lr_action
       = Some (typed (act_kind lr_action)
                 (effective (cli_value repaired_parser rest (act_dest lr_action) None)
                            (cfg !! act_dest lr_action) (act_default lr_action))).
Proof.
  apply (config_precedence config_action repaired_parser
           ["--lr"; "0.2"; "-c"; "a.json"] {[ "a.json" := a_json ]}
           a_json_namespace lr_action).
  - apply (bool_decide_unpack _). vm_compute. exact I.
  - vm_compute. tauto.
  - apply returned_value. vm_compute. reflexivity.
Defined.

Example a_json_values :
  a_json_namespace !! "lr" = Some (VConv TyFloat "0.2")
  /\ a_json_namespace !! "epochs" = Some (VInt 7)
  /\ a_json_namespace !! "momentum" = Some (VFloat (9 # 10)).
Proof. vm_compute. repeat split. Qed.

(** *** The properties above on the two runs *)

Lemma tracking_pass_needs_one_dot_witness :
  exists st',
    validate (MeterT := AverageMeter) two_epochs_tracking one_batch CrossEntropyLoss
             loop_entry = (st', inr None) /\
    fs st' = <["results/resnet/cifar_corr.json" :=
                 CorrectFile (correct_of_batches two_epochs_tracking
                                (eval_model loop_entry) 0
                                (one_batch (passes loop_entry)))]> (fs loop_entry).
Proof.
  refine (tracking_pass_needs_one_dot (F := counting_framework) (MeterT := AverageMeter)
            two_epochs_tracking one_batch CrossEntropyLoss loop_entry eq_refl _ _ _).
  - discriminate.
  - repeat constructor; discriminate.
  - intros H. discriminate H.
Defined.

Lemma train_raises_only_witness :
  (ZeroDivisionError = AssertionError lr_conflict /\
   use_inverse_sqrt_lr never_printing
   && (0 <? max_lr_adjusting_epoch never_printing) = true) \/
  (use_inverse_sqrt_lr never_printing = true /\
   (ZeroDivisionError = IndexError \/ ZeroDivisionError = KeyError "decay" \/
    ZeroDivisionError = KeyError "lr" \/ ZeroDivisionError = ZeroDivisionError) /\
   exists k cur_p,
     group_lr (F := counting_framework) never_printing k cur_p = inl ZeroDivisionError) \/
  (args_loss_func loop_entry = "l2" /\
   (ZeroDivisionError = IndexError \/
    ZeroDivisionError = ValueError "negative dimensions are not allowed") /\
   exists b, In b (two_batches (passes loop_entry)) /\
             one_hot never_printing (args_loss_func loop_entry) (snd b)
             = inl ZeroDivisionError) \/
  (ZeroDivisionError = ZeroDivisionError /\ use_LBFGS never_printing = false /\
   exists input, In (input, []) (two_batches (passes loop_entry))) \/
  (ZeroDivisionError = ZeroDivisionError /\ print_freq never_printing = 0 /\
   two_batches (passes loop_entry) <> []).
Proof.
  apply (train_raises_only (F := counting_framework) (MeterT := AverageMeter)
           never_printing two_batches CrossEntropyLoss 0 0 loop_entry ZeroDivisionError).
  vm_compute. reflexivity.
Defined.

(** With [--print-freq 0] the first batch is trained on, and the test of
    line 449 then divides by zero. *)
Example print_freq_0_stops_after_first_step :
  let run := train (MeterT := AverageMeter) never_printing two_batches CrossEntropyLoss
               0 0 loop_entry in
  snd run = inl ZeroDivisionError /\ model (fst run) = 1 /\ optimizer (fst run) = Some 1.
Proof. vm_compute. repeat split. Qed.

Lemma train_stops_on_lr_conflict_witness :
  snd (train (MeterT := AverageMeter) conflicting two_batches CrossEntropyLoss 0 0
             loop_entry)
  = inl (AssertionError lr_conflict) /\
  model (fst (train (MeterT := AverageMeter) conflicting two_batches CrossEntropyLoss 0 0
                    loop_entry))
  = set_mode TrainMode (model loop_entry) /\
  optimizer (fst (train (MeterT := AverageMeter) conflicting two_batches CrossEntropyLoss
                        0 0 loop_entry))
  = Some 0.
Proof.
  apply (train_stops_on_lr_conflict (F := counting_framework) (MeterT := AverageMeter)
           conflicting two_batches CrossEntropyLoss 0 0 loop_entry).
  - reflexivity.
  - reflexivity.
  - discriminate.
Defined.

Lemma train_lbfgs_takes_closure_steps_witness :
  let steps := closure_steps MSELoss (set_mode TrainMode (model loop_entry)) 0
                 (empty_batch (passes loop_entry)) in
  exists st',
    train (MeterT := AverageMeter) with_lbfgs empty_batch MSELoss 0 0 loop_entry
    = (st', inr tt) /\
    model st' = fst steps /\ optimizer st' = Some (snd steps).
Proof.
  apply (train_lbfgs_takes_closure_steps (F := counting_framework) (MeterT := AverageMeter)
           with_lbfgs empty_batch MSELoss 0 0 loop_entry); try reflexivity.
  - discriminate.
  - intros H. discriminate H.
Defined.

Lemma best_acc1_is_running_maximum_witness :
  let run := main_worker (MeterT := AverageMeter) two_batches one_batch one_batch
               two_epochs (initial 0 two_epochs ∅) in
  (first_best two_epochs ∅ <= best_acc1 (fst run))%Q /\
  (forall entry a, In entry (train_log (fst run)) -> log_test entry = Some a ->
                   (acc1 a <= best_acc1 (fst run))%Q) /\
  (best_acc1 (fst run) = first_best two_epochs ∅ \/
   exists entry a, In entry (train_log (fst run)) /\ log_test entry = Some a /\
                   best_acc1 (fst run) = acc1 a).
Proof.
  apply (best_acc1_is_running_maximum (F := counting_framework) (MeterT := AverageMeter) 0 two_batches one_batch
           one_batch two_epochs ∅).
  - reflexivity.
  - vm_compute. reflexivity.
Defined.

Lemma resumed_run_continues_after_checkpoint_witness :
  let run := main_worker (MeterT := AverageMeter) two_batches one_batch one_batch
               two_epochs (initial 0 two_epochs files_1) in
  map log_epoch (train_log (fst run)) = py_range (ck_epoch checkpoint_1) (epochs two_epochs) /\
  List.filter is_train (trace (fst run))
  = map EvTrain (py_range (ck_epoch checkpoint_1) (epochs two_epochs)) /\
  (epochs two_epochs <= ck_epoch checkpoint_1 ->
   train_log (fst run) = [] /\ List.filter is_train (trace (fst run)) = []).
Proof.
  apply (resumed_run_continues_after_checkpoint (F := counting_framework) (MeterT := AverageMeter) 0 two_batches
           one_batch one_batch two_epochs files_1 checkpoint_1).
  - discriminate.
  - vm_compute. reflexivity.
  - reflexivity.
  - vm_compute. reflexivity.
Defined.

Lemma unbound_names_stop_before_training_witness :
  let run := main_worker (MeterT := AverageMeter) two_batches one_batch one_batch
               mixing (initial 0 mixing ∅) in
  snd run <> inr tt /\
  forallb is_setup_call (trace (fst run)) = true /\
  train_log (fst run) = [].
Proof.
  apply (unbound_names_stop_before_training (F := counting_framework) (MeterT := AverageMeter) 0 two_batches
           one_batch one_batch mixing ∅).
  left. reflexivity.
Defined.

Example mixing_stops_at_train_sampler :
  snd (main_worker (MeterT := AverageMeter) two_batches one_batch one_batch
         mixing (initial 0 mixing ∅))
  = inl (UnboundLocalError "train_sampler").
Proof. vm_compute. reflexivity. Qed.

Lemma runs_that_log_nothing_witness :
  let run := main_worker (MeterT := AverageMeter) two_batches one_batch one_batch
               two_epochs_tracking (initial 0 two_epochs_tracking ∅) in
  forallb no_log_call (trace (fst run)) = true /\
  train_log (fst run) = [].
Proof.
  apply (runs_that_log_nothing (F := counting_framework) (MeterT := AverageMeter) 0 two_batches one_batch
           one_batch two_epochs_tracking ∅).
  right. reflexivity.
Defined.

Lemma unknown_loss_never_trains_witness :
  let run := main_worker (MeterT := AverageMeter) two_batches one_batch one_batch
               hinge_loss (initial 0 hinge_loss ∅) in
  forallb idle_call (trace (fst run)) = true /\
  criterion (fst run) = None /\
  train_log (fst run) = [] /\
  (snd run = inr tt -> evaluate hinge_loss = false).
Proof.
  apply (unknown_loss_never_trains (F := counting_framework) (MeterT := AverageMeter) 0 two_batches one_batch
           one_batch hinge_loss ∅).
  cbn. intros H. repeat (destruct H as [H|H]; [discriminate H|]). exact H.
Defined.

Example hinge_loss_stops_at_criterion :
  let run := main_worker (MeterT := AverageMeter) two_batches one_batch one_batch
               hinge_loss (initial 0 hinge_loss ∅) in
  snd run = inl (UnboundLocalError "criterion") /\
  trace (fst run)
  = [EvOptimizer SGD ModelParameters (1 # 10)%Q; EvSaveConfig; EvAdjustLearningRate 0].
Proof. vm_compute. split; reflexivity. Qed.

Lemma evaluate_validates_once_witness :
  let run := main_worker (MeterT := AverageMeter) two_batches one_batch one_batch
               evaluating (initial 0 evaluating ∅) in
  exists setup,
    forallb is_setup_call setup = true /\
    (trace (fst run) = setup \/ trace (fst run) = setup ++ [EvValidate ValLoader]) /\
    (snd run = inr tt -> trace (fst run) = setup ++ [EvValidate ValLoader]) /\
    train_log (fst run) = [].
Proof.
  apply (evaluate_validates_once (F := counting_framework) (MeterT := AverageMeter) 0 two_batches one_batch
           one_batch evaluating ∅).
  reflexivity.
Defined.

Lemma undeclared_name_comes_from_config_witness :
  exists path rest cfg,
    parse_known_args config_action ["--lr"; "0.2"; "-c"; "a.json"]
      (str_default config_action) = inr (path, rest)
    /\ loaded {[ "a.json" := a_json ]} path = Some cfg
    /\ a_json_namespace !! "main_file" = cfg !! "main_file".
Proof.
  apply (undeclared_name_comes_from_config config_action repaired_parser
           ["--lr"; "0.2"; "-c"; "a.json"] {[ "a.json" := a_json ]}
           a_json_namespace "main_file").
  - intros H. vm_compute in H. repeat (destruct H as [H|H]; [discriminate H|]). exact H.
  - reflexivity.
  - apply returned_value. vm_compute. reflexivity.
Defined.

Example main_file_is_not_set :
  a_json_namespace !! "main_file" = None /\ a_json_namespace !! "loss_func" = None.
Proof. vm_compute. split; reflexivity. Qed.

Lemma label_noise_ignores_the_shuffle_witness :
  inject_noise_labels 2 3 1 balanced_targets in_order
  = inject_noise_labels 2 3 1 balanced_targets reversed.
Proof.
  apply (label_noise_ignores_the_shuffle 2 3 1 balanced_targets in_order reversed).
  - intros i l. reflexivity.
  - intros i l. apply length_rev.
Defined.

Lemma label_noise_on_balanced_classes_witness :
  exists labels',
    inject_noise_labels 2 3 1 balanced_targets reversed = inr labels' /\
    length labels' = length balanced_targets /\
    (forall i k p, 0 <= i < 2 -> positions_of i balanced_targets !! k = Some p ->
                   labels' !! p = noise_pattern 2 3 1 i !! k) /\
    (forall q t, balanced_targets !! q = Some t -> ~ 0 <= t < 2 ->
                 labels' !! q = Some 0).
Proof.
  apply (label_noise_on_balanced_classes 2 3 1 balanced_targets reversed).
  - intros i l. apply length_rev.
  - lia.
  - lia.
  - lia.
  - intros i Hi. assert (H : i = 0 \/ i = 1) by lia. destruct H as [->| ->]; reflexivity.
Defined.

Example balanced_targets_with_noise :
  inject_noise_labels 2 3 1 balanced_targets reversed = inr [0; 0; 1; 1; 1; 0].
Proof. vm_compute. reflexivity. Qed.

Lemma label_noise_needs_balanced_classes_witness :
  inject_noise_labels 2 2 1 unbalanced_targets reversed
  = inl (ValueError "shape mismatch").
Proof.
  apply (label_noise_needs_balanced_classes 2 2 1 unbalanced_targets reversed 1).
  - intros i l. apply length_rev.
  - lia.
  - lia.
  - lia.
  - cbn. lia.
  - intros t Ht. cbn in Ht. intuition lia.
  - lia.
  - cbn. lia.
Defined.

End TrainFacts.
